(** * fetch_4chan: a shallow embedding of the fetch-and-persist pipeline

    The development follows [fetcher/utils.py] and [fetcher/network.py].
    Python values decoded from JSON are an inductive type, the dynamic
    checks of the interpreter are written out as functions into an
    exception-or-value type, and the file system, the logger and the
    network are an explicit world threaded through a small state and
    exception monad. The worker pool of [fetch_top_threads] is a step
    relation. *)

From Stdlib Require Import ZArith List String Ascii DecimalString DecimalZ Lia.
From stdpp Require Import base option list strings gmap.

Local Open Scope string_scope.
Local Open Scope Z_scope.

(** ** Python values

    A Python [str] is a Rocq [string]; each [ascii] stands for the code
    point of the same number (0..255).  JSON numbers are the integers: the
    remote API has no fractional field. A [dict] keeps its insertion order;
    lookup takes the first binding of a key. *)

#[warnings="-register-all"]
Inductive value : Type :=
| VNone
| VBool (b : bool)
| VInt (n : Z)
| VStr (s : string)
| VList (l : list value)
| VDict (d : list (string * value)).

Definition type_name (v : value) : string :=
  match v with
  | VNone => "NoneType"
  | VBool _ => "bool"
  | VInt _ => "int"
  | VStr _ => "str"
  | VList _ => "list"
  | VDict _ => "dict"
  end.

(** ** Exceptions *)

Inductive exn_class :=
| KeyError | TypeError | AttributeError | ValueError
| HTTPError | ConnectionError | Timeout | JSONDecodeError
| OSError | RequestException.

(** An exception is its class and the text [str(e)] gives. *)
Record exn := Exn { exn_cls : exn_class; exn_msg : string }.

Inductive result (A : Type) : Type :=
| Ok (a : A)
| Raise (e : exn).
Arguments Ok {A} a.
Arguments Raise {A} e.

Definition is_ok {A} (r : result A) : bool :=
  match r with Ok _ => true | Raise _ => false end.

Definition rbind {A B} (r : result A) (k : A -> result B) : result B :=
  match r with
  | Ok a => k a
  | Raise e => Raise e
  end.

(** [[f(x) for x in l]] where [f] may raise: the first exception wins. *)
Fixpoint rmap {A B} (f : A -> result B) (l : list A) : result (list B) :=
  match l with
  | [] => Ok []
  | x :: l' =>
      rbind (f x) (fun y => rbind (rmap f l') (fun ys => Ok (y :: ys)))
  end.

(** ** Text of values: [str], [repr] and [json.dumps] *)

Definition hex_digit (n : N) : ascii :=
  match n with
  | 0 => "0" | 1 => "1" | 2 => "2" | 3 => "3" | 4 => "4" | 5 => "5"
  | 6 => "6" | 7 => "7" | 8 => "8" | 9 => "9" | 10 => "a" | 11 => "b"
  | 12 => "c" | 13 => "d" | 14 => "e" | _ => "f"
  end%char%N.

Definition hex2 (c : ascii) : string :=
  let n := N_of_ascii c in
  String (hex_digit (n / 16)%N) (String (hex_digit (n mod 16)%N) "").

Definition str_of_int (n : Z) : string :=
  NilEmpty.string_of_int (Z.to_int n).

Fixpoint str_concat (l : list string) : string :=
  match l with
  | [] => ""
  | s :: l' => s +:+ str_concat l'
  end.

Fixpoint str_join (sep : string) (l : list string) : string :=
  match l with
  | [] => ""
  | [s] => s
  | s :: l' => s +:+ sep +:+ str_join sep l'
  end.

Fixpoint str_flat_map (f : ascii -> string) (s : string) : string :=
  match s with
  | EmptyString => ""
  | String c s' => f c +:+ str_flat_map f s'
  end.

Fixpoint str_mem (c : ascii) (s : string) : bool :=
  match s with
  | EmptyString => false
  | String c' s' => if Ascii.eqb c c' then true else str_mem c s'
  end.

(** [str.isprintable] on one code point below 256. *)
Definition is_printable (c : ascii) : bool :=
  let n := N_of_ascii c in
  ((32 <=? n) && (n <? 127) || (161 <=? n) && negb (n =? 173))%N.

(** [repr] of a [str]: single quotes unless the text has a single quote and
    no double quote. *)
Definition repr_char (quote : ascii) (c : ascii) : string :=
  if Ascii.eqb c quote then String "\" (String c "")
  else if Ascii.eqb c "\" then "\\"
  else if Ascii.eqb c "009" then "\t"
  else if Ascii.eqb c "010" then "\n"
  else if Ascii.eqb c "013" then "\r"
  else if is_printable c then String c ""
  else "\x" +:+ hex2 c.

Definition repr_str (s : string) : string :=
  let quote : ascii :=
    if str_mem "'" s && negb (str_mem "034" s) then "034"%char else "'"%char in
  String quote (str_flat_map (repr_char quote) s) +:+ String quote "".

Fixpoint py_repr (v : value) : string :=
  match v with
  | VNone => "None"
  | VBool true => "True"
  | VBool false => "False"
  | VInt n => str_of_int n
  | VStr s => repr_str s
  | VList l => "[" +:+ str_join ", " (map py_repr l) +:+ "]"
  | VDict d =>
      "{" +:+ str_join ", "
                (map (fun kv => repr_str (fst kv) +:+ ": " +:+ py_repr (snd kv)) d)
          +:+ "}"
  end.

(** [str(v)], which is what an f-string puts for [{v}]. *)
Definition py_str (v : value) : string :=
  match v with
  | VStr s => s
  | _ => py_repr v
  end.

(** [json.dumps] with its defaults ([ensure_ascii=True], separators
    [", "] and [": "]): every character outside [' '..'~'], the double quote
    and the backslash are escaped. *)
Definition json_escape_char (c : ascii) : string :=
  if Ascii.eqb c "034" then String "\" (String "034" "")
  else if Ascii.eqb c "\" then "\\"
  else if Ascii.eqb c "010" then "\n"
  else if Ascii.eqb c "013" then "\r"
  else if Ascii.eqb c "009" then "\t"
  else if Ascii.eqb c "008" then "\b"
  else if Ascii.eqb c "012" then "\f"
  else if ((32 <=? N_of_ascii c) && (N_of_ascii c <? 127))%N then String c ""
  else "\u00" +:+ hex2 c.

Definition json_string (s : string) : string :=
  String "034" (str_flat_map json_escape_char s) +:+ String "034" "".

Fixpoint json_dumps (v : value) : string :=
  match v with
  | VNone => "null"
  | VBool true => "true"
  | VBool false => "false"
  | VInt n => str_of_int n
  | VStr s => json_string s
  | VList l => "[" +:+ str_join ", " (map json_dumps l) +:+ "]"
  | VDict d =>
      "{" +:+ str_join ", "
                (map (fun kv => json_string (fst kv) +:+ ": " +:+ json_dumps (snd kv)) d)
          +:+ "}"
  end.


(** ** The dynamic operations of the interpreter used by the program *)

Fixpoint dict_lookup (k : string) (d : list (string * value)) : option value :=
  match d with
  | [] => None
  | (k', v) :: d' => if String.eqb k k' then Some v else dict_lookup k d'
  end.

Definition is_substring (s1 s2 : string) : bool :=
  match String.index 0 s1 s2 with Some _ => true | None => false end.

Definition is_str (k : string) (v : value) : bool :=
  match v with VStr s => String.eqb k s | _ => false end.

Fixpoint chars (s : string) : list value :=
  match s with
  | EmptyString => []
  | String c s' => VStr (String c "") :: chars s'
  end.

(** [d.get(k, default)] *)
Definition py_get (d : value) (k : string) (default : value) : result value :=
  match d with
  | VDict kv => Ok (match dict_lookup k kv with Some v => v | None => default end)
  | _ => Raise (Exn AttributeError
                  ("'" +:+ type_name d +:+ "' object has no attribute 'get'"))
  end.

(** [d[k]] for a [str] key [k] *)
Definition py_getitem (d : value) (k : string) : result value :=
  match d with
  | VDict kv =>
      match dict_lookup k kv with
      | Some v => Ok v
      | None => Raise (Exn KeyError (repr_str k))
      end
  | VList _ => Raise (Exn TypeError "list indices must be integers or slices, not str")
  | VStr _ => Raise (Exn TypeError "string indices must be integers, not 'str'")
  | _ => Raise (Exn TypeError ("'" +:+ type_name d +:+ "' object is not subscriptable"))
  end.

(** [k in c] for a [str] key [k]: key of a dict, element of a list,
    substring of a str. *)
Definition py_contains (k : string) (c : value) : result bool :=
  match c with
  | VDict kv => Ok (match dict_lookup k kv with Some _ => true | None => false end)
  | VList l => Ok (existsb (is_str k) l)
  | VStr s => Ok (is_substring k s)
  | _ => Raise (Exn TypeError
                  ("argument of type '" +:+ type_name c +:+ "' is not iterable"))
  end.

(** [for x in c]: the elements of a list, the keys of a dict, the characters
    of a str. *)
Definition py_iter (c : value) : result (list value) :=
  match c with
  | VList l => Ok l
  | VDict kv => Ok (map (fun p => VStr (fst p)) kv)
  | VStr s => Ok (chars s)
  | _ => Raise (Exn TypeError ("'" +:+ type_name c +:+ "' object is not iterable"))
  end.

(** [l[start:stop]] on a list, for any integers. *)
Definition slice_index (len i : Z) : Z :=
  if i <? 0 then Z.max 0 (i + len) else Z.min i len.

Definition py_slice {A} (l : list A) (start stop : Z) : list A :=
  let len := Z.of_nat (length l) in
  let lo := slice_index len start in
  let hi := slice_index len stop in
  firstn (Z.to_nat (hi - lo)) (skipn (Z.to_nat lo) l).


(** [os.path.join] on POSIX paths *)
Fixpoint ends_with_slash (s : string) : bool :=
  match s with
  | EmptyString => false
  | String c EmptyString => Ascii.eqb c "/"
  | String _ s' => ends_with_slash s'
  end.

Definition path_join (a b : string) : string :=
  if String.prefix "/" b then b
  else if String.eqb a "" || ends_with_slash a then a +:+ b
  else a +:+ "/" +:+ b.

(** ** The world: files, logger output, and the operations issued *)

Inductive level := INFO | ERROR.

Inductive open_mode := ModeA | ModeW.

(** Operations that took place, in order. A request is listed when it is
    issued, whatever its outcome; [os.makedirs], [open] and [file.write]
    are listed when the call returns; the close of a file is listed when
    the file is released, which also happens when its last flush fails. *)
Inductive event :=
| EvGet (url : string)
| EvMakedirs (path : string)
| EvOpen (path : string) (mode : open_mode)
| EvWrite (path : string) (data : string)
| EvClose (path : string).

(** [files] maps the path of a regular file to the text the file system
    holds for it; a path in [dirs] is a directory that exists; [log] is
    what the logger was handed, whatever its handlers do with it;
    [buffers] maps the path of a file that is open for writing to the text
    [file.write] has accepted and the file object has not yet passed on to
    the file system. *)
Record World := mkWorld {
  files : gmap string string;
  dirs : gset string;
  log : list (level * string);
  trace : list event;
  buffers : gmap string string
}.

Definition add_log (lv : level) (msg : string) (w : World) : World :=
  mkWorld (files w) (dirs w) (log w ++ [(lv, msg)]) (trace w) (buffers w).

Definition add_event (ev : event) (w : World) : World :=
  mkWorld (files w) (dirs w) (log w) (trace w ++ [ev]) (buffers w).

Definition set_files (fs : gmap string string) (w : World) : World :=
  mkWorld fs (dirs w) (log w) (trace w) (buffers w).

Definition add_dir (p : string) (w : World) : World :=
  mkWorld (files w) ({[p]} ∪ dirs w) (log w) (trace w) (buffers w).

Definition set_buffers (bs : gmap string string) (w : World) : World :=
  mkWorld (files w) (dirs w) (log w) (trace w) bs.

(** ** State and exception monad *)

Definition M (A : Type) : Type := World -> result A * World.

Definition ret {A} (a : A) : M A := fun w => (Ok a, w).

Definition raise {A} (e : exn) : M A := fun w => (Raise e, w).

Definition bind {A B} (m : M A) (k : A -> M B) : M B :=
  fun w =>
    match m w with
    | (Ok a, w') => k a w'
    | (Raise e, w') => (Raise e, w')
    end.

(** [try: m except Exception as e: h e] *)
Definition try_except {A} (m : M A) (h : exn -> M A) : M A :=
  fun w =>
    match m w with
    | (Ok a, w') => (Ok a, w')
    | (Raise e, w') => h e w'
    end.

(** [try: m finally: fin] *)
Definition finally {A} (m : M A) (fin : M unit) : M A :=
  fun w =>
    match m w with
    | (r, w') =>
        match fin w' with
        | (Ok _, w'') => (r, w'')
        | (Raise e, w'') => (Raise e, w'')
        end
    end.

Definition lift {A} (r : result A) : M A := fun w => (r, w).

Declare Scope py_scope.
Delimit Scope py_scope with py.
Notation "x <- m ;; k" := (bind m (fun x => k))
  (at level 20, m at level 99, k at level 200, only parsing) : py_scope.
Notation "m ;; k" := (bind m (fun _ => k))
  (at level 100, k at level 200, right associativity, only parsing) : py_scope.
Local Open Scope py_scope.

(** ** The logger

    A logger object appends to the log of the world. Where the program
    calls a method of [self.logger] without a test, a missing logger
    ([None]) raises [AttributeError]. *)

Inductive Logger := mkLogger (name : string).

Definition emit (lg : Logger) (lv : level) (msg : string) : M unit :=
  fun w => (Ok tt, add_log lv msg w).

(** [if logger: logger.info(msg)] and [if logger: logger.error(msg)] *)
Definition log_if (logger : option Logger) (lv : level) (msg : string) : M unit :=
  match logger with
  | Some lg => emit lg lv msg
  | None => ret tt
  end.

(** [self.logger.info(msg)] and [self.logger.error(msg)] *)
Definition log_call (logger : option Logger) (meth : string) (lv : level)
    (msg : string) : M unit :=
  match logger with
  | Some lg => emit lg lv msg
  | None => raise (Exn AttributeError
                     ("'NoneType' object has no attribute '" +:+ meth +:+ "'"))
  end.

Definition logger_info (logger : option Logger) := log_call logger "info" INFO.
Definition logger_error (logger : option Logger) := log_call logger "error" ERROR.

(** ** fetcher/utils.py *)

Definition newline : string := String "010" "".

(** The first [n] characters of a text, and what follows them. *)
Fixpoint str_take (n : nat) (s : string) : string :=
  match n, s with
  | S n', String c s' => String c (str_take n' s')
  | _, _ => ""
  end.

Fixpoint str_drop (n : nat) (s : string) : string :=
  match n, s with
  | S n', String c s' => str_drop n' s'
  | _, _ => s
  end.

(** What the file system does to one call of [save_to_json]. [open] gives
    a buffered text file: [file.write] puts the text into the buffer of the
    file object, and the buffer goes to the file system at a flush, which
    the file object does when the buffer has filled and when the file is
    closed. A device that fails therefore shows at a flush.
    - [OpenFails e]: [open] raises [e].
    - [FlushFails buf limit e]: the file object flushes as soon as its
      buffer holds [buf] characters or more; the device lets the file grow
      to [limit] characters and fails with [e] on what goes beyond: the
      characters that fit are written, the others stay in the buffer.
    Without a fault the moment of the flushes does not show; the buffer is
    then flushed when the file is closed. The texts written are ASCII
    ([json.dumps] escapes the rest), so characters are bytes. *)
Inductive fault :=
| NoFault
| OpenFails (e : exn)
| FlushFails (buf limit : nat) (e : exn).

(** [open(filename, mode)]: mode ['w'] creates or truncates, mode ['a']
    creates an absent file and keeps an existing one; the buffer of the new
    file object is empty. *)
Definition py_open (filename : string) (mode : open_mode) (flt : fault) : M unit :=
  fun w =>
    match flt with
    | OpenFails e => (Raise e, w)
    | _ =>
        let fs :=
          match mode with
          | ModeW => <[filename := ""]> (files w)
          | ModeA =>
              match files w !! filename with
              | Some _ => files w
              | None => <[filename := ""]> (files w)
              end
          end in
        (Ok tt, add_event (EvOpen filename mode)
                  (set_buffers (<[filename := ""]> (buffers w)) (set_files fs w)))
    end.

(** The flush of the buffer of an open file: its text goes to the end of
    the file, as far as the device takes it. *)
Definition flush (filename : string) (flt : fault) : M unit :=
  fun w =>
    let old := default "" (files w !! filename) in
    let pending := default "" (buffers w !! filename) in
    match flt with
    | FlushFails _ limit e =>
        let room := (limit - String.length old)%nat in
        let w' :=
          set_buffers (<[filename := str_drop room pending]> (buffers w))
            (set_files (<[filename := old +:+ str_take room pending]> (files w)) w) in
        if (String.length pending <=? room)%nat then (Ok tt, w') else (Raise e, w')
    | _ =>
        (Ok tt, set_buffers (<[filename := ""]> (buffers w))
                  (set_files (<[filename := old +:+ pending]> (files w)) w))
    end.

(** Whether the file object flushes after a write that leaves [pending] in
    its buffer. *)
Definition flush_due (flt : fault) (pending : string) : bool :=
  match flt with
  | FlushFails buf _ _ => (buf <=? String.length pending)%nat
  | _ => false
  end.

(** [file.write(s)]: the text goes into the buffer, which is flushed when
    it has filled; an error of that flush is raised by the write. *)
Definition file_write (filename s : string) (flt : fault) : M unit :=
  fun w =>
    let pending := default "" (buffers w !! filename) +:+ s in
    let w1 := set_buffers (<[filename := pending]> (buffers w)) w in
    match (if flush_due flt pending then flush filename flt w1 else (Ok tt, w1)) with
    | (Ok _, w2) => (Ok tt, add_event (EvWrite filename s) w2)
    | (Raise e, w2) => (Raise e, w2)
    end.

(** [file.close()], which the [with] statement calls on every way out: the
    buffer is flushed, the file is released whether or not that flush
    failed, and an error of the flush is raised. *)
Definition file_close (filename : string) (flt : fault) : M unit :=
  fun w =>
    match flush filename flt w with
    | (r, w') =>
        (r, add_event (EvClose filename)
              (set_buffers (delete filename (buffers w')) w'))
    end.

(** The loop [for entry in data]. *)
Fixpoint write_entries (filename : string) (data : list value) (flt : fault)
    : M unit :=
  match data with
  | [] => ret tt
  | entry :: rest =>
      let json_line := json_dumps entry in
      file_write filename (json_line +:+ newline) flt ;;
      write_entries filename rest flt
  end.

Definition save_to_json (data : list value) (filename : string) (append : bool)
    (logger : option Logger) (flt : fault) : M unit :=
  let mode := if append then ModeA else ModeW in
  log_if logger INFO ("Saving data to " +:+ filename) ;;
  try_except
    (py_open filename mode flt ;;
     finally (write_entries filename data flt) (file_close filename flt))
    (fun e =>
       log_if logger ERROR
         ("Error saving data to " +:+ filename +:+ ": " +:+ exn_msg e) ;;
       raise e).

(** [posixpath.split]: the path up to its last slash, without the slashes
    at its end unless it is made of slashes only, and what follows that
    slash. *)
Fixpoint split_at_last_slash (p : string) : string * string :=
  match p with
  | EmptyString => ("", "")
  | String c p' =>
      if str_mem "/" p'
      then let (head, tail) := split_at_last_slash p' in (String c head, tail)
      else if Ascii.eqb c "/" then ("/", p')
      else ("", String c p')
  end.

Fixpoint all_slashes (s : string) : bool :=
  match s with
  | EmptyString => true
  | String c s' => Ascii.eqb c "/" && all_slashes s'
  end.

Fixpoint rstrip_slashes (s : string) : string :=
  match s with
  | EmptyString => ""
  | String c s' => if all_slashes s then "" else String c (rstrip_slashes s')
  end.

Definition path_split (p : string) : string * string :=
  let (head, tail) := split_at_last_slash p in
  (if negb (String.eqb head "") && negb (all_slashes head)
   then rstrip_slashes head else head,
   tail).

(** [os.path.isdir] and [os.path.exists]; the current directory, its
    parent and the root always exist. *)
Definition is_dir (p : string) (w : World) : bool :=
  String.eqb p "." || String.eqb p ".."
  || negb (String.eqb p "") && all_slashes p
  || bool_decide (p ∈ dirs w).

Definition path_exists (p : string) (w : World) : bool :=
  is_dir p w || bool_decide (is_Some (files w !! p)).

(** The directories [os.makedirs(name)] calls [mkdir] on, in the order of
    the calls: it goes up from [name] to the first ancestor that exists,
    testing each before anything is made, and comes back down making one
    directory after the other. The recursion is on a path that gets
    shorter, so the length of [name] is fuel enough. *)
Fixpoint makedirs_chain (fuel : nat) (name : string) (w : World) : list string :=
  match fuel with
  | O => [name]
  | S fuel' =>
      let (head, tail) := path_split name in
      let (head, tail) :=
        if String.eqb tail "" then path_split head else (head, tail) in
      if negb (String.eqb head "") && negb (String.eqb tail "")
         && negb (path_exists head w)
      then if String.eqb tail "." then makedirs_chain fuel' head w
           else makedirs_chain fuel' head w ++ [name]
      else [name]
  end.

(** [mkdir(p)] as [os.makedirs(..., exist_ok=True)] calls it: an [OSError]
    is passed over when [p] is a directory, which covers the directory
    that exists already. *)
Definition mkdir (p : string) (err : option exn) : M unit :=
  fun w =>
    if is_dir p w then (Ok tt, w)
    else match err with
         | Some e => (Raise e, w)
         | None => (Ok tt, add_dir p w)
         end.

(** What the file system does to one call of [os.makedirs]: nothing, or
    the call of [mkdir] numbered [k] (from 0) fails with [e]. *)
Definition mkdir_error (err : option (nat * exn)) (i : nat) : option exn :=
  match err with
  | Some (k, e) => if Nat.eqb i k then Some e else None
  | None => None
  end.

Fixpoint mkdirs (ps : list string) (i : nat) (err : option (nat * exn)) : M unit :=
  match ps with
  | [] => ret tt
  | p :: rest => mkdir p (mkdir_error err i) ;; mkdirs rest (S i) err
  end.

(** [os.makedirs(path, exist_ok=True)]: when a [mkdir] fails, the
    directories made before it stay. *)
Definition makedirs (path : string) (err : option (nat * exn)) : M unit :=
  fun w =>
    match mkdirs (makedirs_chain (String.length path) path w) 0 err w with
    | (Ok _, w') => (Ok tt, add_event (EvMakedirs path) w')
    | (Raise e, w') => (Raise e, w')
    end.

Definition create_directories (board output_dir : string)
    (err : option (nat * exn)) : M string :=
  let base_path := path_join output_dir board in
  let images_path := path_join base_path "images" in
  makedirs images_path err ;;
  ret base_path.

Definition valid_boards : list string :=
  ["po"; "g"; "b"; "hr"; "biz"; "fit"; "pol"; "sci"; "tech"; "news"].

Definition validate_board_name (board : string) : result unit :=
  if negb (existsb (String.eqb board) valid_boards)
  then Raise (Exn ValueError
                ("The board '" +:+ board +:+ "' is not a valid 4chan board."))
  else Ok tt.

(** ** fetcher/network.py *)

(** [[f(x) for x in l if p(x)]]: test and element are evaluated post by
    post, so the first exception in that order is the one raised. *)
Fixpoint comprehension {A B} (p : A -> result bool) (f : A -> result B)
    (l : list A) : result (list B) :=
  match l with
  | [] => Ok []
  | x :: l' =>
      rbind (p x) (fun b =>
        if b
        then rbind (f x) (fun y =>
             rbind (comprehension p f l') (fun ys => Ok (y :: ys)))
        else comprehension p f l')
  end.

Inductive Session := mkSession.

Record FourChanFetcher := mkFetcher {
  board : string;
  output_dir : string;
  session : Session;
  logger : option Logger;
  base_path : string;
  headers : list (string * string)
}.

Definition BASE_URL : string := "https://a.4cdn.org".
Definition IMAGE_URL : string := "https://i.4cdn.org".

(** [FourChanFetcher.__init__]; [mk_err] is what the file system does to
    [os.makedirs]. *)
Definition __init__ (board output_dir : string) (session : option Session)
    (logger : option Logger) (mk_err : option (nat * exn)) : M FourChanFetcher :=
  lift (validate_board_name board) ;;
  let session := default mkSession session in
  base_path <- create_directories board output_dir mk_err ;;
  ret (mkFetcher board output_dir session logger base_path
         [("User-Agent", "fetch_4chan/1.0")]).

(** [response = self.session.get(url, headers=self.headers, timeout=10)],
    [response.raise_for_status()] and [response.json()]: the request is
    issued, and the remote side decides the outcome [resp]. *)
Definition get_json (url : string) (resp : result value) : M value :=
  fun w => (resp, add_event (EvGet url) w).

Definition fetch_catalog (self : FourChanFetcher) (resp : result value) : M value :=
  let catalog_url := BASE_URL +:+ "/" +:+ board self +:+ "/catalog.json" in
  try_except (get_json catalog_url resp)
    (fun e =>
       match exn_cls e with
       | HTTPError | ConnectionError | Timeout =>
           logger_error (logger self) ("Error fetching catalog: " +:+ exn_msg e) ;;
           raise e
       | JSONDecodeError =>
           logger_error (logger self)
             ("Error decoding catalog JSON: " +:+ exn_msg e) ;;
           raise e
       | _ => raise e
       end).

Definition fetch_thread (self : FourChanFetcher) (thread_no : value)
    (resp : result value) : M value :=
  let thread_url :=
    BASE_URL +:+ "/" +:+ board self +:+ "/thread/" +:+ py_str thread_no +:+ ".json" in
  try_except (get_json thread_url resp)
    (fun e =>
       match exn_cls e with
       | HTTPError | ConnectionError | Timeout =>
           logger_error (logger self)
             ("Error fetching thread " +:+ py_str thread_no +:+ ": " +:+ exn_msg e) ;;
           raise e
       | JSONDecodeError =>
           logger_error (logger self)
             ("Error decoding thread JSON: " +:+ exn_msg e) ;;
           raise e
       | _ => raise e
       end).

(** The posts iterated by both comprehensions: [thread_data.get('posts', [])]. *)
Definition posts_of (thread_data : value) : result (list value) :=
  rbind (py_get thread_data "posts" (VList [])) py_iter.

Definition thread_starter_posts (thread_data : value) : result (list value) :=
  rbind (posts_of thread_data) (comprehension (py_contains "sub") Ok).

(** The dict built for one post of [thread_starter_posts] *)
Definition thread_starter_entry (post : value) : result value :=
  rbind (py_getitem post "no") (fun no =>
  rbind (py_get post "now" (VStr "")) (fun now =>
  rbind (py_get post "name" (VStr "")) (fun name =>
  rbind (py_get post "sub" (VStr "")) (fun sub =>
  rbind (py_get post "time" (VInt 0)) (fun time =>
  rbind (py_get post "semantic_url" (VStr "")) (fun semantic_url =>
  rbind (py_get post "replies" (VInt 0)) (fun replies =>
  rbind (py_get post "images" (VInt 0)) (fun images =>
  Ok (VDict [("no", no); ("now", now); ("name", name); ("sub", sub);
             ("time", time); ("semantic_url", semantic_url);
             ("replies", replies); ("images", images)]))))))))).

Definition thread_starter_data (thread_data : value) : result (list value) :=
  rbind (thread_starter_posts thread_data) (rmap thread_starter_entry).

Definition thread_list_filename (self : FourChanFetcher) : string :=
  path_join (base_path self) "thread_list.json".

Definition save_thread_starter (self : FourChanFetcher) (thread_data : value)
    (flt : fault) : M unit :=
  data <- lift (thread_starter_data thread_data) ;;
  let filename := thread_list_filename self in
  save_to_json data filename true (logger self) flt.

(** ['tim' in post and 'ext' in post] *)
Definition is_image_post (post : value) : result bool :=
  rbind (py_contains "tim" post) (fun b =>
  if b then py_contains "ext" post else Ok false).

(** The dict built for one post that passed the test *)
Definition image_entry (self : FourChanFetcher) (post : value) : result value :=
  rbind (py_getitem post "no") (fun no =>
  rbind (py_get post "now" (VStr "")) (fun now =>
  rbind (py_get post "name" (VStr "")) (fun name =>
  rbind (py_get post "com" (VStr "")) (fun com =>
  rbind (py_get post "filename" (VStr "")) (fun filename =>
  rbind (py_get post "ext" (VStr "")) (fun ext =>
  rbind (py_get post "w" (VInt 0)) (fun w =>
  rbind (py_get post "h" (VInt 0)) (fun h =>
  rbind (py_get post "time" (VInt 0)) (fun time =>
  rbind (py_get post "md5" (VStr "")) (fun md5 =>
  rbind (py_get post "fsize" (VInt 0)) (fun fsize =>
  rbind (py_get post "resto" (VInt 0)) (fun resto =>
  rbind (py_getitem post "tim") (fun tim =>
  rbind (py_getitem post "ext") (fun ext' =>
  let url := IMAGE_URL +:+ "/" +:+ board self +:+ "/"
               +:+ py_str tim +:+ py_str ext' in
  Ok (VDict [("no", no); ("now", now); ("name", name); ("com", com);
             ("filename", filename); ("ext", ext); ("w", w); ("h", h);
             ("time", time); ("md5", md5); ("fsize", fsize);
             ("resto", resto); ("url", VStr url)]))))))))))))))).

Definition images_info (self : FourChanFetcher) (thread_data : value)
    : result (list value) :=
  rbind (posts_of thread_data) (comprehension is_image_post (image_entry self)).

Definition image_filename (self : FourChanFetcher) (thread_no : value) : string :=
  path_join (path_join (base_path self) "images")
    (board self +:+ "-" +:+ py_str thread_no +:+ "_ImageURLs.json").

Definition save_image_posts (self : FourChanFetcher) (thread_data thread_no : value)
    (flt : fault) : M unit :=
  info <- lift (images_info self thread_data) ;;
  let filename := image_filename self thread_no in
  save_to_json info filename false (logger self) flt.

(** What the outside does during one per-thread task: the answer to the
    request and the faults of the two writes. *)
Record task_env := mkTaskEnv {
  te_resp : result value;
  te_starter : fault;
  te_images : fault
}.

(** The [try] block of [fetch_and_save_thread] *)
Definition task_body (self : FourChanFetcher) (thread_no : value)
    (env : task_env) : M unit :=
  thread_data <- fetch_thread self thread_no (te_resp env) ;;
  logger_info (logger self) ("Fetched thread number " +:+ py_str thread_no) ;;
  save_thread_starter self thread_data (te_starter env) ;;
  logger_info (logger self)
    ("Saved thread starter for thread " +:+ py_str thread_no) ;;
  save_image_posts self thread_data thread_no (te_images env) ;;
  logger_info (logger self) ("Saved image posts for thread " +:+ py_str thread_no).

Definition fetch_and_save_thread (self : FourChanFetcher) (thread_no : value)
    (env : task_env) : M unit :=
  try_except (task_body self thread_no env)
    (fun e =>
       logger_error (logger self)
         ("Failed to process thread " +:+ py_str thread_no +:+ ": " +:+ exn_msg e)).

(** *** fetch_top_threads *)

(** [for page in catalog: all_threads.extend(page.get('threads', []))],
    started with [acc]. *)
Fixpoint extend_pages (pages : list value) (acc : list value)
    : result (list value) :=
  match pages with
  | [] => Ok acc
  | page :: rest =>
      rbind (py_get page "threads" (VList [])) (fun ts =>
      rbind (py_iter ts) (fun items => extend_pages rest (acc ++ items)))
  end.

Definition all_threads (catalog : value) : result (list value) :=
  rbind (py_iter catalog) (fun pages => extend_pages pages []).

Definition selected_threads (catalog : value) (threads offset : Z)
    : result (list value) :=
  rbind (all_threads catalog) (fun all =>
  rmap (fun thread => py_getitem thread "no")
       (py_slice all offset (offset + threads))).

(** The sequential head of the [try] block, up to the log of the selection. *)
Definition select (self : FourChanFetcher) (resp : result value)
    (threads offset : Z) : M (list value) :=
  catalog <- fetch_catalog self resp ;;
  selected <- lift (selected_threads catalog threads offset) ;;
  logger_info (logger self) ("Selected threads: " +:+ py_str (VList selected)) ;;
  ret selected.

(** The outer [except Exception as e]: log and re-raise. *)
Definition outer_handler (self : FourChanFetcher) (e : exn) : M unit :=
  logger_error (logger self)
    ("An error occurred while fetching top threads: " +:+ exn_msg e) ;;
  raise e.

(** The body of the loop over [as_completed(futures)] for the future of
    [thread_no] whose task ended with [res]: [future.result()] gives the
    value or raises again what the task raised; [time.sleep(1)] changes
    nothing here. *)
Definition observe (self : FourChanFetcher) (thread_no : value)
    (res : result unit) : M unit :=
  try_except (lift res)
    (fun e =>
       logger_error (logger self)
         ("Thread " +:+ py_str thread_no +:+ " generated an exception: "
            +:+ exn_msg e)).

(** [ThreadPoolExecutor(max_workers=5)] *)
Definition max_workers : nat := 5.

(** The executor: tasks submitted and waiting for a worker, tasks a worker
    runs, and futures that are done and not yet given out by
    [as_completed]. *)
Record pool := mkPool {
  queue : list value;
  running : list value;
  finished : list (value * result unit)
}.

(** Where a call of [fetch_top_threads] stands. In [Fetching exc p] the
    [with] block is entered; [exc] is the exception, if any, that left the
    loop and waits for the executor to shut down ([shutdown(wait=True)]
    lets queued and running tasks end). *)
Inductive phase :=
| Idle
| Fetching (exc : option exn) (p : pool)
| Done
| Aborted (e : exn).

Inductive label :=
| LSelect (resp : result value)
| LStart (thread_no : value)
| LFinish (thread_no : value) (env : task_env)
| LYield (thread_no : value)
| LExit.

(** One step of a call [fetch_top_threads(threads, offset)]. The steps
    follow the executor: which tasks wait, run and have ended. A task takes
    effect on the world as a whole at the step that ends it: how the
    operations of tasks that run at the same time fall between each other
    is not followed, so of the worlds of a run only what does not depend
    on it is stated. *)
Inductive step (self : FourChanFetcher) (threads offset : Z)
    : phase * World -> label -> phase * World -> Prop :=
| step_select resp w selected w' :
    select self resp threads offset w = (Ok selected, w') ->
    step self threads offset
      (Idle, w) (LSelect resp) (Fetching None (mkPool selected [] []), w')
| step_select_raise resp w e w' e' w'' :
    select self resp threads offset w = (Raise e, w') ->
    outer_handler self e w' = (Raise e', w'') ->
    step self threads offset (Idle, w) (LSelect resp) (Aborted e', w'')
| step_start exc t q r fin w :
    (length r < max_workers)%nat ->
    step self threads offset
      (Fetching exc (mkPool (t :: q) r fin), w) (LStart t)
      (Fetching exc (mkPool q (r ++ [t]) fin), w)
| step_finish exc t env q r1 r2 fin w res w' :
    fetch_and_save_thread self t env w = (res, w') ->
    step self threads offset
      (Fetching exc (mkPool q (r1 ++ t :: r2) fin), w) (LFinish t env)
      (Fetching exc (mkPool q (r1 ++ r2) (fin ++ [(t, res)])), w')
| step_yield t res q r fin1 fin2 w w' :
    observe self t res w = (Ok tt, w') ->
    step self threads offset
      (Fetching None (mkPool q r (fin1 ++ (t, res) :: fin2)), w) (LYield t)
      (Fetching None (mkPool q r (fin1 ++ fin2)), w')
| step_yield_raise t res q r fin1 fin2 w e w' :
    observe self t res w = (Raise e, w') ->
    step self threads offset
      (Fetching None (mkPool q r (fin1 ++ (t, res) :: fin2)), w) (LYield t)
      (Fetching (Some e) (mkPool q r (fin1 ++ fin2)), w')
| step_exit w :
    step self threads offset
      (Fetching None (mkPool [] [] []), w) LExit (Done, w)
| step_exit_raise e fin w e' w' :
    outer_handler self e w = (Raise e', w') ->
    step self threads offset
      (Fetching (Some e) (mkPool [] [] fin), w) LExit (Aborted e', w').

(** Executions: the labels of the steps taken, oldest first. *)
Inductive exec (self : FourChanFetcher) (threads offset : Z)
    : phase * World -> list label -> phase * World -> Prop :=
| exec_nil s : exec self threads offset s [] s
| exec_snoc s tr s' l s'' :
    exec self threads offset s tr s' ->
    step self threads offset s' l s'' ->
    exec self threads offset s (tr ++ [l]) s''.

(** [fetch_top_threads(threads, offset)] from world [w] ends with [r] in
    world [w']. *)
Definition fetch_top_threads (self : FourChanFetcher) (threads offset : Z)
    (w : World) (r : result unit) (w' : World) : Prop :=
  exists tr,
    exec self threads offset (Idle, w) tr
      (match r with Ok _ => Done | Raise e => Aborted e end, w').

(** The lines of a text: the pieces that end at a newline, and a last piece
    without one if there is any. *)
Fixpoint lines (s : string) : list string :=
  match s with
  | EmptyString => []
  | String c s' =>
      if Ascii.eqb c "010" then "" :: lines s'
      else match lines s' with
           | [] => [String c ""]
           | l :: ls => String c l :: ls
           end
  end.

(** The text [save_to_json] writes for each entry of [data]. *)
Definition json_lines (data : list value) : list string :=
  map (fun entry => json_dumps entry +:+ newline) data.


(** ** Worlds reached by the operations of [save_to_json]

    These name the worlds the statements below talk about; each is the
    world a primitive above leaves when it succeeds. *)

Definition logged (logger : option Logger) (lv : level) (msg : string)
    (w : World) : World :=
  snd (log_if logger lv msg w).

Definition opened (filename : string) (mode : open_mode) (w : World) : World :=
  snd (py_open filename mode NoFault w).

Definition written (filename : string) (ls : list string) (w : World) : World :=
  fold_left (fun w s => snd (file_write filename s NoFault w)) ls w.

Definition closed (filename : string) (w : World) : World :=
  snd (file_close filename NoFault w).

Definition save_error_msg (filename : string) (e : exn) : string :=
  "Error saving data to " +:+ filename +:+ ": " +:+ exn_msg e.

(** The world after a call of [save_to_json] that meets no fault. *)
Definition saved (data : list value) (filename : string) (append : bool)
    (logger : option Logger) (w : World) : World :=
  snd (save_to_json data filename append logger NoFault w).

(** ** Notions on executions *)

(** The tasks a worker picked up, and the tasks that ended, in the order of
    the steps. *)
Fixpoint started_tasks (tr : list label) : list value :=
  match tr with
  | [] => []
  | LStart t :: tr' => t :: started_tasks tr'
  | _ :: tr' => started_tasks tr'
  end.

Fixpoint finished_tasks (tr : list label) : list value :=
  match tr with
  | [] => []
  | LFinish t _ :: tr' => t :: finished_tasks tr'
  | _ :: tr' => finished_tasks tr'
  end.

(** The tasks that end in [tr] meet what [env] gives for their thread. *)
Definition finishes_under (env : value -> task_env) (tr : list label) : Prop :=
  Forall (fun l => match l with LFinish t en => en = env t | _ => True end) tr.

Definition is_task_label (l : label) : bool :=
  match l with
  | LStart _ | LFinish _ _ => true
  | _ => false
  end.

Definition empty_world : World := mkWorld ∅ ∅ [] [] ∅.

(** ** Notions on posts *)

(** The post has the field [k]: [k in post] holds. *)
Definition carries (k : string) (post : value) : bool :=
  match py_contains k post with
  | Ok b => b
  | Raise _ => false
  end.

Definition is_dict (v : value) : bool :=
  match v with VDict _ => true | _ => false end.

Definition value_of (r : result value) : value :=
  match r with Ok v => v | Raise _ => VNone end.

(** What holds of every point an execution from [(Idle, w0)] reaches, given
    the labels [tr] of the steps taken so far. *)
Definition run_inv (self : FourChanFetcher) (threads offset : Z) (w0 : World)
    (tr : list label) (s : phase * World) : Prop :=
  match fst s with
  | Idle => tr = [] /\ snd s = w0
  | Fetching exc p =>
      exists resp selected w1 tr',
        tr = LSelect resp :: tr' /\
        select self resp threads offset w0 = (Ok selected, w1) /\
        exc = None /\
        Permutation selected (queue p ++ started_tasks tr') /\
        Permutation (started_tasks tr') (running p ++ finished_tasks tr') /\
        Forall (fun x => snd x = Ok tt) (finished p) /\
        (length (running p) <= max_workers)%nat /\
        (length tr' + 3 * length (queue p) + 2 * length (running p)
           + length (finished p) = 3 * length selected)%nat
  | Done =>
      exists resp selected w1 tr',
        tr = LSelect resp :: tr' /\
        select self resp threads offset w0 = (Ok selected, w1) /\
        Permutation selected (started_tasks tr') /\
        Permutation (started_tasks tr') (finished_tasks tr') /\
        (length tr' = 3 * length selected + 1)%nat
  | Aborted e =>
      exists resp e0 w1,
        tr = [LSelect resp] /\
        select self resp threads offset w0 = (Raise e0, w1) /\
        outer_handler self e0 w1 = (Raise e, snd s)
  end.

(** The sequential head of a run fails: the catalog fetch fails, or the
    selection raises, or there is no logger to log the selection to. *)
Definition head_fails (self : FourChanFetcher) (resp : result value)
    (threads offset : Z) : Prop :=
  match resp with
  | Raise _ => True
  | Ok catalog =>
      is_ok (selected_threads catalog threads offset) = false
      \/ logger self = None
  end.

(** ** Sample data *)

Definition sample_fetcher : FourChanFetcher :=
  mkFetcher "g" "." mkSession (Some (mkLogger "fetch_4chan")) "./g"
    [("User-Agent", "fetch_4chan/1.0")].

Definition sample_catalog : value :=
  VList [VDict [("page", VInt 1);
                ("threads", VList [VDict [("no", VInt 111)];
                                   VDict [("no", VInt 222)]])];
         VDict [("page", VInt 2);
                ("threads", VList [VDict [("no", VInt 333)]])]].

Definition sample_thread : value :=
  VDict [("posts",
          VList [VDict [("no", VInt 111); ("sub", VStr "hello");
                        ("tim", VInt 1700000000123); ("ext", VStr ".jpg")];
                 VDict [("no", VInt 112); ("com", VStr "reply")]])].

Definition sample_text_thread : value :=
  VDict [("posts", VList [VDict [("no", VInt 111); ("sub", VStr "hello")]])].

(** A task whose request fails. *)
Definition failing_env : task_env :=
  mkTaskEnv (Raise (Exn ConnectionError "Connection refused")) NoFault NoFault.

Definition sample_selected : World :=
  snd (select sample_fetcher (Ok sample_catalog) 1 0 empty_world).

Definition sample_failed : World :=
  snd (fetch_and_save_thread sample_fetcher (VInt 111) failing_env sample_selected).

(** A text between double quotes. *)
Definition quoted (s : string) : string :=
  String "034" (s +:+ String "034" "").

Definition value_of_list (r : result (list value)) : list value :=
  match r with Ok l => l | Raise _ => [] end.

(** ** Further notions on worlds and traces *)

(** The URLs requested, in order. *)
Fixpoint requests_of (tr : list event) : list string :=
  match tr with
  | [] => []
  | EvGet url :: tr' => url :: requests_of tr'
  | _ :: tr' => requests_of tr'
  end.

(** The files opened and not closed: opens less closes. *)
Fixpoint open_handles (tr : list event) : Z :=
  match tr with
  | [] => 0
  | EvOpen _ _ :: tr' => open_handles tr' + 1
  | EvClose _ :: tr' => open_handles tr' - 1
  | _ :: tr' => open_handles tr'
  end.

(** The new state of a file keeps the old text at its start. *)
Definition extends (old new : option string) : Prop :=
  forall a, old = Some a -> exists s, new = Some (a +:+ s).

Definition catalog_url (self : FourChanFetcher) : string :=
  BASE_URL +:+ "/" +:+ board self +:+ "/catalog.json".

Definition thread_url (self : FourChanFetcher) (thread_no : value) : string :=
  BASE_URL +:+ "/" +:+ board self +:+ "/thread/" +:+ py_str thread_no +:+ ".json".

(** Every run of [m] relates the world before to the world after by [R]. *)
Definition respects {A} (R : World -> World -> Prop) (m : M A) : Prop :=
  forall w r w', m w = (r, w') -> R w w'.

(** What file operations may do to the world while a task writes to the
    files [P]: no directory is made, no file outside [P] changes, the file
    [grow] keeps its old text at its start, nothing is requested, and every
    file opened is closed. *)
Definition writes_only (P : string -> Prop) (grow : string) (w w' : World) : Prop :=
  dirs w' = dirs w /\
  (forall p, ~ P p -> files w' !! p = files w !! p) /\
  extends (files w !! grow) (files w' !! grow) /\
  requests_of (trace w') = requests_of (trace w) /\
  open_handles (trace w') = open_handles (trace w).

(** The thread summaries of one page of the catalog. *)
Definition threads_of_page (page : value) : list value :=
  match page with
  | VDict d =>
      match dict_lookup "threads" d with
      | Some (VList ts) => ts
      | _ => []
      end
  | _ => []
  end.

Definition well_formed_page (page : value) : bool :=
  match page with
  | VDict d =>
      match dict_lookup "threads" d with
      | Some (VList _) | None => true
      | Some _ => false
      end
  | _ => false
  end.

(** ** scripts/fetch_threads.py *)

(** The parsed command line. *)
Record Args := mkArgs {
  args_board : string;
  args_threads : Z;
  args_offset : Z;
  args_directory : string
}.

(** [except ValueError] also catches [json.JSONDecodeError], a subclass. *)
Definition is_ValueError (c : exn_class) : bool :=
  match c with
  | ValueError | JSONDecodeError => true
  | _ => false
  end.

(** The two [except] clauses of [main]: what is logged and what is printed
    before [sys.exit(1)]. *)
Definition main_log (e : exn) : string :=
  if is_ValueError (exn_cls e) then "Validation error: " +:+ exn_msg e
  else "An error occurred: " +:+ exn_msg e.

Definition main_print (e : exn) : string :=
  if is_ValueError (exn_cls e)
  then "Error: " +:+ exn_msg e +:+ ". Please check the board name and try again."
  else "An unexpected error occurred: " +:+ exn_msg e
         +:+ ". Please check the logs for more details.".

(** [main()] from its first log entry on, that is once [parse_args] has
    returned the arguments [args] and [create_logger] the logger: the steps
    [tr] of the run, the exit status, and the lines printed. What the
    handlers of that logger receive is the [log] of the world; the log file
    they write is none of its [files]. *)
Inductive main (args : Args) (mk_err : option (nat * exn)) (w : World)
    : list label -> Z -> list string -> World -> Prop :=
| main_completed self w1 tr w2 :
    __init__ (args_board args) (args_directory args) None
      (Some (mkLogger "fetch_4chan")) mk_err
      (add_log INFO ("Starting fetching process for board: " +:+ args_board args) w)
    = (Ok self, w1) ->
    exec self (args_threads args) (args_offset args) (Idle, w1) tr (Done, w2) ->
    main args mk_err w tr 0 []
      (add_log INFO "Fetching process completed successfully." w2)
| main_not_constructed e w1 :
    __init__ (args_board args) (args_directory args) None
      (Some (mkLogger "fetch_4chan")) mk_err
      (add_log INFO ("Starting fetching process for board: " +:+ args_board args) w)
    = (Raise e, w1) ->
    main args mk_err w [] 1 [main_print e] (add_log ERROR (main_log e) w1)
| main_aborted self w1 tr e w2 :
    __init__ (args_board args) (args_directory args) None
      (Some (mkLogger "fetch_4chan")) mk_err
      (add_log INFO ("Starting fetching process for board: " +:+ args_board args) w)
    = (Ok self, w1) ->
    exec self (args_threads args) (args_offset args) (Idle, w1) tr (Aborted e, w2) ->
    main args mk_err w tr 1 [main_print e] (add_log ERROR (main_log e) w2).

(** Nothing but the log differs between the two worlds. *)
Definition only_logs (w w' : World) : Prop :=
  files w' = files w /\ dirs w' = dirs w /\ trace w' = trace w.

(** ** Further sample data *)

Definition sample_args : Args := mkArgs "g" 0 0 ".".

Definition sample_main_started : World :=
  add_log INFO "Starting fetching process for board: g" empty_world.

Definition sample_main_constructed : World :=
  snd (__init__ "g" "." None (Some (mkLogger "fetch_4chan")) None
         sample_main_started).


Definition not_json : exn :=
  Exn JSONDecodeError "Expecting value: line 1 column 1 (char 0)".

Definition sample_main_refused : World :=
  snd (outer_handler sample_fetcher not_json
         (snd (select sample_fetcher (Raise not_json) 0 0 sample_main_constructed))).

(** A thread whose second post has a file and no number. *)
Definition sample_broken_thread : value :=
  VDict [("posts",
          VList [VDict [("no", VInt 111); ("sub", VStr "hello")];
                 VDict [("tim", VInt 1700000000123); ("ext", VStr ".jpg")]])].

Definition sample_fetcher_without_logger : FourChanFetcher :=
  mkFetcher "g" "." mkSession None "./g" [("User-Agent", "fetch_4chan/1.0")].

(** Two records whose lines have ten characters each. *)
Definition sample_records : list value :=
  [VDict [("no", VInt 1)]; VDict [("no", VInt 2)]].

Definition no_space : exn := Exn OSError "[Errno 28] No space left on device".


(** ** The file object during a call of [save_to_json]

    Between the open and the close, after the texts handed to [file.write]
    so far make up [text]: the file holds [base] and a first part of
    [text] of at most [room] characters, the buffer holds the rest, and
    nothing else differs from [w0]. *)
Definition file_state (filename base : string) (room : nat) (text : string)
    (w0 w : World) : Prop :=
  exists s1 s2,
    files w !! filename = Some (base +:+ s1) /\
    buffers w !! filename = Some s2 /\
    s1 +:+ s2 = text /\
    (String.length s1 <= room)%nat /\
    (forall p, p <> filename -> files w !! p = files w0 !! p) /\
    dirs w = dirs w0 /\ log w = log w0.
(** * Properties *)

Local Open Scope list_scope.

(** ** The text functions and the slice on small inputs *)

Example json_dumps_record :
  json_dumps (VDict [("no", VInt 570368); ("tags", VList [VNone; VBool true])])
  = "{" +:+ quoted "no" +:+ ": 570368, " +:+ quoted "tags" +:+ ": [null, true]}"
  /\ json_dumps (VStr (String "010" "b" +:+ String "034" ""))
     = quoted ("\nb\" +:+ String "034" "").
Proof. split; reflexivity. Qed.

Example py_str_examples :
  py_str (VInt (-12)) = "-12" /\ py_str (VStr "g") = "g" /\
  py_str (VList [VStr "it's"; VInt 0]) = "[" +:+ quoted "it's" +:+ ", 0]".
Proof. repeat split. Qed.

Example py_slice_examples :
  py_slice [1; 2; 3] 0 2 = [1; 2] /\ py_slice [1; 2; 3] 5 7 = [] /\
  py_slice [1; 2; 3] (-1) 4 = [3] /\ py_slice [1; 2; 3] 0 (-1) = [1; 2] /\
  py_slice [1; 2; 3] 2 1 = [].
Proof. repeat split. Qed.

(** ** Strings *)

Section Strings.

Lemma app_cons c (s t : string) : String c s +:+ t = String c (s +:+ t).
Proof. reflexivity. Qed.

Lemma app_empty_l (s : string) : "" +:+ s = s.
Proof. reflexivity. Qed.

Lemma app_empty_r (s : string) : s +:+ "" = s.
Proof. induction s as [|c s IH]; [reflexivity|]. rewrite app_cons, IH. reflexivity. Qed.

Lemma app_assoc_str (s t u : string) : (s +:+ t) +:+ u = s +:+ (t +:+ u).
Proof.
  induction s as [|c s IH]; [reflexivity|].
  rewrite !app_cons, IH. reflexivity.
Qed.

Lemma str_concat_app (l1 l2 : list string) :
  str_concat (l1 ++ l2) = str_concat l1 +:+ str_concat l2.
Proof.
  induction l1 as [|s l1 IH]; [reflexivity|].
  change (s +:+ str_concat (l1 ++ l2) = (s +:+ str_concat l1) +:+ str_concat l2).
  rewrite IH, app_assoc_str. reflexivity.
Qed.

Lemma str_mem_cons c c' (s : string) :
  str_mem c (String c' s) = if Ascii.eqb c c' then true else str_mem c s.
Proof. reflexivity. Qed.

Lemma lines_cons c (s : string) :
  lines (String c s) =
  if Ascii.eqb c "010" then "" :: lines s
  else match lines s with
       | [] => [String c ""]
       | l :: ls => String c l :: ls
       end.
Proof. reflexivity. Qed.

Lemma str_mem_app c (s t : string) :
  str_mem c (s +:+ t) = str_mem c s || str_mem c t.
Proof.
  induction s as [|c' s IH]; [reflexivity|].
  rewrite app_cons, !str_mem_cons. destruct (Ascii.eqb c c'); [reflexivity|exact IH].
Qed.

Lemma str_mem_flat_map c f (s : string) :
  (forall a, str_mem c (f a) = false) -> str_mem c (str_flat_map f s) = false.
Proof.
  intros Hf. induction s as [|a s IH]; [reflexivity|].
  simpl. rewrite str_mem_app, Hf, IH. reflexivity.
Qed.

Lemma str_mem_join c sep (l : list string) :
  str_mem c sep = false -> Forall (fun s => str_mem c s = false) l ->
  str_mem c (str_join sep l) = false.
Proof.
  intros Hsep Hl. induction Hl as [|s l Hs Hl IH]; [reflexivity|].
  destruct l as [|s' l]; [exact Hs|].
  change (str_mem c (s +:+ sep +:+ str_join sep (s' :: l)) = false).
  rewrite !str_mem_app, Hs, Hsep, IH. reflexivity.
Qed.

Lemma lines_terminated (s rest : string) :
  str_mem "010" s = false ->
  lines (s +:+ newline +:+ rest) = s :: lines rest.
Proof.
  induction s as [|c s IH]; intros Hs; [reflexivity|].
  rewrite app_cons, lines_cons. rewrite str_mem_cons in Hs.
  rewrite (Ascii.eqb_sym c). destruct (Ascii.eqb "010" c); [discriminate Hs|].
  rewrite (IH Hs). reflexivity.
Qed.

Lemma str_length_app (s t : string) :
  String.length (s +:+ t) = (String.length s + String.length t)%nat.
Proof.
  induction s as [|c s IH]; [reflexivity|].
  rewrite app_cons. cbn [String.length]. rewrite IH. reflexivity.
Qed.

Lemma str_take_drop n (s : string) : str_take n s +:+ str_drop n s = s.
Proof.
  revert s. induction n as [|n IH]; intros [|c s]; try reflexivity.
  cbn [str_take str_drop]. rewrite app_cons, IH. reflexivity.
Qed.

Lemma str_take_length n (s : string) :
  String.length (str_take n s) = Nat.min n (String.length s).
Proof.
  revert s. induction n as [|n IH]; intros [|c s]; try reflexivity.
  cbn [str_take String.length]. rewrite IH. reflexivity.
Qed.

Lemma str_take_app n (s t : string) :
  (String.length s <= n)%nat ->
  str_take n (s +:+ t) = s +:+ str_take (n - String.length s) t.
Proof.
  revert n. induction s as [|c s IH]; intros n Hn.
  - rewrite !app_empty_l. cbn [String.length]. rewrite Nat.sub_0_r. reflexivity.
  - cbn [String.length] in *. destruct n as [|n]; [lia|].
    rewrite !app_cons. cbn [str_take]. rewrite IH by lia. reflexivity.
Qed.

Lemma str_drop_app n (s t : string) :
  (String.length s <= n)%nat ->
  str_drop n (s +:+ t) = str_drop (n - String.length s) t.
Proof.
  revert n. induction s as [|c s IH]; intros n Hn.
  - rewrite !app_empty_l. cbn [String.length]. rewrite Nat.sub_0_r. reflexivity.
  - cbn [String.length] in *. destruct n as [|n]; [lia|].
    rewrite !app_cons. cbn [str_drop]. rewrite IH by lia. reflexivity.
Qed.

Lemma str_take_app_le n (s t : string) :
  (n <= String.length s)%nat -> str_take n (s +:+ t) = str_take n s.
Proof.
  revert s. induction n as [|n IH]; intros s Hn.
  - destruct s, t; reflexivity.
  - destruct s as [|c s]; cbn [String.length] in Hn; [lia|].
    rewrite app_cons. cbn [str_take]. rewrite IH by lia. reflexivity.
Qed.

Lemma str_drop_nonempty n (s : string) :
  (n < String.length s)%nat -> str_drop n s <> "".
Proof.
  revert s. induction n as [|n IH]; intros [|c s] Hn; cbn [String.length] in Hn;
    try lia.
  - discriminate.
  - cbn [str_drop]. apply IH. lia.
Qed.

(** The first characters of a text made of pieces: some whole pieces and a
    first part of the next one. *)
Lemma str_take_pieces k (ls : list string) :
  (k < String.length (str_concat ls))%nat ->
  exists j torn rest,
    str_take k (str_concat ls) = str_concat (firstn j ls) +:+ torn /\
    nth_error ls j = Some (torn +:+ rest) /\ rest <> "".
Proof.
  revert k. induction ls as [|l ls IH]; intros k Hk.
  - cbn in Hk. lia.
  - cbn [str_concat] in *. rewrite str_length_app in Hk.
    destruct (Nat.lt_ge_cases k (String.length l)) as [Hlt|Hge].
    + exists 0%nat, (str_take k l), (str_drop k l).
      rewrite str_take_app_le by lia. cbn [firstn str_concat nth_error].
      rewrite app_empty_l, str_take_drop.
      split; [reflexivity|]. split; [reflexivity|].
      apply str_drop_nonempty. exact Hlt.
    + destruct (IH (k - String.length l)%nat ltac:(lia))
        as (j & torn & rest & Htake & Hnth & Hrest).
      exists (S j), torn, rest. rewrite str_take_app by lia.
      cbn [firstn str_concat nth_error]. rewrite Htake, app_assoc_str.
      split; [reflexivity|]. split; [exact Hnth|exact Hrest].
Qed.

Lemma str_concat_firstn_le j1 j2 (ls : list string) :
  (j1 <= j2)%nat ->
  (String.length (str_concat (firstn j1 ls))
   <= String.length (str_concat (firstn j2 ls)))%nat.
Proof.
  revert j1 j2. induction ls as [|l ls IH]; intros j1 j2 Hj.
  - rewrite !firstn_nil. lia.
  - destruct j1 as [|j1]; [cbn; lia|]. destruct j2 as [|j2]; [lia|].
    cbn [firstn str_concat]. rewrite !str_length_app.
    specialize (IH j1 j2 ltac:(lia)). lia.
Qed.

End Strings.

(** ** Values and their JSON text *)

Section Values.

(** Induction on values that goes into lists and dicts. *)
Lemma value_rect_nested (P : value -> Prop) :
  P VNone -> (forall b, P (VBool b)) -> (forall n, P (VInt n)) ->
  (forall s, P (VStr s)) ->
  (forall l, Forall P l -> P (VList l)) ->
  (forall d, Forall (fun kv => P (snd kv)) d -> P (VDict d)) ->
  forall v, P v.
Proof.
  intros HN HB HI HS HL HD.
  fix IH 1. intros [ | b | n | s | l | d].
  - exact HN.
  - apply HB.
  - apply HI.
  - apply HS.
  - apply HL. induction l as [|v l IHl]; constructor; [apply IH | exact IHl].
  - apply HD. induction d as [|[k v] d IHd]; constructor; [apply IH | exact IHd].
Qed.

Lemma uint_no_newline (d : Decimal.uint) :
  str_mem "010" (NilEmpty.string_of_uint d) = false.
Proof. induction d; simpl; auto. Qed.

Lemma str_of_int_no_newline (n : Z) : str_mem "010" (str_of_int n) = false.
Proof.
  unfold str_of_int. destruct (Z.to_int n) as [d|d]; simpl;
    apply uint_no_newline.
Qed.

Lemma json_escape_char_no_newline (c : ascii) :
  str_mem "010" (json_escape_char c) = false.
Proof.
  destruct c as [[] [] [] [] [] [] [] []]; vm_compute; reflexivity.
Qed.

Lemma json_string_no_newline (s : string) :
  str_mem "010" (json_string s) = false.
Proof.
  unfold json_string. rewrite app_cons, str_mem_cons, str_mem_app.
  rewrite (str_mem_flat_map _ _ _ json_escape_char_no_newline).
  reflexivity.
Qed.

(** [json.dumps] never puts a newline in its output. *)
Lemma json_dumps_no_newline (v : value) : str_mem "010" (json_dumps v) = false.
Proof.
  induction v as [ | [] | n | s | l IH | d IH] using value_rect_nested;
    try reflexivity.
  - apply str_of_int_no_newline.
  - apply json_string_no_newline.
  - simpl. rewrite !str_mem_app, str_mem_join; [reflexivity|reflexivity|].
    apply Forall_map. exact IH.
  - simpl. rewrite !str_mem_app, str_mem_join; [reflexivity|reflexivity|].
    apply Forall_map. eapply Forall_impl; [exact IH|].
    intros [k v] Hv. cbn [fst snd] in *.
    rewrite !str_mem_app, json_string_no_newline, Hv. reflexivity.
Qed.

Lemma lines_json_lines (data : list value) :
  lines (str_concat (json_lines data)) = map json_dumps data.
Proof.
  induction data as [|entry data IH]; [reflexivity|].
  simpl. rewrite app_assoc_str, lines_terminated by apply json_dumps_no_newline.
  rewrite IH. reflexivity.
Qed.

End Values.

(** ** The record writer *)

Section RecordWriter.

Variable filename : string.

Lemma written_nil w : written filename [] w = w.
Proof. reflexivity. Qed.

Lemma written_cons s ls w :
  written filename (s :: ls) w
  = written filename ls (snd (file_write filename s NoFault w)).
Proof. reflexivity. Qed.

Lemma written_log ls w : log (written filename ls w) = log w.
Proof. revert w. induction ls as [|s ls IH]; intros w; [reflexivity|].
  rewrite written_cons, IH. reflexivity. Qed.

Lemma written_dirs ls w : dirs (written filename ls w) = dirs w.
Proof. revert w. induction ls as [|s ls IH]; intros w; [reflexivity|].
  rewrite written_cons, IH. reflexivity. Qed.

Lemma written_trace ls w :
  trace (written filename ls w) = trace w ++ map (EvWrite filename) ls.
Proof.
  revert w. induction ls as [|s ls IH]; intros w.
  - simpl. rewrite app_nil_r. reflexivity.
  - rewrite written_cons, IH. simpl. rewrite <- app_assoc. reflexivity.
Qed.

(** Without a fault the writes stay in the buffer of the file object. *)
Lemma written_files ls w : files (written filename ls w) = files w.
Proof. revert w. induction ls as [|s ls IH]; intros w; [reflexivity|].
  rewrite written_cons, IH. reflexivity. Qed.

Lemma written_buffer ls w pending :
  buffers w !! filename = Some pending ->
  buffers (written filename ls w) !! filename
  = Some (pending +:+ str_concat ls).
Proof.
  revert w pending. induction ls as [|s ls IH]; intros w pending Hb.
  - simpl. rewrite app_empty_r. exact Hb.
  - rewrite written_cons. erewrite IH.
    + simpl. rewrite app_assoc_str. reflexivity.
    + simpl. rewrite Hb. apply lookup_insert_eq.
Qed.

Lemma write_entries_ok data w :
  write_entries filename data NoFault w
  = (Ok tt, written filename (json_lines data) w).
Proof.
  revert w. induction data as [|entry rest IH]; intros w; [reflexivity|].
  cbn [write_entries]. unfold bind at 1. cbn [file_write flush_due].
  rewrite IH. reflexivity.
Qed.

Lemma save_to_json_ok data (append : bool) logger w :
  save_to_json data filename append logger NoFault w =
  (Ok tt,
   closed filename
     (written filename (json_lines data)
        (opened filename (if append then ModeA else ModeW)
           (logged logger INFO ("Saving data to " +:+ filename) w)))).
Proof.
  unfold save_to_json. unfold bind at 1.
  assert (Hlog : forall lv msg w0,
             log_if logger lv msg w0 = (Ok tt, snd (log_if logger lv msg w0))).
  { intros lv msg w0. destruct logger; reflexivity. }
  rewrite Hlog. unfold try_except, bind, finally. cbn [py_open].
  rewrite write_entries_ok. reflexivity.
Qed.

Lemma save_to_json_open_fails data (append : bool) logger e w :
  save_to_json data filename append logger (OpenFails e) w =
  (Raise e,
   logged logger ERROR (save_error_msg filename e)
     (logged logger INFO ("Saving data to " +:+ filename) w)).
Proof.
  unfold save_to_json. unfold bind at 1.
  assert (Hlog : forall lv msg w0,
             log_if logger lv msg w0 = (Ok tt, snd (log_if logger lv msg w0))).
  { intros lv msg w0. destruct logger; reflexivity. }
  rewrite Hlog. unfold try_except, bind. cbn [py_open]. rewrite Hlog. reflexivity.
Qed.

End RecordWriter.

(** ** What the named worlds hold *)

Section Worlds.

Lemma logged_files lg lv msg w : files (logged lg lv msg w) = files w.
Proof. destruct lg; reflexivity. Qed.

Lemma logged_trace lg lv msg w : trace (logged lg lv msg w) = trace w.
Proof. destruct lg; reflexivity. Qed.

Lemma logged_dirs lg lv msg w : dirs (logged lg lv msg w) = dirs w.
Proof. destruct lg; reflexivity. Qed.

Lemma logged_log lg lv msg w :
  log (logged lg lv msg w)
  = log w ++ match lg with Some _ => [(lv, msg)] | None => [] end.
Proof. destruct lg; simpl; [reflexivity|]. rewrite app_nil_r. reflexivity. Qed.

Lemma add_log_files lv msg w : files (add_log lv msg w) = files w.
Proof. reflexivity. Qed.

Lemma add_log_trace lv msg w : trace (add_log lv msg w) = trace w.
Proof. reflexivity. Qed.

Lemma add_event_files ev w : files (add_event ev w) = files w.
Proof. reflexivity. Qed.

Lemma opened_trace f mode w :
  trace (opened f mode w) = trace w ++ [EvOpen f mode].
Proof. reflexivity. Qed.

Lemma opened_log f mode w : log (opened f mode w) = log w.
Proof. reflexivity. Qed.

Lemma opened_dirs f mode w : dirs (opened f mode w) = dirs w.
Proof. reflexivity. Qed.

Lemma opened_files f (append : bool) w :
  files (opened f (if append then ModeA else ModeW) w) !! f
  = Some (if append then default "" (files w !! f) else "").
Proof.
  destruct append; simpl.
  - destruct (files w !! f) as [old|] eqn:E; simpl; [exact E|].
    apply lookup_insert_eq.
  - apply lookup_insert_eq.
Qed.

Lemma opened_files_other f mode w p :
  p <> f -> files (opened f mode w) !! p = files w !! p.
Proof.
  intros Hp. destruct mode; simpl.
  - destruct (files w !! f); [reflexivity|]. apply lookup_insert_ne. congruence.
  - apply lookup_insert_ne. congruence.
Qed.

Lemma opened_buffer f mode w : buffers (opened f mode w) !! f = Some "".
Proof. simpl. apply lookup_insert_eq. Qed.

(** The close passes the buffer on to the file. *)
Lemma closed_files f w :
  files (closed f w) !! f
  = Some (default "" (files w !! f) +:+ default "" (buffers w !! f)).
Proof. simpl. apply lookup_insert_eq. Qed.

Lemma closed_files_other f w p :
  p <> f -> files (closed f w) !! p = files w !! p.
Proof. intros Hp. simpl. apply lookup_insert_ne. congruence. Qed.

Lemma closed_log f w : log (closed f w) = log w.
Proof. reflexivity. Qed.

Lemma closed_dirs f w : dirs (closed f w) = dirs w.
Proof. reflexivity. Qed.

Lemma closed_trace f w : trace (closed f w) = trace w ++ [EvClose f].
Proof. reflexivity. Qed.

(** The file after a call of [save_to_json] that meets no fault. *)
Lemma saved_files data f (append : bool) lg lv msg w :
  files (closed f (written f (json_lines data)
           (opened f (if append then ModeA else ModeW) (logged lg lv msg w)))) !! f
  = Some ((if append then default "" (files w !! f) else "")
            +:+ str_concat (json_lines data)).
Proof.
  rewrite closed_files, written_files, opened_files.
  rewrite (written_buffer f _ _ "" (opened_buffer f _ _)).
  rewrite logged_files. reflexivity.
Qed.

Lemma saved_files_other data f mode lg lv msg w p :
  p <> f ->
  files (closed f (written f (json_lines data)
           (opened f mode (logged lg lv msg w)))) !! p
  = files w !! p.
Proof.
  intros Hp. rewrite closed_files_other, written_files, opened_files_other by exact Hp.
  rewrite logged_files. reflexivity.
Qed.

Lemma saved_trace ls f mode lg lv msg w :
  trace (closed f (written f ls (opened f mode (logged lg lv msg w))))
  = trace w ++ [EvOpen f mode] ++ map (EvWrite f) ls ++ [EvClose f].
Proof.
  rewrite closed_trace, written_trace, opened_trace, logged_trace.
  rewrite <- !app_assoc. reflexivity.
Qed.

End Worlds.

(** ** The record writer on a device that fails *)

Section Flushes.

Variable filename : string.
Variables buf limit : nat.
Variable e : exn.
Variable base : string.
Variable w0 : World.

Local Abbreviation flt := (FlushFails buf limit e).
Local Abbreviation room := (limit - String.length base)%nat.
Local Abbreviation state := (file_state filename base room).

(** A flush passes on the characters the device takes: after it the file
    holds the first [room] characters of what was written, and it fails
    when there are more. *)
Lemma flush_run text w r w' :
  state text w0 w ->
  flush filename flt w = (r, w') ->
  r = (if (String.length text <=? room)%nat then Ok tt else Raise e) /\
  trace w' = trace w /\
  files w' !! filename = Some (base +:+ str_take room text) /\
  state text w0 w'.
Proof.
  intros (s1 & s2 & Hf & Hb & Htext & Hlen & Hother & Hd & Hl) H.
  unfold flush in H. rewrite Hf, Hb in H. cbn [default from_option id] in H.
  rewrite str_length_app, Nat.sub_add_distr in H.
  assert (Htake : s1 +:+ str_take (room - String.length s1) s2 = str_take room text).
  { subst text. symmetry. apply str_take_app. exact Hlen. }
  assert (Hdrop : str_drop (room - String.length s1) s2 = str_drop room text).
  { subst text. symmetry. apply str_drop_app. exact Hlen. }
  assert (Hr : (String.length s2 <=? room - String.length s1)%nat
               = (String.length text <=? room)%nat).
  { subst text. rewrite str_length_app.
    destruct (Nat.leb_spec (String.length s2) (room - String.length s1));
      symmetry; [apply Nat.leb_le|apply Nat.leb_gt]; lia. }
  rewrite app_assoc_str, Htake, Hdrop, Hr in H.
  assert (Hst : forall w1,
             files w1 = <[filename := base +:+ str_take room text]> (files w) ->
             buffers w1 = <[filename := str_drop room text]> (buffers w) ->
             dirs w1 = dirs w -> log w1 = log w -> state text w0 w1).
  { intros w1 Hf1 Hb1 Hd1 Hl1.
    exists (str_take room text), (str_drop room text).
    rewrite Hf1, Hb1, Hd1, Hl1.
    split; [apply lookup_insert_eq|]. split; [apply lookup_insert_eq|].
    split; [apply str_take_drop|]. split; [rewrite str_take_length; lia|].
    split; [|split; assumption].
    intros p Hp. rewrite lookup_insert_ne by congruence. apply Hother, Hp. }
  destruct (String.length text <=? room)%nat; inversion H; subst w' r;
    (split; [reflexivity|]); (split; [reflexivity|]);
    (split; [apply lookup_insert_eq|]); apply Hst; reflexivity.
Qed.

Lemma file_write_run text s w r w' :
  state text w0 w ->
  file_write filename s flt w = (r, w') ->
  state (text +:+ s) w0 w' /\
  ((r = Ok tt /\ trace w' = trace w ++ [EvWrite filename s]) \/
   (r = Raise e /\ trace w' = trace w /\
    (room < String.length (text +:+ s))%nat)).
Proof.
  intros Hst H. unfold file_write in H.
  set (w1 := set_buffers
               (<[filename := default "" (buffers w !! filename) +:+ s]> (buffers w))
               w) in H.
  assert (Hst1 : state (text +:+ s) w0 w1).
  { destruct Hst as (s1 & s2 & Hf & Hb & Htext & Hlen & Hother & Hd & Hl).
    exists s1, (s2 +:+ s). unfold w1. rewrite Hb. cbn.
    split; [exact Hf|]. split; [apply lookup_insert_eq|].
    split; [rewrite <- app_assoc_str, Htext; reflexivity|]. auto. }
  destruct (flush_due flt (default "" (buffers w !! filename) +:+ s)).
  - destruct (flush filename flt w1) as [r1 w2] eqn:E.
    destruct (flush_run _ _ _ _ Hst1 E) as (Hr & Ht & _ & Hst2).
    destruct r1 as [[]|e1]; inversion H; subst r w'.
    + split; [exact Hst2|]. left. split; [reflexivity|].
      cbn [add_event trace]. rewrite Ht. reflexivity.
    + split; [exact Hst2|]. right.
      destruct (Nat.leb_spec (String.length (text +:+ s)) room) as [Hle|Hgt];
        [discriminate Hr|].
      inversion Hr. split; [reflexivity|]. split; [exact Ht|exact Hgt].
  - inversion H; subst r w'. split; [exact Hst1|]. left. split; reflexivity.
Qed.

(** The loop stops at the first write whose flush fails. *)
Lemma write_entries_run data text w r w' :
  state text w0 w ->
  write_entries filename data flt w = (r, w') ->
  exists n,
    trace w' = trace w ++ map (EvWrite filename) (json_lines (firstn n data)) /\
    ((r = Ok tt /\ n = length data /\
      state (text +:+ str_concat (json_lines data)) w0 w') \/
     (r = Raise e /\ (n < length data)%nat /\
      state (text +:+ str_concat (json_lines (firstn (S n) data))) w0 w' /\
      (room < String.length
                (text +:+ str_concat (json_lines (firstn (S n) data))))%nat)).
Proof.
  revert text w. induction data as [|entry rest IH]; intros text w Hst H.
  - inversion H; subst r w'. exists 0%nat. split; [symmetry; apply app_nil_r|].
    left. split; [reflexivity|]. split; [reflexivity|].
    cbn [json_lines map str_concat]. rewrite app_empty_r. exact Hst.
  - cbn [write_entries] in H. unfold bind in H.
    destruct (file_write filename (json_dumps entry +:+ newline) flt w)
      as [r1 w1] eqn:E.
    destruct (file_write_run _ _ _ _ _ Hst E) as (Hst1 & [(-> & Ht)|(-> & Ht & Hlen)]).
    + destruct (IH _ _ Hst1 H) as (n & Htr & Hcase). exists (S n). split.
      { rewrite Htr, Ht. cbn [firstn json_lines map]. rewrite <- app_assoc.
        reflexivity. }
      destruct Hcase as [(-> & -> & Hst2)|(-> & Hn & Hst2 & Hlen)].
      * left. split; [reflexivity|]. split; [reflexivity|].
        cbn [json_lines map str_concat]. rewrite <- app_assoc_str. exact Hst2.
      * right. split; [reflexivity|]. split; [cbn [length]; lia|].
        change (firstn (S (S n)) (entry :: rest)) with (entry :: firstn (S n) rest).
        cbn [json_lines map str_concat]. rewrite <- app_assoc_str.
        split; [exact Hst2|exact Hlen].
    + inversion H; subst r w'. exists 0%nat.
      split; [rewrite Ht; symmetry; apply app_nil_r|].
      right. split; [reflexivity|]. split; [cbn [length]; lia|].
      cbn [firstn json_lines map str_concat]. rewrite app_empty_r.
      split; [exact Hst1|exact Hlen].
Qed.

Lemma file_close_run text w r w' :
  state text w0 w ->
  file_close filename flt w = (r, w') ->
  r = (if (String.length text <=? room)%nat then Ok tt else Raise e) /\
  trace w' = trace w ++ [EvClose filename] /\
  files w' !! filename = Some (base +:+ str_take room text) /\
  (forall p, p <> filename -> files w' !! p = files w0 !! p) /\
  dirs w' = dirs w0 /\ log w' = log w0.
Proof.
  intros Hst H. unfold file_close in H.
  destruct (flush filename flt w) as [r1 w1] eqn:E.
  destruct (flush_run _ _ _ _ Hst E)
    as (Hr & Ht & Hf & (s1 & s2 & _ & _ & _ & _ & Hother & Hd & Hl)).
  inversion H; subst r w'. cbn.
  split; [exact Hr|]. split; [rewrite Ht; reflexivity|]. auto.
Qed.

End Flushes.

Section WriterRuns.

Variable filename : string.

Lemma json_lines_split n (data : list value) :
  str_concat (json_lines data)
  = str_concat (json_lines (firstn n data))
      +:+ str_concat (json_lines (skipn n data)).
Proof.
  rewrite <- str_concat_app. unfold json_lines. rewrite <- map_app, firstn_skipn.
  reflexivity.
Qed.

(** One call of [save_to_json] on a device that lets the file grow to
    [limit] characters: it raises exactly when the new text does not fit;
    in every case the file holds the text it had at the open followed by
    the first characters of the new text, as many as fit; [n] writes
    returned; and when one did not, the text handed over until then was
    already more than what fits. *)
Lemma save_to_json_flush_run data (append : bool) logger buf limit e w :
  let mode := if append then ModeA else ModeW in
  let base := if append then default "" (files w !! filename) else "" in
  let text := str_concat (json_lines data) in
  let room := (limit - String.length base)%nat in
  let fits := (String.length text <=? room)%nat in
  exists w' n,
    save_to_json data filename append logger (FlushFails buf limit e) w
    = (if fits then Ok tt else Raise e, w') /\
    files w' !! filename = Some (base +:+ str_take room text) /\
    (forall p, p <> filename -> files w' !! p = files w !! p) /\
    dirs w' = dirs w /\
    trace w' = trace w ++ [EvOpen filename mode]
                 ++ map (EvWrite filename) (json_lines (firstn n data))
                 ++ [EvClose filename] /\
    log w' = log w ++
      match logger with
      | Some _ =>
          (INFO, "Saving data to " +:+ filename)
          :: (if fits then [] else [(ERROR, save_error_msg filename e)])
      | None => []
      end /\
    (n <= length data)%nat /\
    ((n < length data)%nat ->
     (room < String.length (str_concat (json_lines (firstn (S n) data))))%nat).
Proof.
  intros mode base text room fits.
  set (w1 := logged logger INFO ("Saving data to " +:+ filename) w).
  set (wo := opened filename mode w1).
  assert (Hlog : forall lv msg wx,
             log_if logger lv msg wx = (Ok tt, logged logger lv msg wx)).
  { intros lv msg wx. unfold logged. destruct logger; reflexivity. }
  assert (Hst0 : file_state filename base room "" wo wo).
  { exists "", "". unfold wo, mode, w1.
    rewrite opened_files, logged_files, app_empty_r.
    split; [reflexivity|]. split; [apply opened_buffer|].
    split; [reflexivity|]. split; [cbn; lia|]. auto. }
  assert (Hwo : (forall p, p <> filename -> files wo !! p = files w !! p) /\
                dirs wo = dirs w /\ log wo = log w1 /\
                trace wo = trace w ++ [EvOpen filename mode]).
  { unfold wo, w1. split; [|split; [|split]].
    - intros p Hp. rewrite opened_files_other by exact Hp.
      rewrite logged_files. reflexivity.
    - rewrite opened_dirs. apply logged_dirs.
    - apply opened_log.
    - rewrite opened_trace, logged_trace. reflexivity. }
  destruct Hwo as (Hwo_f & Hwo_d & Hwo_l & Hwo_t).
  unfold save_to_json. fold mode. unfold bind at 1. rewrite Hlog. fold w1.
  unfold try_except, bind at 1.
  change (py_open filename mode (FlushFails buf limit e) w1) with (Ok tt, wo).
  cbv iota beta. unfold finally.
  destruct (write_entries filename data (FlushFails buf limit e) wo)
    as [r2 w2] eqn:E2.
  destruct (write_entries_run filename buf limit e base wo data "" wo r2 w2 Hst0 E2)
    as (n & Htr2 & Hcase).
  destruct (file_close filename (FlushFails buf limit e) w2) as [r3 w3] eqn:E3.
  rewrite !app_empty_l in Hcase.
  assert (Hlogs : log w1 = log w ++ match logger with
                                    | Some _ => [(INFO, "Saving data to " +:+ filename)]
                                    | None => []
                                    end).
  { unfold w1. apply logged_log. }
  destruct Hcase as [(-> & -> & Hst2)|(-> & Hn & Hst2 & Hlen)].
  - (* every write returned *)
    destruct (file_close_run filename buf limit e base wo _ _ _ _ Hst2 E3)
      as (Hr3 & Ht3 & Hf3 & Ho3 & Hd3 & Hl3).
    fold text room fits in Hr3, Hf3.
    assert (Htrace : trace w3 = trace w ++ [EvOpen filename mode]
              ++ map (EvWrite filename) (json_lines (firstn (length data) data))
              ++ [EvClose filename]).
    { rewrite Ht3, Htr2, Hwo_t, <- !app_assoc. reflexivity. }
    destruct fits eqn:Efits; subst r3.
    + exists w3, (length data). split; [reflexivity|]. split; [exact Hf3|].
      split; [intros p Hp; rewrite Ho3 by exact Hp; apply Hwo_f, Hp|].
      split; [congruence|]. split; [exact Htrace|].
      split; [|split; [lia|lia]].
      rewrite Hl3, Hwo_l, Hlogs. destruct logger; reflexivity.
    + unfold bind. rewrite Hlog. unfold raise.
      exists (logged logger ERROR (save_error_msg filename e) w3), (length data).
      split; [reflexivity|]. rewrite logged_files, logged_dirs, logged_trace.
      split; [exact Hf3|].
      split; [intros p Hp; rewrite Ho3 by exact Hp; apply Hwo_f, Hp|].
      split; [congruence|]. split; [exact Htrace|].
      split; [|split; [lia|lia]].
      rewrite logged_log, Hl3, Hwo_l, Hlogs.
      destruct logger; rewrite <- ?app_assoc, ?app_nil_r; reflexivity.
  - (* a write raised *)
    destruct (file_close_run filename buf limit e base wo _ _ _ _ Hst2 E3)
      as (Hr3 & Ht3 & Hf3 & Ho3 & Hd3 & Hl3).
    fold room in Hr3, Hf3, Hlen.
    apply Nat.leb_gt in Hlen as Hleb. rewrite Hleb in Hr3. subst r3.
    assert (Hfits : fits = false).
    { unfold fits. apply Nat.leb_gt. unfold text.
      rewrite (json_lines_split (S n) data), str_length_app. lia. }
    rewrite Hfits. cbv iota beta. unfold bind. rewrite Hlog. unfold raise.
    exists (logged logger ERROR (save_error_msg filename e) w3), n.
    split; [reflexivity|]. rewrite logged_files, logged_dirs, logged_trace.
    split.
    { rewrite Hf3. unfold text. rewrite (json_lines_split (S n) data).
      rewrite str_take_app_le by lia. reflexivity. }
    split; [intros p Hp; rewrite Ho3 by exact Hp; apply Hwo_f, Hp|].
    split; [congruence|].
    split; [rewrite Ht3, Htr2, Hwo_t, <- !app_assoc; reflexivity|].
    split; [|split; [lia|intros _; exact Hlen]].
    rewrite logged_log, Hl3, Hwo_l, Hlogs.
    destruct logger; rewrite <- ?app_assoc, ?app_nil_r; reflexivity.
Qed.

End WriterRuns.

(** ** Claims on the record writer *)

(** C7. For every sequence of records, path and mode, [save_to_json] turns
    each record into the text [json.dumps] gives for it, which holds no
    newline, followed by one newline; it writes these lines in the order of
    the input, so that the lines added to the file are the JSON texts of the
    records in that order; and under every fault it opens the file at most
    once, writes only between that open and its close, and always closes
    what it opened. *)
Theorem save_to_json_one_line_each_in_order
    (data : list value) (filename : string) (append : bool)
    (logger : option Logger) (flt : fault) (w : World) :
  let mode := if append then ModeA else ModeW in
  let base := if append then default "" (files w !! filename) else "" in
  let write entry := EvWrite filename (json_dumps entry +:+ newline) in
  Forall (fun entry => str_mem "010" (json_dumps entry) = false) data /\
  (exists w',
      save_to_json data filename append logger NoFault w = (Ok tt, w') /\
      trace w' = trace w ++ [EvOpen filename mode] ++ map write data
                   ++ [EvClose filename] /\
      exists text,
        files w' !! filename = Some (base +:+ text) /\
        lines text = map json_dumps data) /\
  (exists r w' n,
      save_to_json data filename append logger flt w = (r, w') /\
      trace w' = trace w ++
        match flt with
        | OpenFails _ => []
        | _ => [EvOpen filename mode] ++ map write (firstn n data)
                 ++ [EvClose filename]
        end).
Proof.
  intros mode base write.
  assert (Hmap : forall l, map (EvWrite filename) (json_lines l) = map write l).
  { intros l. unfold json_lines. rewrite map_map. reflexivity. }
  split; [|split].
  - apply Forall_forall. intros entry _. apply json_dumps_no_newline.
  - eexists. split; [apply save_to_json_ok|]. split.
    + rewrite saved_trace, Hmap. reflexivity.
    + exists (str_concat (json_lines data)). split.
      * apply saved_files.
      * apply lines_json_lines.
  - destruct flt as [|e|buf limit e].
    + eexists _, _, (length data). split; [apply save_to_json_ok|].
      rewrite saved_trace, Hmap, firstn_all. reflexivity.
    + eexists _, _, 0%nat. split; [apply save_to_json_open_fails|].
      rewrite !logged_trace, app_nil_r. reflexivity.
    + destruct (save_to_json_flush_run filename data append logger buf limit e w)
        as (w' & n & Hrun & _ & _ & _ & Ht & _).
      eexists _, w', n. split; [exact Hrun|]. rewrite Ht, Hmap. reflexivity.
Qed.

(** C8, as the code has it. The file object buffers what is written, and a
    device that fails shows when the buffer is flushed, at a write or at
    the close. When the device cannot take all the lines, the exception
    reaches the caller and nothing is rolled back: the file holds the text
    it had at the open (its old text in append mode, nothing in overwrite
    mode) followed by the first characters of the new lines, as many as the
    device took, that is the whole lines of the first [j] records and a
    first part, maybe empty, of the line of the next record. [n] calls of
    [file.write] had returned, and [j <= n]: a record whose write had
    returned is not in the file when its line was still in the buffer. The
    error is logged when a logger was passed; without a logger nothing is
    logged. *)
Theorem save_to_json_write_failure
    (data : list value) (filename : string) (append : bool)
    (logger : option Logger) (buf limit : nat) (e : exn) (w : World) :
  let mode := if append then ModeA else ModeW in
  let base := if append then default "" (files w !! filename) else "" in
  let text := str_concat (json_lines data) in
  let room := (limit - String.length base)%nat in
  (room < String.length text)%nat ->
  exists w' n j entry torn rest,
    save_to_json data filename append logger (FlushFails buf limit e) w
    = (Raise e, w') /\
    files w' !! filename = Some (base +:+ str_take room text) /\
    str_take room text = str_concat (json_lines (firstn j data)) +:+ torn /\
    lines (str_concat (json_lines (firstn j data))) = map json_dumps (firstn j data) /\
    nth_error data j = Some entry /\
    json_dumps entry +:+ newline = torn +:+ rest /\ rest <> "" /\
    (j <= n <= length data)%nat /\
    trace w' = trace w ++ [EvOpen filename mode]
                 ++ map (EvWrite filename) (json_lines (firstn n data))
                 ++ [EvClose filename] /\
    log w' = log w ++
      match logger with
      | Some _ =>
          [(INFO, "Saving data to " +:+ filename);
           (ERROR, "Error saving data to " +:+ filename +:+ ": " +:+ exn_msg e)]
      | None => []
      end.
Proof.
  intros mode base text room Hlt.
  destruct (save_to_json_flush_run filename data append logger buf limit e w)
    as (w' & n & Hrun & Hf & _ & _ & Ht & Hl & Hn & Hlen).
  fold mode base text room in Hrun, Hf, Ht, Hl, Hlen.
  apply Nat.leb_gt in Hlt as Hfits. rewrite Hfits in Hrun, Hl.
  destruct (str_take_pieces room (json_lines data) Hlt)
    as (j & torn & rest & Htake & Hnth & Hrest).
  fold text in Htake.
  assert (Hfirst : firstn j (json_lines data) = json_lines (firstn j data)).
  { unfold json_lines. apply firstn_map. }
  rewrite Hfirst in Htake.
  unfold json_lines in Hnth. rewrite nth_error_map in Hnth.
  destruct (nth_error data j) as [entry|] eqn:Hentry; [|discriminate Hnth].
  cbn [option_map] in Hnth. inversion Hnth as [Hline].
  assert (Hj : (j < length data)%nat).
  { apply nth_error_Some. rewrite Hentry. discriminate. }
  assert (Hroom : (String.length (str_concat (json_lines (firstn j data)))
                   <= room)%nat).
  { apply (f_equal String.length) in Htake.
    rewrite str_take_length, str_length_app in Htake. lia. }
  assert (Hjn : (j <= n)%nat).
  { destruct (Nat.lt_ge_cases n (length data)) as [Hnlt|Hnge]; [|lia].
    specialize (Hlen Hnlt).
    destruct (Nat.le_gt_cases j n) as [Hle|Hgt]; [exact Hle|].
    pose proof (str_concat_firstn_le (S n) j (json_lines data) Hgt) as Hmono.
    unfold json_lines in Hmono at 1 2. rewrite !firstn_map in Hmono.
    fold (json_lines (firstn (S n) data)) (json_lines (firstn j data)) in Hmono.
    lia. }
  exists w', n, j, entry, torn, rest.
  split; [exact Hrun|]. split; [exact Hf|]. split; [exact Htake|].
  split; [apply lines_json_lines|]. split; [exact Hentry|].
  split; [exact Hline|]. split; [exact Hrest|]. split; [lia|].
  split; [exact Ht|]. exact Hl.
Qed.

(** ** Paths of the output files *)

Section Paths.

Lemma list_ascii_app (s t : string) :
  list_ascii_of_string (s +:+ t)
  = list_ascii_of_string s ++ list_ascii_of_string t.
Proof.
  induction s as [|c s IH]; [reflexivity|].
  rewrite app_cons. simpl. rewrite IH. reflexivity.
Qed.

Lemma path_join_suffix (a b : string) : exists pre, path_join a b = pre +:+ b.
Proof.
  unfold path_join. destruct (String.prefix "/" b).
  - exists "". reflexivity.
  - destruct (String.eqb a "" || ends_with_slash a).
    + exists a. reflexivity.
    + exists (a +:+ "/"). rewrite app_assoc_str. reflexivity.
Qed.

(** The shared list and the file of a thread are different files. *)
Lemma thread_list_not_image_file self thread_no :
  thread_list_filename self <> image_filename self thread_no.
Proof.
  unfold thread_list_filename, image_filename.
  destruct (path_join_suffix (base_path self) "thread_list.json") as [p1 ->].
  destruct (path_join_suffix (path_join (base_path self) "images")
              (board self +:+ "-" +:+ py_str thread_no +:+ "_ImageURLs.json"))
    as [p2 ->].
  rewrite <- !app_assoc_str.
  intros H.
  apply (f_equal (fun s => rev (list_ascii_of_string s))) in H.
  rewrite !list_ascii_app, !rev_app_distr in H.
  simpl in H. discriminate H.
Qed.

End Paths.

(** ** One per-thread task *)

Section Task.

Variable self : FourChanFetcher.

Lemma saved_eq data f (append : bool) lg w :
  saved data f append lg w
  = closed f (written f (json_lines data)
      (opened f (if append then ModeA else ModeW)
         (logged lg INFO ("Saving data to " +:+ f) w))).
Proof. unfold saved. rewrite save_to_json_ok. reflexivity. Qed.

Lemma saved_at data f (append : bool) lg w :
  files (saved data f append lg w) !! f
  = Some ((if append then default "" (files w !! f) else "")
            +:+ str_concat (json_lines data)).
Proof. rewrite saved_eq. apply saved_files. Qed.

Lemma saved_other data f (append : bool) lg w p :
  p <> f -> files (saved data f append lg w) !! p = files w !! p.
Proof. intros Hp. rewrite saved_eq. apply saved_files_other. exact Hp. Qed.

Lemma save_thread_starter_ok thread_data data w :
  thread_starter_data thread_data = Ok data ->
  save_thread_starter self thread_data NoFault w
  = (Ok tt, saved data (thread_list_filename self) true (logger self) w).
Proof.
  intros H. unfold save_thread_starter, bind, lift. rewrite H.
  unfold saved. destruct (save_to_json _ _ _ _ _ _) as [r w'] eqn:E.
  rewrite save_to_json_ok in E. inversion E. reflexivity.
Qed.

Lemma save_image_posts_ok thread_data thread_no info w :
  images_info self thread_data = Ok info ->
  save_image_posts self thread_data thread_no NoFault w
  = (Ok tt, saved info (image_filename self thread_no) false (logger self) w).
Proof.
  intros H. unfold save_image_posts, bind, lift. rewrite H.
  unfold saved. destruct (save_to_json _ _ _ _ _ _) as [r w'] eqn:E.
  rewrite save_to_json_ok in E. inversion E. reflexivity.
Qed.

(** The world a task leaves when the thread is fetched and both record sets
    are written. *)
Lemma fetch_and_save_thread_ok lg thread_no thread_data data info w :
  logger self = Some lg ->
  thread_starter_data thread_data = Ok data ->
  images_info self thread_data = Ok info ->
  fetch_and_save_thread self thread_no
    (mkTaskEnv (Ok thread_data) NoFault NoFault) w
  = (Ok tt,
     add_log INFO ("Saved image posts for thread " +:+ py_str thread_no)
       (saved info (image_filename self thread_no) false (logger self)
          (add_log INFO ("Saved thread starter for thread " +:+ py_str thread_no)
             (saved data (thread_list_filename self) true (logger self)
                (add_log INFO ("Fetched thread number " +:+ py_str thread_no)
                   (add_event
                      (EvGet (BASE_URL +:+ "/" +:+ board self +:+ "/thread/"
                                +:+ py_str thread_no +:+ ".json")) w)))))).
Proof.
  intros Hlg Hdata Hinfo.
  unfold fetch_and_save_thread, task_body, try_except, bind.
  unfold fetch_thread, try_except, get_json. cbn [te_resp te_starter te_images].
  unfold logger_info, log_call. rewrite Hlg. cbn [emit].
  rewrite (save_thread_starter_ok _ _ _ Hdata).
  rewrite (save_image_posts_ok _ _ _ _ Hinfo).
  rewrite Hlg. reflexivity.
Qed.

(** With a logger a task never raises, and what was raised inside is
    logged with the thread number. *)
Lemma fetch_and_save_thread_never_raises lg thread_no env w :
  logger self = Some lg ->
  exists w',
    fetch_and_save_thread self thread_no env w = (Ok tt, w') /\
    forall e w1,
      task_body self thread_no env w = (Raise e, w1) ->
      w' = add_log ERROR
             ("Failed to process thread " +:+ py_str thread_no +:+ ": "
                +:+ exn_msg e) w1.
Proof.
  intros Hlg. unfold fetch_and_save_thread, try_except.
  destruct (task_body self thread_no env w) as [[[]|e] w1].
  - eexists. split; [reflexivity|]. intros e w2 H. discriminate H.
  - unfold logger_error, log_call. rewrite Hlg. cbn [emit].
    eexists. split; [reflexivity|]. intros e' w2 H. inversion H. reflexivity.
Qed.

End Task.

(** ** Claims on the output files *)

(** C6. When a thread is fetched and then fetched again, each fetch opens
    the image file of the thread in mode ['w'] and the shared
    [thread_list.json] in mode ['a']: after each fetch the image file holds
    exactly the lines of the image-post records of that fetch, and
    [thread_list.json] holds its old text followed by the thread-starter
    lines of the first and then of the second fetch, nothing removed. *)
Theorem refetch_overwrites_images_and_appends_starters
    (self : FourChanFetcher) (lg : Logger) (thread_no td1 td2 : value)
    (sd1 sd2 im1 im2 : list value) (w : World) :
  logger self = Some lg ->
  thread_starter_data td1 = Ok sd1 -> images_info self td1 = Ok im1 ->
  thread_starter_data td2 = Ok sd2 -> images_info self td2 = Ok im2 ->
  let images := image_filename self thread_no in
  let starters := thread_list_filename self in
  let url := BASE_URL +:+ "/" +:+ board self +:+ "/thread/"
               +:+ py_str thread_no +:+ ".json" in
  let old := default "" (files w !! starters) in
  exists w1 w2,
    fetch_and_save_thread self thread_no (mkTaskEnv (Ok td1) NoFault NoFault) w
      = (Ok tt, w1) /\
    fetch_and_save_thread self thread_no (mkTaskEnv (Ok td2) NoFault NoFault) w1
      = (Ok tt, w2) /\
    trace w1 = trace w ++ [EvGet url]
                 ++ ([EvOpen starters ModeA]
                       ++ map (EvWrite starters) (json_lines sd1)
                       ++ [EvClose starters])
                 ++ ([EvOpen images ModeW]
                       ++ map (EvWrite images) (json_lines im1)
                       ++ [EvClose images]) /\
    files w1 !! images = Some (str_concat (json_lines im1)) /\
    files w2 !! images = Some (str_concat (json_lines im2)) /\
    lines (str_concat (json_lines im2)) = map json_dumps im2 /\
    files w1 !! starters = Some (old +:+ str_concat (json_lines sd1)) /\
    files w2 !! starters
      = Some (old +:+ str_concat (json_lines (sd1 ++ sd2))) /\
    lines (str_concat (json_lines (sd1 ++ sd2))) = map json_dumps (sd1 ++ sd2).
Proof.
  intros Hlg Hsd1 Him1 Hsd2 Him2 images starters url old.
  assert (Hne : starters <> images) by apply thread_list_not_image_file.
  eexists _, _.
  split; [apply (fetch_and_save_thread_ok self lg _ _ _ _ _ Hlg Hsd1 Him1)|].
  split; [apply (fetch_and_save_thread_ok self lg _ _ _ _ _ Hlg Hsd2 Him2)|].
  fold images starters url.
  assert (Hw1 : forall w0 sd im,
    files (add_log INFO ("Saved image posts for thread " +:+ py_str thread_no)
       (saved im images false (logger self)
          (add_log INFO ("Saved thread starter for thread " +:+ py_str thread_no)
             (saved sd starters true (logger self)
                (add_log INFO ("Fetched thread number " +:+ py_str thread_no)
                   (add_event (EvGet url) w0)))))) !! starters
    = Some (default "" (files w0 !! starters) +:+ str_concat (json_lines sd))).
  { intros w0 sd im. rewrite add_log_files, saved_other by exact Hne.
    rewrite add_log_files, saved_at. reflexivity. }
  repeat split.
  - rewrite add_log_trace, saved_eq, saved_trace.
    rewrite add_log_trace, saved_eq, saved_trace.
    rewrite add_log_trace. cbn [add_event trace].
    rewrite <- !app_assoc. reflexivity.
  - rewrite add_log_files, saved_at. reflexivity.
  - rewrite add_log_files, saved_at. reflexivity.
  - apply lines_json_lines.
  - apply Hw1.
  - rewrite Hw1, Hw1. cbn [default from_option id]. fold old.
    unfold json_lines. rewrite map_app, str_concat_app, app_assoc_str.
    reflexivity.
  - apply lines_json_lines.
Qed.

(** C10. A call of [save_to_json] with no record still opens and closes the
    file: in mode ['w'] the file exists afterwards and is empty; in mode
    ['a'] an absent file exists afterwards and is empty, and an existing
    file keeps its text; no other file changes. So a task that fetches a
    thread without image posts and meets no fault leaves an empty image
    file for that thread. *)
Theorem empty_sequence_still_opens_the_file
    (filename : string) (append : bool) (log_to : option Logger) (w : World) :
  (exists w',
      save_to_json [] filename append log_to NoFault w = (Ok tt, w') /\
      trace w' = trace w ++ [EvOpen filename (if append then ModeA else ModeW);
                             EvClose filename] /\
      files w' !! filename
        = Some (if append then default "" (files w !! filename) else "") /\
      forall p, p <> filename -> files w' !! p = files w !! p) /\
  (forall (self : FourChanFetcher) (lg : Logger) (thread_no thread_data : value)
          (data : list value),
      logger self = Some lg ->
      thread_starter_data thread_data = Ok data ->
      images_info self thread_data = Ok [] ->
      exists w',
        fetch_and_save_thread self thread_no
          (mkTaskEnv (Ok thread_data) NoFault NoFault) w = (Ok tt, w') /\
        In (EvOpen (image_filename self thread_no) ModeW) (trace w') /\
        files w' !! image_filename self thread_no = Some "" /\
        lines "" = []).
Proof.
  split.
  - eexists. split; [apply save_to_json_ok|]. split; [|split].
    + rewrite saved_trace. reflexivity.
    + rewrite (saved_files [] filename append). cbn [json_lines map str_concat].
      rewrite app_empty_r. reflexivity.
    + intros p Hp. apply saved_files_other. exact Hp.
  - intros self lg thread_no thread_data data Hlg Hsd Him.
    eexists. split;
      [apply (fetch_and_save_thread_ok self lg _ _ _ _ _ Hlg Hsd Him)|].
    split; [|split; [|reflexivity]].
    + rewrite add_log_trace, saved_eq, saved_trace.
      apply in_or_app. right. left. reflexivity.
    + rewrite add_log_files, saved_at. reflexivity.
Qed.

(** ** Comprehensions *)

Section Comprehensions.

Context {A B : Type}.

Lemma rmap_ok (f : A -> result B) (g : A -> B) (l : list A) :
  Forall (fun x => f x = Ok (g x)) l -> rmap f l = Ok (map g l).
Proof.
  induction 1 as [|x l Hx Hl IH]; [reflexivity|].
  simpl. rewrite Hx. simpl. rewrite IH. reflexivity.
Qed.

Lemma rmap_inv (f : A -> result B) (l : list A) (out : list B) :
  rmap f l = Ok out -> Forall2 (fun x y => f x = Ok y) l out.
Proof.
  revert out. induction l as [|x l IH]; intros out H; simpl in H.
  - inversion H. constructor.
  - destruct (f x) as [y|e] eqn:Hx; simpl in H; [|discriminate H].
    destruct (rmap f l) as [ys|e]; simpl in H; [|discriminate H].
    inversion H. constructor; [exact Hx|]. apply IH. reflexivity.
Qed.

Lemma comprehension_ok (p : A -> result bool) (pb : A -> bool)
    (f : A -> result B) (g : A -> B) (l : list A) :
  Forall (fun x => p x = Ok (pb x)) l ->
  Forall (fun x => pb x = true -> f x = Ok (g x)) l ->
  comprehension p f l = Ok (map g (List.filter pb l)).
Proof.
  intros Hp. induction Hp as [|x l Hx Hl IH]; intros Hf; [reflexivity|].
  inversion Hf as [|? ? Hfx Hfl]; subst.
  simpl. rewrite Hx. simpl. destruct (pb x) eqn:E.
  - rewrite (Hfx eq_refl). simpl. rewrite (IH Hfl). reflexivity.
  - apply IH. exact Hfl.
Qed.

Lemma comprehension_inv (p : A -> result bool) (f : A -> result B)
    (l : list A) (out : list B) :
  comprehension p f l = Ok out ->
  Forall2 (fun x y => f x = Ok y)
    (List.filter (fun x => match p x with Ok b => b | Raise _ => false end) l)
    out.
Proof.
  revert out. induction l as [|x l IH]; intros out H; simpl in H.
  - inversion H. constructor.
  - simpl. destruct (p x) as [[]|e]; simpl in H; [| |discriminate H].
    + destruct (f x) as [y|e] eqn:Hx; simpl in H; [|discriminate H].
      destruct (comprehension p f l) as [ys|e]; simpl in H; [|discriminate H].
      inversion H. constructor; [exact Hx|]. apply IH. reflexivity.
    + apply IH. exact H.
Qed.

Lemma filter_length_all (pb : A -> bool) (l : list A) :
  (length (List.filter pb l) <= length l)%nat /\
  (length (List.filter pb l) = length l <-> Forall (fun x => pb x = true) l).
Proof.
  induction l as [|x l [IHle IHeq]]; simpl.
  - split; [lia|]. split; [constructor|reflexivity].
  - destruct (pb x) eqn:E; simpl.
    + split; [lia|]. split.
      * intros H. constructor; [exact E|]. apply IHeq. lia.
      * intros H. inversion H; subst. f_equal. apply IHeq. assumption.
    + split; [lia|]. split.
      * intros H. lia.
      * intros H. inversion H; subst. congruence.
Qed.

End Comprehensions.

(** ** The two extractions *)

Section Extraction.

Variable self : FourChanFetcher.

Lemma py_contains_dict k d :
  py_contains k (VDict d) = Ok (carries k (VDict d)).
Proof. reflexivity. Qed.

Lemma carries_dict k d :
  carries k (VDict d) = true -> exists v, dict_lookup k d = Some v.
Proof.
  unfold carries. simpl. destruct (dict_lookup k d) as [v|]; [eauto|discriminate].
Qed.

Lemma is_image_post_carries post :
  match is_image_post post with Ok b => b | Raise _ => false end
  = carries "tim" post && carries "ext" post.
Proof.
  unfold is_image_post, carries.
  destruct (py_contains "tim" post) as [[]|e]; reflexivity.
Qed.

Lemma thread_starter_entry_dict d no :
  dict_lookup "no" d = Some no ->
  thread_starter_entry (VDict d)
  = Ok (VDict [("no", no);
               ("now", value_of (py_get (VDict d) "now" (VStr "")));
               ("name", value_of (py_get (VDict d) "name" (VStr "")));
               ("sub", value_of (py_get (VDict d) "sub" (VStr "")));
               ("time", value_of (py_get (VDict d) "time" (VInt 0)));
               ("semantic_url", value_of (py_get (VDict d) "semantic_url" (VStr "")));
               ("replies", value_of (py_get (VDict d) "replies" (VInt 0)));
               ("images", value_of (py_get (VDict d) "images" (VInt 0)))]).
Proof. intros H. unfold thread_starter_entry. simpl. rewrite H. reflexivity. Qed.

Lemma image_entry_dict d no tim ext :
  dict_lookup "no" d = Some no ->
  dict_lookup "tim" d = Some tim ->
  dict_lookup "ext" d = Some ext ->
  image_entry self (VDict d)
  = Ok (VDict [("no", no);
               ("now", value_of (py_get (VDict d) "now" (VStr "")));
               ("name", value_of (py_get (VDict d) "name" (VStr "")));
               ("com", value_of (py_get (VDict d) "com" (VStr "")));
               ("filename", value_of (py_get (VDict d) "filename" (VStr "")));
               ("ext", value_of (py_get (VDict d) "ext" (VStr "")));
               ("w", value_of (py_get (VDict d) "w" (VInt 0)));
               ("h", value_of (py_get (VDict d) "h" (VInt 0)));
               ("time", value_of (py_get (VDict d) "time" (VInt 0)));
               ("md5", value_of (py_get (VDict d) "md5" (VStr "")));
               ("fsize", value_of (py_get (VDict d) "fsize" (VInt 0)));
               ("resto", value_of (py_get (VDict d) "resto" (VInt 0)));
               ("url", VStr (IMAGE_URL +:+ "/" +:+ board self +:+ "/"
                               +:+ py_str tim +:+ py_str ext))]).
Proof.
  intros Hno Htim Hext. unfold image_entry. simpl.
  rewrite Hno, Htim, Hext. reflexivity.
Qed.

(** An entry was built only from a dict that has the fields read by index. *)
Lemma image_entry_inv post entry :
  image_entry self post = Ok entry ->
  exists d no tim ext,
    post = VDict d /\ dict_lookup "no" d = Some no /\
    dict_lookup "tim" d = Some tim /\ dict_lookup "ext" d = Some ext.
Proof.
  intros H. destruct post as [ | b | n | s | l | d];
    try (unfold image_entry in H; simpl in H; discriminate H).
  unfold image_entry in H. simpl in H.
  destruct (dict_lookup "no" d) as [no|] eqn:Hno; [|discriminate H].
  destruct (dict_lookup "tim" d) as [tim|] eqn:Htim; [|discriminate H].
  destruct (dict_lookup "ext" d) as [ext|] eqn:Hext; [|discriminate H].
  exists d, no, tim, ext. repeat split; reflexivity || assumption.
Qed.

Lemma Forall2_map_of {X Y} (R : X -> Y -> Prop) (g : X -> Y) (l : list X) :
  Forall (fun x => R x (g x)) l -> Forall2 R l (map g l).
Proof. induction 1; constructor; assumption. Qed.

End Extraction.

(** ** Claims on the extractions *)

(** C3, as the code has it. When the posts of the thread can be iterated
    and are all JSON objects, and every post with a subject field, or with
    both [tim] and [ext], also has the field [no] that the code reads by
    index, both extractions return: every optional field of an entry is the
    field of the post, or the empty string or zero when the post lacks it;
    and the thread-starter output is never longer than the list of posts,
    and as long exactly when every post has a subject field. *)
Theorem extraction_returns_on_numbered_posts
    (self : FourChanFetcher) (thread_data : value) (posts : list value) :
  posts_of thread_data = Ok posts ->
  Forall (fun post => is_dict post = true) posts ->
  Forall (fun post =>
            carries "sub" post || carries "tim" post && carries "ext" post = true ->
            carries "no" post = true) posts ->
  let starter_defaults :=
    [("now", VStr ""); ("name", VStr ""); ("sub", VStr ""); ("time", VInt 0);
     ("semantic_url", VStr ""); ("replies", VInt 0); ("images", VInt 0)] in
  let image_defaults :=
    [("now", VStr ""); ("name", VStr ""); ("com", VStr "");
     ("filename", VStr ""); ("ext", VStr ""); ("w", VInt 0); ("h", VInt 0);
     ("time", VInt 0); ("md5", VStr ""); ("fsize", VInt 0); ("resto", VInt 0)] in
  let filled defaults post entry :=
    Forall (fun kd => py_getitem entry (fst kd) = py_get post (fst kd) (snd kd))
      defaults in
  exists starters images,
    thread_starter_data thread_data = Ok starters /\
    images_info self thread_data = Ok images /\
    Forall2 (filled starter_defaults)
      (List.filter (carries "sub") posts) starters /\
    Forall2 (filled image_defaults)
      (List.filter (fun post => carries "tim" post && carries "ext" post) posts)
      images /\
    (length starters <= length posts)%nat /\
    (length starters = length posts
     <-> Forall (fun post => carries "sub" post = true) posts).
Proof.
  intros Hposts Hdict Hno starter_defaults image_defaults filled.
  rewrite List.Forall_forall in Hdict, Hno.
  exists (map (fun post => value_of (thread_starter_entry post))
            (List.filter (carries "sub") posts)),
         (map (fun post => value_of (image_entry self post))
            (List.filter (fun post => carries "tim" post && carries "ext" post)
               posts)).
  assert (Hstarter : forall post,
             In post (List.filter (carries "sub") posts) ->
             thread_starter_entry post = Ok (value_of (thread_starter_entry post))
             /\ filled starter_defaults post (value_of (thread_starter_entry post))).
  { intros post Hin. apply filter_In in Hin as [Hin Hsub].
    specialize (Hdict post Hin). specialize (Hno post Hin).
    destruct post as [ | | | | | d]; try discriminate Hdict.
    rewrite Hsub in Hno. destruct (carries_dict "no" d (Hno eq_refl)) as [no Hn].
    rewrite (thread_starter_entry_dict d no Hn). split; [reflexivity|].
    unfold filled, starter_defaults. repeat constructor. }
  assert (Himage : forall post,
             In post (List.filter
                        (fun post => carries "tim" post && carries "ext" post) posts) ->
             image_entry self post = Ok (value_of (image_entry self post))
             /\ filled image_defaults post (value_of (image_entry self post))).
  { intros post Hin. apply filter_In in Hin as [Hin Hboth].
    specialize (Hdict post Hin). specialize (Hno post Hin).
    destruct post as [ | | | | | d]; try discriminate Hdict.
    rewrite Hboth, orb_true_r in Hno.
    destruct (carries_dict "no" d (Hno eq_refl)) as [no Hn].
    apply andb_prop in Hboth as [Htim Hext].
    destruct (carries_dict "tim" d Htim) as [tim Ht].
    destruct (carries_dict "ext" d Hext) as [ext He].
    rewrite (image_entry_dict self d no tim ext Hn Ht He). split; [reflexivity|].
    unfold filled, image_defaults. repeat constructor. }
  assert (Hsel : forall k, Forall (fun x => py_contains k x = Ok (carries k x)) posts).
  { intros k. apply List.Forall_forall. intros post Hin. specialize (Hdict post Hin).
    destruct post; try discriminate Hdict. reflexivity. }
  split; [|split; [|split; [|split]]].
  - unfold thread_starter_data, thread_starter_posts. rewrite Hposts. simpl.
    rewrite (comprehension_ok (py_contains "sub") (carries "sub") Ok id);
      [|apply Hsel|apply List.Forall_forall; reflexivity].
    simpl. rewrite map_id. apply rmap_ok.
    apply List.Forall_forall. intros post Hin. apply Hstarter. exact Hin.
  - unfold images_info. rewrite Hposts. simpl.
    apply (comprehension_ok is_image_post
             (fun post => carries "tim" post && carries "ext" post)).
    + apply List.Forall_forall. intros post Hin. specialize (Hdict post Hin).
      destruct post as [ | | | | | d]; try discriminate Hdict.
      unfold is_image_post. rewrite !py_contains_dict. simpl.
      destruct (carries "tim" (VDict d)); reflexivity.
    + apply List.Forall_forall. intros post Hin Hboth. apply Himage.
      apply filter_In. split; assumption.
  - apply Forall2_map_of. apply List.Forall_forall. intros post Hin.
    apply Hstarter. exact Hin.
  - apply Forall2_map_of. apply List.Forall_forall. intros post Hin.
    apply Himage. exact Hin.
  - rewrite length_map. apply filter_length_all.
Qed.

(** C4. Whenever the image-post extraction returns, its entries are, in
    order, those of the posts that have both [tim] and [ext], one entry per
    such post and none for any other post; and the [url] of each entry is
    the image base, a slash, the board, a slash, and the text of the post's
    [tim] followed by the text of its [ext]. *)
Theorem image_posts_are_selected_and_have_url
    (self : FourChanFetcher) (thread_data : value) (info : list value) :
  images_info self thread_data = Ok info ->
  exists posts,
    posts_of thread_data = Ok posts /\
    Forall2
      (fun post entry =>
         exists tim ext,
           py_getitem post "tim" = Ok tim /\
           py_getitem post "ext" = Ok ext /\
           py_getitem entry "no" = py_getitem post "no" /\
           py_getitem entry "url"
           = Ok (VStr (IMAGE_URL +:+ "/" +:+ board self +:+ "/"
                         +:+ py_str tim +:+ py_str ext)))
      (List.filter (fun post => carries "tim" post && carries "ext" post) posts)
      info.
Proof.
  intros H. unfold images_info in H.
  destruct (posts_of thread_data) as [posts|e]; [|discriminate H].
  simpl in H. exists posts. split; [reflexivity|].
  apply comprehension_inv in H.
  rewrite (filter_ext _ _ (is_image_post_carries)) in H.
  eapply Forall2_impl; [exact H|].
  intros post entry Hentry. cbv beta in Hentry.
  destruct (image_entry_inv self post entry Hentry)
    as (d & no & tim & ext & -> & Hno & Htim & Hext).
  rewrite (image_entry_dict self d no tim ext Hno Htim Hext) in Hentry.
  inversion Hentry; subst entry.
  exists tim, ext. simpl. rewrite Hno, Htim, Hext. repeat split; reflexivity.
Qed.

(** ** Claim on the construction of a fetcher *)

Lemma validate_board_name_spec (board : string) :
  (In board valid_boards -> validate_board_name board = Ok tt) /\
  (~ In board valid_boards ->
   validate_board_name board
   = Raise (Exn ValueError
              ("The board '" +:+ board +:+ "' is not a valid 4chan board."))).
Proof.
  unfold validate_board_name.
  destruct (existsb (String.eqb board) valid_boards) eqn:E; simpl.
  - apply existsb_exists in E as (b & Hin & Heq).
    apply String.eqb_eq in Heq. subst b.
    split; [reflexivity|]. intros Hn. contradiction.
  - split; [|reflexivity]. intros Hin.
    assert (existsb (String.eqb board) valid_boards = true) as E'.
    { apply existsb_exists. exists board. split; [exact Hin|apply String.eqb_refl]. }
    congruence.
Qed.

(** ** Making the directories *)

Section Directories.

Lemma split_at_last_slash_app (p : string) :
  fst (split_at_last_slash p) +:+ snd (split_at_last_slash p) = p.
Proof.
  induction p as [|c p IH]; [reflexivity|].
  cbn [split_at_last_slash]. destruct (str_mem "/" p).
  - destruct (split_at_last_slash p) as [h t]. cbn [fst snd] in *.
    rewrite app_cons, IH. reflexivity.
  - destruct (Ascii.eqb c "/") eqn:E; [|reflexivity].
    apply Ascii.eqb_eq in E. subst c. reflexivity.
Qed.

Lemma rstrip_slashes_prefix (s : string) : exists r, s = rstrip_slashes s +:+ r.
Proof.
  induction s as [|c s [r IH]]; [exists ""; reflexivity|].
  cbn [rstrip_slashes]. destruct (all_slashes (String c s)).
  - exists (String c s). reflexivity.
  - exists r. rewrite app_cons, <- IH. reflexivity.
Qed.

(** The two parts [posixpath.split] gives are the beginning and the end of
    the path. *)
Lemma path_split_parts (p h t : string) :
  path_split p = (h, t) -> exists r, p = h +:+ r +:+ t.
Proof.
  unfold path_split. pose proof (split_at_last_slash_app p) as Happ.
  destruct (split_at_last_slash p) as [h0 t0]. cbn [fst snd] in Happ.
  intros H. inversion H; subst t. clear H.
  destruct (negb (String.eqb h0 "") && negb (all_slashes h0)).
  - destruct (rstrip_slashes_prefix h0) as [r Hr]. exists r.
    rewrite <- app_assoc_str, <- Hr. symmetry. exact Happ.
  - exists "". rewrite app_empty_l. symmetry. exact Happ.
Qed.

(** The path the recursion of [os.makedirs] goes up to is a beginning of
    the path it comes from, and it is shorter by the last component at
    least. *)
Lemma makedirs_head (name h t h' t' : string) :
  path_split name = (h, t) ->
  (if String.eqb t "" then path_split h else (h, t)) = (h', t') ->
  exists r, name = h' +:+ r /\ (String.length t' <= String.length r)%nat.
Proof.
  intros E1 E2. destruct (path_split_parts _ _ _ E1) as [r1 Hr1].
  destruct (String.eqb t "") eqn:Et.
  - apply String.eqb_eq in Et. subst t.
    destruct (path_split_parts _ _ _ E2) as [r2 Hr2].
    exists (r2 +:+ t' +:+ r1). split.
    + rewrite Hr1, app_empty_r. rewrite Hr2 at 1.
      rewrite !app_assoc_str. reflexivity.
    + rewrite !str_length_app. lia.
  - inversion E2; subst h' t'. exists (r1 +:+ t). split; [exact Hr1|].
    rewrite str_length_app. lia.
Qed.

Lemma string_length_zero (s : string) : String.length s = 0%nat -> s = "".
Proof. destruct s; [reflexivity|discriminate]. Qed.

(** The length of the path is fuel enough: more fuel gives the same list. *)
Lemma makedirs_chain_fuel (w : World) (fuel1 fuel2 : nat) (name : string) :
  (String.length name <= fuel1)%nat -> (String.length name <= fuel2)%nat ->
  makedirs_chain fuel1 name w = makedirs_chain fuel2 name w.
Proof.
  revert fuel2 name. induction fuel1 as [|fuel1 IH]; intros fuel2 name H1 H2.
  - assert (name = "") as -> by (apply string_length_zero; lia).
    destruct fuel2; reflexivity.
  - destruct fuel2 as [|fuel2].
    + assert (name = "") as -> by (apply string_length_zero; lia). reflexivity.
    + cbn [makedirs_chain].
      destruct (path_split name) as [h t] eqn:E1.
      destruct (if String.eqb t "" then path_split h else (h, t))
        as [h' t'] eqn:E2.
      destruct (makedirs_head _ _ _ _ _ E1 E2) as (r & Hr & Hlen).
      destruct (String.eqb h' ""); [reflexivity|].
      destruct (String.eqb t' "") eqn:Et'; [reflexivity|].
      cbn [negb andb].
      destruct (path_exists h' w); [reflexivity|]. cbn [negb].
      assert (Hshort : (String.length h' < String.length name)%nat).
      { rewrite Hr, str_length_app.
        destruct t' as [|c t']; [discriminate Et'|]. cbn [String.length] in Hlen.
        lia. }
      rewrite (IH fuel2 h') by lia. reflexivity.
Qed.

(** Every directory of the list is a beginning of the path. *)
Lemma makedirs_chain_prefix (w : World) (fuel : nat) (name q : string) :
  In q (makedirs_chain fuel name w) -> exists rest, name = q +:+ rest.
Proof.
  revert name. induction fuel as [|fuel IH]; intros name Hin.
  - destruct Hin as [<-|[]]. exists "". symmetry. apply app_empty_r.
  - cbn [makedirs_chain] in Hin.
    destruct (path_split name) as [h t] eqn:E1.
    destruct (if String.eqb t "" then path_split h else (h, t))
      as [h' t'] eqn:E2.
    destruct (makedirs_head _ _ _ _ _ E1 E2) as (r & Hr & _).
    assert (Hup : In q (makedirs_chain fuel h' w) -> exists rest, name = q +:+ rest).
    { intros H. destruct (IH _ H) as [rest Hrest]. exists (rest +:+ r).
      rewrite Hr. rewrite Hrest at 1. apply app_assoc_str. }
    assert (Hself : In q [name] -> exists rest, name = q +:+ rest).
    { intros [<-|[]]. exists "". symmetry. apply app_empty_r. }
    destruct (negb (String.eqb h' "") && negb (String.eqb t' "")
              && negb (path_exists h' w)); [|exact (Hself Hin)].
    destruct (String.eqb t' "."); [exact (Hup Hin)|].
    apply in_app_or in Hin as [Hin|Hin]; [exact (Hup Hin)|exact (Hself Hin)].
Qed.



Lemma is_dir_mono (p : string) (w w' : World) :
  (forall q, q ∈ dirs w -> q ∈ dirs w') ->
  is_dir p w = true -> is_dir p w' = true.
Proof.
  unfold is_dir. intros Hsub H. apply orb_true_iff in H as [H|H].
  - rewrite H. reflexivity.
  - apply bool_decide_eq_true in H. apply orb_true_iff. right.
    apply bool_decide_eq_true. apply Hsub, H.
Qed.

Lemma mkdir_run (p : string) (err : option exn) (w : World) r w' :
  mkdir p err w = (r, w') ->
  files w' = files w /\ log w' = log w /\ trace w' = trace w /\
  (forall q, q ∈ dirs w -> q ∈ dirs w') /\
  (forall q, q ∈ dirs w' -> q ∈ dirs w \/ q = p) /\
  match r with
  | Ok _ => is_dir p w' = true
  | Raise e => err = Some e /\ w' = w
  end.
Proof.
  unfold mkdir. destruct (is_dir p w) eqn:E.
  - intros H. inversion H; subst. repeat split; auto.
  - destruct err as [e|]; intros H; inversion H; subst.
    + repeat split; auto.
    + cbn [add_dir files log trace dirs].
      split; [reflexivity|]. split; [reflexivity|]. split; [reflexivity|].
      split; [intros q Hq; apply elem_of_union; right; exact Hq|].
      split.
      { intros q Hq. apply elem_of_union in Hq as [Hq|Hq]; [right|left; exact Hq].
        apply elem_of_singleton in Hq. exact Hq. }
      unfold is_dir. apply orb_true_iff. right.
      apply bool_decide_eq_true. cbn [dirs].
      apply elem_of_union. left. apply elem_of_singleton. reflexivity.
Qed.

Lemma mkdirs_run (ps : list string) (i : nat) (err : option (nat * exn))
    (w : World) r w' :
  mkdirs ps i err w = (r, w') ->
  files w' = files w /\ log w' = log w /\ trace w' = trace w /\
  (forall q, q ∈ dirs w -> q ∈ dirs w') /\
  (forall q, q ∈ dirs w' -> q ∈ dirs w \/ In q ps) /\
  match r with
  | Ok _ => Forall (fun p => is_dir p w' = true) ps
  | Raise e => exists k, err = Some (k, e)
  end /\
  (err = None -> r = Ok tt).
Proof.
  revert i w. induction ps as [|p ps IH]; intros i w H.
  - inversion H; subst. repeat split; auto.
  - cbn [mkdirs] in H. unfold bind in H.
    destruct (mkdir p (mkdir_error err i) w) as [r1 w1] eqn:E1.
    destruct (mkdir_run _ _ _ _ _ E1) as (Hf1 & Hl1 & Ht1 & Hsub1 & Hnew1 & Hr1).
    destruct r1 as [[]|e1].
    + destruct (IH _ _ H) as (Hf & Hl & Ht & Hsub & Hnew & Hr & Hnone).
      split; [congruence|]. split; [congruence|]. split; [congruence|].
      split; [intros q Hq; apply Hsub, Hsub1, Hq|].
      split.
      { intros q Hq. destruct (Hnew q Hq) as [Hq1|Hq1].
        - destruct (Hnew1 q Hq1) as [Hq0| ->]; [left; exact Hq0|right; left; reflexivity].
        - right. right. exact Hq1. }
      split; [|exact Hnone].
      destruct r as [u|e0]; [|exact Hr].
      constructor; [|exact Hr]. apply (is_dir_mono p w1 w' Hsub Hr1).
    + inversion H; subst r w'. destruct Hr1 as [Herr ->].
      split; [reflexivity|]. split; [reflexivity|]. split; [reflexivity|].
      split; [auto|]. split; [auto|]. split.
      * unfold mkdir_error in Herr. destruct err as [[k e0]|]; [|discriminate Herr].
        destruct (Nat.eqb i k); [|discriminate Herr].
        inversion Herr; subst. eauto.
      * intros ->. discriminate Herr.
Qed.

(** [os.makedirs] changes nothing but the directories: those there were
    stay, and those it makes are beginnings of its path; when it returns
    the directories of its list exist; it raises only what a [mkdir]
    raised, and then what it had made before stays. *)
Lemma makedirs_run (path : string) (err : option (nat * exn)) (w : World) r w' :
  makedirs path err w = (r, w') ->
  files w' = files w /\ log w' = log w /\
  (forall q, q ∈ dirs w -> q ∈ dirs w') /\
  (forall q, q ∈ dirs w' -> q ∈ dirs w \/ exists rest, path = q +:+ rest) /\
  match r with
  | Ok _ =>
      trace w' = trace w ++ [EvMakedirs path] /\
      Forall (fun p => is_dir p w' = true)
        (makedirs_chain (String.length path) path w)
  | Raise e => trace w' = trace w /\ exists k, err = Some (k, e)
  end /\
  (err = None -> r = Ok tt).
Proof.
  unfold makedirs.
  destruct (mkdirs (makedirs_chain (String.length path) path w) 0 err w)
    as [r1 w1] eqn:E.
  destruct (mkdirs_run _ _ _ _ _ _ E) as (Hf & Hl & Ht & Hsub & Hnew & Hr & Hnone).
  assert (Hpre : forall q, q ∈ dirs w1 ->
                   q ∈ dirs w \/ exists rest, path = q +:+ rest).
  { intros q Hq. destruct (Hnew q Hq) as [H|H]; [left; exact H|right].
    eapply makedirs_chain_prefix. exact H. }
  destruct r1 as [[]|e1]; intros H; inversion H; subst r w'.
  - cbn [add_event files log dirs trace]. rewrite Ht.
    repeat split; auto.
  - repeat split; auto.
Qed.

(** The construction of a fetcher. *)
Lemma init_run (b dir : string) (client : option Session) (lg : option Logger)
    (mk : option (nat * exn)) (w : World) r w' :
  __init__ b dir client lg mk w = (r, w') ->
  let images := path_join (path_join dir b) "images" in
  files w' = files w /\ log w' = log w /\
  (forall q, q ∈ dirs w -> q ∈ dirs w') /\
  (forall q, q ∈ dirs w' -> q ∈ dirs w \/ exists rest, images = q +:+ rest) /\
  match r with
  | Ok self =>
      In b valid_boards /\
      self = mkFetcher b dir (default mkSession client) lg (path_join dir b)
               [("User-Agent", "fetch_4chan/1.0")] /\
      trace w' = trace w ++ [EvMakedirs images] /\
      Forall (fun p => is_dir p w' = true)
        (makedirs_chain (String.length images) images w)
  | Raise e =>
      trace w' = trace w /\
      (In b valid_boards -> exists k, mk = Some (k, e)) /\
      (~ In b valid_boards -> w' = w)
  end /\
  (In b valid_boards -> mk = None -> is_ok r = true).
Proof.
  intros H images. unfold __init__, bind, lift, create_directories, bind, ret in H.
  destruct (validate_board_name_spec b) as [Hin Hout].
  destruct (in_dec String.string_dec b valid_boards) as [Hb|Hb].
  - rewrite (Hin Hb) in H. fold images in H.
    destruct (makedirs images mk w) as [r1 w1] eqn:E.
    destruct (makedirs_run _ _ _ _ _ E) as (Hf & Hl & Hsub & Hnew & Hr & Hnone).
    destruct r1 as [[]|e1]; inversion H; subst r w'.
    + destruct Hr as [Ht Hdirs]. repeat split; auto.
    + destruct Hr as [Ht Hk]. repeat split; auto.
      * intros Hnb. contradiction.
      * intros _ Hn. discriminate (Hnone Hn).
  - rewrite (Hout Hb) in H. inversion H; subst r w'.
    repeat split; auto; try (intros; contradiction).
Qed.

End Directories.

(** C5. [validate_board_name] returns without effect exactly on the boards
    of the allow-list, and on any other board raises [ValueError] with a
    message that quotes the board. [__init__] validates first: for a board
    outside the list it raises that error and leaves the world as it was,
    so nothing was requested and no directory made; and for no board does
    the construction issue a request. *)
Theorem board_is_validated_before_any_io
    (board output_dir : string) (session : option Session)
    (log_to : option Logger) (mk_err : option (nat * exn)) (w : World) :
  let invalid := Exn ValueError
                   ("The board '" +:+ board +:+ "' is not a valid 4chan board.") in
  (validate_board_name board = Ok tt <-> In board valid_boards) /\
  (~ In board valid_boards ->
   validate_board_name board = Raise invalid /\
   __init__ board output_dir session log_to mk_err w = (Raise invalid, w)) /\
  (exists r w' evs,
      __init__ board output_dir session log_to mk_err w = (r, w') /\
      trace w' = trace w ++ evs /\
      Forall (fun ev => forall url, ev <> EvGet url) evs).
Proof.
  intros invalid.
  destruct (validate_board_name_spec board) as [Hin Hout].
  split; [|split].
  - split; [|exact Hin]. intros Hok.
    destruct (in_dec String.string_dec board valid_boards) as [H|H]; [exact H|].
    rewrite (Hout H) in Hok. discriminate Hok.
  - intros Hn. split; [exact (Hout Hn)|].
    unfold __init__, bind, lift. rewrite (Hout Hn). reflexivity.
  - destruct (__init__ board output_dir session log_to mk_err w) as [r w'] eqn:E.
    destruct (init_run _ _ _ _ _ _ _ _ E) as (_ & _ & _ & _ & Hr & _).
    destruct r as [self|e].
    + destruct Hr as (_ & _ & Ht & _).
      eexists _, _, [_]. split; [reflexivity|]. split; [exact Ht|].
      constructor; [|constructor]. intros url. discriminate.
    + destruct Hr as (Ht & _).
      eexists _, _, []. split; [reflexivity|]. split; [|constructor].
      rewrite app_nil_r. exact Ht.
Qed.

(** ** Executions of [fetch_top_threads] *)

Section Run.

Variable self : FourChanFetcher.
Variables threads offset : Z.

Local Abbreviation step := (step self threads offset).
Local Abbreviation exec := (exec self threads offset).

Lemma exec_nil_inv s s' : exec s [] s' -> s' = s.
Proof.
  intros H. remember [] as tr0 eqn:Htr. destruct H as [|s tr s1 l s2 _ _];
    [reflexivity|]. destruct tr; discriminate Htr.
Qed.

Lemma exec_one s l s' : step s l s' -> exec s [l] s'.
Proof. intros H. apply (exec_snoc _ _ _ s [] s l s'); [constructor|exact H]. Qed.

Lemma exec_app s tr1 s1 tr2 s2 :
  exec s tr1 s1 -> exec s1 tr2 s2 -> exec s (tr1 ++ tr2) s2.
Proof.
  intros H1 H2. induction H2 as [|s1 tr2 s2 l s3 H2 IH Hstep].
  - rewrite app_nil_r. exact H1.
  - rewrite app_assoc. eapply exec_snoc; [apply IH; exact H1|exact Hstep].
Qed.

Lemma started_tasks_app tr1 tr2 :
  started_tasks (tr1 ++ tr2) = started_tasks tr1 ++ started_tasks tr2.
Proof.
  induction tr1 as [|[] tr1 IH]; simpl; rewrite ?IH; reflexivity.
Qed.

Lemma finished_tasks_app tr1 tr2 :
  finished_tasks (tr1 ++ tr2) = finished_tasks tr1 ++ finished_tasks tr2.
Proof.
  induction tr1 as [|[] tr1 IH]; simpl; rewrite ?IH; reflexivity.
Qed.

(** The selection is logged through [self.logger], so its success tells
    that there is a logger. *)
Lemma select_ok_logger resp w selected w' :
  select self resp threads offset w = (Ok selected, w') ->
  exists lg, logger self = Some lg.
Proof.
  unfold select, bind, lift, logger_info, log_call. intros H.
  destruct (fetch_catalog self resp w) as [[catalog|e] w1]; [|discriminate H].
  destruct (selected_threads catalog threads offset) as [sel|e]; [|discriminate H].
  destruct (logger self) as [lg|]; [eauto|discriminate H].
Qed.

Lemma outer_handler_raises e w :
  exists e' w', outer_handler self e w = (Raise e', w').
Proof.
  unfold outer_handler, bind, logger_error, log_call.
  destruct (logger self); simpl; eauto.
Qed.

Lemma observe_ok t w : observe self t (Ok tt) w = (Ok tt, w).
Proof. reflexivity. Qed.

(** The invariant of the executions. *)
Lemma run_inv_holds w0 tr s :
  exec (Idle, w0) tr s -> run_inv self threads offset w0 tr s.
Proof.
  remember (Idle, w0) as s0 eqn:Hs0.
  induction 1 as [s|s tr s' l s'' Hexec IH Hstep]; subst.
  - split; reflexivity.
  - specialize (IH eq_refl).
    destruct Hstep as
      [ resp w selected w' Hsel
      | resp w e w' e' w'' Hsel Hout
      | exc t q r fin w Hlen
      | exc t env q r1 r2 fin w res w' Hrun
      | t res q r fin1 fin2 w w' Hobs
      | t res q r fin1 fin2 w e w' Hobs
      | w
      | e fin w e' w' Hout ]; unfold run_inv in IH |- *; cbn [fst snd] in *.
    + destruct IH as [-> ->]. exists resp, selected, w', [].
      cbn [queue running finished started_tasks finished_tasks length].
      rewrite app_nil_r. repeat split; auto; [unfold max_workers|]; lia.
    + destruct IH as [-> ->]. exists resp, e, w'. repeat split; assumption.
    + destruct IH as (resp & sel & w1 & tr' & -> & Hsel & -> & Hq & Hr & Hfin & Hmax & Hcnt).
      cbn [queue running finished] in *.
      exists resp, sel, w1, (tr' ++ [LStart t]).
      rewrite started_tasks_app, finished_tasks_app. cbn [started_tasks finished_tasks].
      rewrite app_nil_r.
      repeat split; auto.
      * rewrite Hq. rewrite (Permutation_app_comm (started_tasks tr') [t]).
        cbn [app]. apply Permutation_middle.
      * rewrite Hr. rewrite <- !app_assoc.
        apply Permutation_app_head. apply Permutation_app_comm.
      * rewrite length_app. cbn [length]. lia.
      * rewrite !length_app in *. cbn [length] in *. lia.
    + destruct IH as (resp & sel & w1 & tr' & -> & Hsel & -> & Hq & Hr & Hfin & Hmax & Hcnt).
      cbn [queue running finished] in *.
      exists resp, sel, w1, (tr' ++ [LFinish t env]).
      rewrite started_tasks_app, finished_tasks_app. cbn [started_tasks finished_tasks].
      rewrite app_nil_r.
      repeat split; auto.
      * rewrite Hr. rewrite <- !app_assoc. apply Permutation_app_head.
        cbn [app]. rewrite (Permutation_app_comm (finished_tasks tr') [t]).
        cbn [app]. apply Permutation_middle.
      * apply Forall_app. split; [exact Hfin|]. constructor; [|constructor].
        cbn [snd]. destruct (select_ok_logger _ _ _ _ Hsel) as [lg Hlg].
        destruct (fetch_and_save_thread_never_raises self lg t env w Hlg)
          as (w2 & Hok & _).
        rewrite Hok in Hrun. inversion Hrun. reflexivity.
      * rewrite length_app in *. cbn [length] in *. lia.
      * rewrite !length_app in *. cbn [length] in *. lia.
    + destruct IH as (resp & sel & w1 & tr' & -> & Hsel & _ & Hq & Hr & Hfin & Hmax & Hcnt).
      cbn [queue running finished] in *.
      exists resp, sel, w1, (tr' ++ [LYield t]).
      rewrite started_tasks_app, finished_tasks_app. cbn [started_tasks finished_tasks].
      rewrite !app_nil_r.
      repeat split; auto.
      * apply Forall_app in Hfin as [H1 H2]. inversion H2; subst.
        apply Forall_app. split; assumption.
      * rewrite !length_app in *. cbn [length] in *. lia.
    + destruct IH as (resp & sel & w1 & tr' & -> & Hsel & _ & Hq & Hr & Hfin & Hmax & Hcnt).
      cbn [finished] in Hfin.
      apply Forall_app in Hfin as [_ H2]. inversion H2 as [|? ? Hres]; subst.
      cbn [snd] in Hres. subst res. rewrite observe_ok in Hobs. discriminate Hobs.
    + destruct IH as (resp & sel & w1 & tr' & -> & Hsel & _ & Hq & Hr & Hfin & Hmax & Hcnt).
      cbn [queue running finished] in *.
      exists resp, sel, w1, (tr' ++ [LExit]).
      rewrite started_tasks_app, finished_tasks_app. cbn [started_tasks finished_tasks].
      rewrite !app_nil_r. cbn [app] in Hq, Hr.
      repeat split; auto.
      rewrite length_app. cbn [length] in *. lia.
    + destruct IH as (resp & sel & w1 & tr' & -> & Hsel & Hexc & _).
      discriminate Hexc.
Qed.

End Run.

(** ** Completing a run *)

Section Progress.

Variable self : FourChanFetcher.
Variables threads offset : Z.
Variable lg : Logger.
Hypothesis Hlg : logger self = Some lg.

(** What the outside does to each task. *)
Variable env : value -> task_env.

Local Abbreviation step := (step self threads offset).
Local Abbreviation exec := (exec self threads offset).

Lemma drain_finished fin q r w :
  Forall (fun x => snd x = Ok tt) fin ->
  exists tr,
    exec (Fetching None (mkPool q r fin), w) tr
         (Fetching None (mkPool q r []), w) /\
    finishes_under env tr.
Proof.
  induction 1 as [|[t res] fin Hres Hfin (tr & IH & Henv)].
  - exists []. split; constructor.
  - cbn [snd] in Hres. subst res. exists (LYield t :: tr). split.
    + eapply (exec_app self threads offset _ [LYield t] _ tr _); [|exact IH].
      apply exec_one.
      apply (step_yield self threads offset t (Ok tt) q r [] fin w w).
      reflexivity.
    + constructor; [exact I|exact Henv].
Qed.

Lemma drain_running r q w :
  exists tr w',
    exec (Fetching None (mkPool q r []), w) tr
         (Fetching None (mkPool q [] []), w') /\
    finishes_under env tr.
Proof.
  revert w. induction r as [|t r IH]; intros w.
  - exists [], w. split; constructor.
  - destruct (fetch_and_save_thread_never_raises self lg t (env t) w Hlg)
      as (w2 & Hok & _).
    destruct (IH w2) as (tr & w' & Hexec & Henv).
    exists (LFinish t (env t) :: LYield t :: tr), w'.
    split; [|constructor; [reflexivity|constructor; [exact I|exact Henv]]].
    eapply (exec_app self threads offset _ [LFinish t (env t)] _ (LYield t :: tr) _).
    { apply exec_one.
      apply (step_finish self threads offset None t (env t) q [] r [] w (Ok tt) w2 Hok). }
    eapply (exec_app self threads offset _ [LYield t] _ tr _); [|exact Hexec].
    apply exec_one.
    apply (step_yield self threads offset t (Ok tt) q r [] [] w2 w2).
    reflexivity.
Qed.

Lemma drain_queue q w :
  exists tr w',
    exec (Fetching None (mkPool q [] []), w) tr
         (Fetching None (mkPool [] [] []), w') /\
    finishes_under env tr.
Proof.
  revert w. induction q as [|t q IH]; intros w.
  - exists [], w. split; constructor.
  - destruct (fetch_and_save_thread_never_raises self lg t (env t) w Hlg)
      as (w2 & Hok & _).
    destruct (IH w2) as (tr & w' & Hexec & Henv).
    exists (LStart t :: LFinish t (env t) :: LYield t :: tr), w'.
    split;
      [|constructor; [exact I|constructor; [reflexivity|constructor;
                                              [exact I|exact Henv]]]].
    eapply (exec_app self threads offset _ [LStart t] _ (_ :: _ :: tr) _).
    { apply exec_one.
      apply (step_start self threads offset None t q [] [] w).
      unfold max_workers. simpl. lia. }
    eapply (exec_app self threads offset _ [LFinish t (env t)] _ (LYield t :: tr) _).
    { apply exec_one.
      apply (step_finish self threads offset None t (env t) q [] [] [] w (Ok tt) w2 Hok). }
    eapply (exec_app self threads offset _ [LYield t] _ tr _); [|exact Hexec].
    apply exec_one.
    apply (step_yield self threads offset t (Ok tt) q [] [] [] w2 w2).
    reflexivity.
Qed.

(** From any pool whose ended tasks all returned, the run can be completed,
    whatever the outside does to the tasks that have not ended. *)
Lemma run_to_done p w :
  Forall (fun x => snd x = Ok tt) (finished p) ->
  exists tr w',
    exec (Fetching None p, w) tr (Done, w') /\ finishes_under env tr.
Proof.
  destruct p as [q r fin]. cbn [finished]. intros Hfin.
  destruct (drain_finished fin q r w Hfin) as (tr1 & H1 & He1).
  destruct (drain_running r q w) as (tr2 & w2 & H2 & He2).
  destruct (drain_queue q w2) as (tr3 & w3 & H3 & He3).
  exists (tr1 ++ tr2 ++ tr3 ++ [LExit]), w3. split.
  - eapply exec_app; [exact H1|]. eapply exec_app; [exact H2|].
    eapply exec_app; [exact H3|]. apply exec_one. constructor.
  - unfold finishes_under in *. rewrite !Forall_app.
    repeat split; try assumption. constructor; [exact I|constructor].
Qed.

End Progress.

(** ** Claims on the run *)

Section RunClaims.

Variable self : FourChanFetcher.
Variables threads offset : Z.

Local Abbreviation step := (step self threads offset).
Local Abbreviation exec := (exec self threads offset).

Lemma exec_one_inv s l s' : exec s [l] s' -> step s l s'.
Proof.
  intros H. remember [l] as tr0 eqn:Htr.
  destruct H as [|s tr s1 l' s2 Hexec Hstep]; [discriminate Htr|].
  destruct tr as [|l0 tr].
  - simpl in Htr. inversion Htr; subst.
    apply exec_nil_inv in Hexec. subst. exact Hstep.
  - simpl in Htr. inversion Htr as [[H1 H2]]. destruct tr; discriminate H2.
Qed.

Lemma fetch_catalog_ok catalog w :
  fetch_catalog self (Ok catalog) w
  = (Ok catalog,
     add_event (EvGet (BASE_URL +:+ "/" +:+ board self +:+ "/catalog.json")) w).
Proof. reflexivity. Qed.

Lemma fetch_catalog_raises e w :
  exists e' w', fetch_catalog self (Raise e) w = (Raise e', w').
Proof.
  unfold fetch_catalog, try_except, get_json, bind, logger_error, log_call.
  destruct (exn_cls e), (logger self); simpl; eauto.
Qed.

Lemma select_raise_iff resp w :
  (exists e w', select self resp threads offset w = (Raise e, w'))
  <-> head_fails self resp threads offset.
Proof.
  unfold select, bind, lift, head_fails. destruct resp as [catalog|e0].
  - rewrite fetch_catalog_ok.
    destruct (selected_threads catalog threads offset) as [sel|e1]; simpl.
    + unfold logger_info, log_call. destruct (logger self) as [lg|]; simpl.
      * split; [intros (e & w' & H); discriminate H|].
        intros [H|H]; discriminate H.
      * split; [auto|]. intros _. eauto.
    + split; [auto|]. intros _. eauto.
  - destruct (fetch_catalog_raises e0 w) as (e' & w' & ->).
    split; [auto|]. intros _. eauto.
Qed.

(** C2. The run raises exactly when its sequential head fails, that is
    when the catalog fetch fails or the selection or its log raises: from
    every world a head that fails has a step, and this step aborts the run
    with an exception; and an aborted run is one whose head failed, after
    that single step. Once tasks are dispatched no exception is pending,
    every task that ended returned normally, every task returns whatever
    fails inside it and logs that failure with the thread number, no
    continuation of the run is aborted, the run can be completed with the
    tasks that have not ended meeting whatever the outside does to them,
    and it has taken at most three steps per selected thread; and when the
    run is done every selected thread had its task ended, after exactly
    three steps per thread. *)
Theorem task_failures_do_not_abort_the_run
    (w0 : World) (tr : list label) (ph : phase) (w : World) :
  exec (Idle, w0) tr (ph, w) ->
  (forall e,
      ph = Aborted e ->
      exists resp e0 w1,
        tr = [LSelect resp] /\ head_fails self resp threads offset /\
        select self resp threads offset w0 = (Raise e0, w1) /\
        outer_handler self e0 w1 = (Raise e, w)) /\
  (forall resp,
      tr = [LSelect resp] -> head_fails self resp threads offset ->
      exists e, ph = Aborted e) /\
  (forall resp v,
      head_fails self resp threads offset <->
      exists e v', exec (Idle, v) [LSelect resp] (Aborted e, v')) /\
  (forall exc p,
      ph = Fetching exc p ->
      exc = None /\
      Forall (fun x => snd x = Ok tt) (finished p) /\
      (forall t env w1,
          exists w2,
            fetch_and_save_thread self t env w1 = (Ok tt, w2) /\
            forall e w',
              task_body self t env w1 = (Raise e, w') ->
              w2 = add_log ERROR
                     ("Failed to process thread " +:+ py_str t +:+ ": "
                        +:+ exn_msg e) w') /\
      (forall tr' ph' w', exec (ph, w) tr' (ph', w') -> forall e, ph' <> Aborted e) /\
      (forall env : value -> task_env,
          exists tr' w',
            exec (ph, w) tr' (Done, w') /\ finishes_under env tr') /\
      (exists resp selected w1 tr',
          tr = LSelect resp :: tr' /\
          select self resp threads offset w0 = (Ok selected, w1) /\
          (length tr' <= 3 * length selected)%nat)) /\
  (ph = Done ->
   exists resp selected w1 tr',
     tr = LSelect resp :: tr' /\
     select self resp threads offset w0 = (Ok selected, w1) /\
     Permutation selected (finished_tasks tr') /\
     (length tr' = 3 * length selected + 1)%nat).
Proof.
  intros Hexec. pose proof (run_inv_holds self threads offset w0 tr _ Hexec) as Hinv.
  unfold run_inv in Hinv. cbn [fst snd] in Hinv.
  split; [|split; [|split; [|split]]].
  - intros e ->. destruct Hinv as (resp & e0 & w1 & -> & Hsel & Hout).
    exists resp, e0, w1. repeat split; try assumption.
    apply (select_raise_iff resp w0). eauto.
  - intros resp -> Hfail.
    apply (select_raise_iff resp w0) in Hfail as (e0 & w1 & Hsel).
    apply exec_one_inv in Hexec.
    inversion Hexec as
      [ ? ? sel w' Hsel' | ? ? e1 w1' e' w'' Hsel' Hout | | | | | | ]; subst.
    + rewrite Hsel in Hsel'. discriminate Hsel'.
    + eauto.
  - intros resp v. split.
    + intros Hfail.
      apply (select_raise_iff resp v) in Hfail as (e0 & v1 & Hsel).
      destruct (outer_handler_raises self e0 v1) as (e & v' & Hout).
      exists e, v'. apply exec_one.
      apply (step_select_raise self threads offset resp v e0 v1 e v' Hsel Hout).
    + intros (e & v' & Habort). apply exec_one_inv in Habort.
      inversion Habort as
        [ | ? ? e1 v1 e' v'' Hsel' Hout | | | | | | ]; subst.
      apply (select_raise_iff resp v). eauto.
  - intros exc p ->.
    destruct Hinv
      as (resp & sel & w1 & tr' & -> & Hsel & -> & Hq & Hr & Hfin & Hmax & Hcnt).
    destruct (select_ok_logger self threads offset _ _ _ _ Hsel) as [lg Hlg].
    split; [reflexivity|]. split; [exact Hfin|]. split; [|split; [|split]].
    + intros t env w2. apply (fetch_and_save_thread_never_raises self lg). exact Hlg.
    + intros tr2 ph' w' Hexec2 e ->.
      pose proof (exec_app self threads offset _ _ _ _ _ Hexec Hexec2) as Hall.
      apply run_inv_holds in Hall. unfold run_inv in Hall. cbn [fst snd] in Hall.
      destruct Hall as (resp' & e0 & w1' & Htr & Hsel' & _).
      simpl in Htr. inversion Htr; subst. rewrite Hsel in Hsel'. discriminate Hsel'.
    + intros env. apply (run_to_done self threads offset lg Hlg env). exact Hfin.
    + exists resp, sel, w1, tr'. split; [reflexivity|]. split; [exact Hsel|]. lia.
  - intros ->. destruct Hinv as (resp & sel & w1 & tr' & -> & Hsel & Hq & Hr & Hcnt).
    exists resp, sel, w1, tr'. repeat split; try assumption.
    rewrite Hq. exact Hr.
Qed.

(** C9. The executor has five workers. In every execution of
    [fetch_top_threads], at every point, the tasks picked up by a worker and
    not yet ended are at most five, and they are the tasks the pool runs;
    and every step that starts or ends a task comes after the step that
    fetched the catalog and selected the threads, which had succeeded. *)
Theorem at_most_five_tasks_in_flight_after_selection
    (w0 : World) (tr : list label) (ph : phase) (w : World) :
  exec (Idle, w0) tr (ph, w) ->
  max_workers = 5%nat /\
  (length (finished_tasks tr) <= length (started_tasks tr))%nat /\
  (length (started_tasks tr) - length (finished_tasks tr) <= 5)%nat /\
  (forall exc p,
      ph = Fetching exc p ->
      (length (running p) <= 5)%nat /\
      length (running p)
      = (length (started_tasks tr) - length (finished_tasks tr))%nat) /\
  (forall pre l post,
      tr = pre ++ l :: post -> is_task_label l = true ->
      exists resp pre' selected w1,
        pre = LSelect resp :: pre' /\
        select self resp threads offset w0 = (Ok selected, w1)).
Proof.
  intros Hexec. pose proof (run_inv_holds self threads offset w0 tr _ Hexec) as Hinv.
  unfold run_inv in Hinv. cbn [fst snd] in Hinv.
  split; [reflexivity|].
  destruct ph as [|exc p| |e].
  - destruct Hinv as [-> _]. simpl.
    split; [lia|]. split; [lia|]. split.
    + intros exc' p' H. discriminate H.
    + intros pre l post H. destruct pre; discriminate H.
  - destruct Hinv as (resp & sel & w1 & tr' & -> & Hsel & -> & Hq & Hr & Hfin & Hmax & _).
    cbn [started_tasks finished_tasks].
    apply Permutation_length in Hr. rewrite length_app in Hr.
    unfold max_workers in Hmax.
    split; [lia|]. split; [lia|]. split.
    + intros exc' p' H. inversion H; subst. lia.
    + intros pre l post H Hl. destruct pre as [|l0 pre].
      * simpl in H. inversion H; subst. discriminate Hl.
      * simpl in H. inversion H; subst.
        do 4 eexists. split; [reflexivity|eassumption].
  - destruct Hinv as (resp & sel & w1 & tr' & -> & Hsel & Hq & Hr & _).
    cbn [started_tasks finished_tasks].
    apply Permutation_length in Hr.
    split; [lia|]. split; [lia|]. split.
    + intros exc' p' H. discriminate H.
    + intros pre l post H Hl. destruct pre as [|l0 pre].
      * simpl in H. inversion H; subst. discriminate Hl.
      * simpl in H. inversion H; subst.
        do 4 eexists. split; [reflexivity|eassumption].
  - destruct Hinv as (resp & e0 & w1 & -> & Hsel & Hout).
    simpl.
    split; [lia|]. split; [lia|]. split.
    + intros exc' p' H. discriminate H.
    + intros pre l post H Hl. destruct pre as [|l0 pre].
      * simpl in H. inversion H; subst. discriminate Hl.
      * simpl in H. inversion H as [[H1 H2]]. destruct pre; discriminate H2.
Qed.

End RunClaims.

(** ** Claim on the selection *)

Section Selection.

Lemma py_slice_window {A} (l : list A) (offset count : Z) :
  0 <= offset -> 0 <= count ->
  py_slice l offset (offset + count)
  = firstn (Z.to_nat count) (skipn (Z.to_nat offset) l).
Proof.
  intros Ho Hc. unfold py_slice, slice_index.
  destruct (offset <? 0) eqn:E1; [apply Z.ltb_lt in E1; lia|].
  destruct (offset + count <? 0) eqn:E2; [apply Z.ltb_lt in E2; lia|].
  set (len := Z.of_nat (length l)).
  destruct (Z_le_gt_dec len offset) as [Hge|Hlt].
  - rewrite (Z.min_r offset len) by lia.
    rewrite !skipn_all2 by (unfold len in *; lia).
    rewrite !firstn_nil. reflexivity.
  - rewrite (Z.min_l offset len) by lia.
    destruct (Z_le_gt_dec (offset + count) len) as [Hin|Hout].
    + rewrite Z.min_l by lia. f_equal. lia.
    + rewrite Z.min_r by lia.
      rewrite !firstn_all2; [reflexivity| |];
        rewrite length_skipn; unfold len in *; lia.
Qed.

Lemma window_length {A} (l : list A) (offset count : Z) :
  0 <= offset -> 0 <= count ->
  Z.of_nat (length (firstn (Z.to_nat count) (skipn (Z.to_nat offset) l)))
  = Z.max 0 (Z.min count (Z.of_nat (length l) - offset)).
Proof.
  intros Ho Hc. rewrite length_firstn, length_skipn. lia.
Qed.

Variable self : FourChanFetcher.
Variables threads offset : Z.

Local Abbreviation step := (step self threads offset).
Local Abbreviation exec := (exec self threads offset).

(** With nothing selected the run has one way to go: leave the pool. *)
Lemma empty_selection_runs resp w0 w1 :
  select self resp threads offset w0 = (Ok [], w1) ->
  forall trf s, exec (Idle, w0) trf s ->
  forall tr, trf = LSelect resp :: tr ->
    (s = (Fetching None (mkPool [] [] []), w1) /\ tr = [])
    \/ (s = (Done, w1) /\ tr = [LExit]).
Proof.
  intros Hsel trf s Hexec.
  remember (Idle, w0) as s0 eqn:Hs0.
  induction Hexec as [s|s tr0 s' l s'' Hexec IH Hstep]; intros tr Htr; subst.
  - discriminate Htr.
  - destruct tr0 as [|l0 tr0].
    + simpl in Htr. inversion Htr; subst.
      apply exec_nil_inv in Hexec. subst s'.
      inversion Hstep as
        [ ? ? sel w' Hsel' | ? ? e1 w1' e' w'' Hsel' Hout | | | | | | ]; subst.
      * rewrite Hsel in Hsel'. inversion Hsel'; subst. left. split; reflexivity.
      * rewrite Hsel in Hsel'. discriminate Hsel'.
    + simpl in Htr. inversion Htr; subst.
      destruct (IH eq_refl tr0 eq_refl) as [[-> ->]|[-> ->]].
      * inversion Hstep as
          [ | | | ? ? ? ? r1 r2 ? ? ? ? ? Hr
            | ? ? ? ? f1 f2 ? ? ? Hf | ? ? ? ? f1 f2 ? ? ? ? Hf | | ]; subst.
        -- destruct r1; discriminate.
        -- destruct f1; discriminate.
        -- destruct f1; discriminate.
        -- right. split; reflexivity.
      * inversion Hstep.
Qed.

End Selection.

(** C1, as the code has it. With a logger, a catalog whose flattened
    sequence [all] has [T] thread summaries that each hold a number, and a
    count and an offset that are not negative, [fetch_top_threads] selects
    [max 0 (min count (T - offset))] threads, whose numbers are those of the
    summaries at the positions from [offset] up to [offset + count] of
    [all], in that order; and when [offset >= T] nothing is selected, only
    the catalog was requested, no file changed, no task is ever started and
    the run ends without error. *)
Theorem fetch_top_threads_selects_window
    (self : FourChanFetcher) (lg : Logger) (catalog : value) (all : list value)
    (count offset : Z) (w0 : World) :
  logger self = Some lg ->
  all_threads catalog = Ok all ->
  Forall (fun thread => is_ok (py_getitem thread "no") = true) all ->
  0 <= count -> 0 <= offset ->
  let T := Z.of_nat (length all) in
  let window := firstn (Z.to_nat count) (skipn (Z.to_nat offset) all) in
  let url := BASE_URL +:+ "/" +:+ board self +:+ "/catalog.json" in
  exists selected,
    selected_threads catalog count offset = Ok selected /\
    Z.of_nat (length selected) = Z.max 0 (Z.min count (T - offset)) /\
    Forall2 (fun thread no => py_getitem thread "no" = Ok no) window selected /\
    (T <= offset ->
     selected = [] /\
     exists w1,
       select self (Ok catalog) count offset w0 = (Ok [], w1) /\
       files w1 = files w0 /\
       trace w1 = trace w0 ++ [EvGet url] /\
       fetch_top_threads self count offset w0 (Ok tt) w1 /\
       forall tr ph w,
         exec self count offset (Idle, w0) (LSelect (Ok catalog) :: tr) (ph, w) ->
         w = w1 /\ started_tasks tr = [] /\ forall e, ph <> Aborted e).
Proof.
  intros Hlg Hall Hno Hc Ho T window url.
  set (no_of := fun thread => value_of (py_getitem thread "no")).
  assert (Hwin : Forall (fun thread => py_getitem thread "no" = Ok (no_of thread))
                   window).
  { unfold window. apply Forall_take, Forall_drop.
    eapply Forall_impl; [exact Hno|]. intros thread. unfold no_of.
    destruct (py_getitem thread "no"); [reflexivity|discriminate]. }
  assert (Hsel : selected_threads catalog count offset = Ok (map no_of window)).
  { unfold selected_threads. rewrite Hall. simpl.
    rewrite py_slice_window by assumption. apply rmap_ok. exact Hwin. }
  exists (map no_of window). split; [exact Hsel|]. split; [|split].
  - rewrite length_map. apply window_length; assumption.
  - apply Forall2_map_of. exact Hwin.
  - intros HT.
    assert (Hnil : window = []).
    { unfold window. rewrite skipn_all2 by (unfold T in HT; lia).
      apply firstn_nil. }
    rewrite Hnil in *. cbn [map] in *. split; [reflexivity|].
    set (w1 := add_log INFO ("Selected threads: " +:+ py_str (VList []))
                 (add_event (EvGet url) w0)).
    assert (Hselect : select self (Ok catalog) count offset w0 = (Ok [], w1)).
    { unfold select, bind, lift. rewrite fetch_catalog_ok, Hsel.
      unfold logger_info, log_call. rewrite Hlg. reflexivity. }
    exists w1. split; [exact Hselect|]. split; [reflexivity|].
    split; [reflexivity|]. split.
    + exists [LSelect (Ok catalog); LExit].
      eapply (exec_app self count offset _ [LSelect (Ok catalog)] _ [LExit] _).
      * apply exec_one. apply step_select. exact Hselect.
      * apply exec_one. apply step_exit.
    + intros tr ph w Hexec.
      destruct (empty_selection_runs self count offset _ _ _ Hselect _ _ Hexec
                  tr eq_refl) as [[Hs ->]|[Hs ->]];
        inversion Hs; subst; (split; [reflexivity|]); (split; [reflexivity|]);
        intros e H; discriminate H.
Qed.

(** ** The claims on concrete inputs *)

(** A negative offset counts from the end of the catalog: of three threads,
    [count = 5] and [offset = -1] select the last one alone, where the
    formula of the claim gives four. *)
Lemma negative_offset_selects_from_the_end :
  all_threads sample_catalog
    = Ok [VDict [("no", VInt 111)]; VDict [("no", VInt 222)];
          VDict [("no", VInt 333)]] /\
  selected_threads sample_catalog 5 (-1) = Ok [VInt 333] /\
  Z.of_nat (length [VInt 333]) <> Z.max 0 (Z.min 5 (3 - (-1))).
Proof. split; [reflexivity|]. split; [reflexivity|]. discriminate. Qed.

Lemma fetch_top_threads_selects_window_witness :
  exists selected,
    selected_threads sample_catalog 2 0 = Ok selected /\
    Z.of_nat (length selected) = Z.max 0 (Z.min 2 (3 - 0)) /\
    Forall2 (fun thread no => py_getitem thread "no" = Ok no)
      [VDict [("no", VInt 111)]; VDict [("no", VInt 222)]] selected.
Proof.
  destruct (fetch_top_threads_selects_window sample_fetcher
              (mkLogger "fetch_4chan") sample_catalog
              [VDict [("no", VInt 111)]; VDict [("no", VInt 222)];
               VDict [("no", VInt 333)]] 2 0 empty_world)
    as (selected & Hsel & Hlen & Hnos & _).
  - reflexivity.
  - reflexivity.
  - repeat constructor.
  - lia.
  - lia.
  - exists selected. split; [exact Hsel|]. split; [exact Hlen|exact Hnos].
Defined.

(** A post with a subject and no number makes the thread-starter extraction
    raise, and so does a post with [tim] and [ext] and no number for the
    image extraction. *)
Lemma extraction_raises_without_number :
  thread_starter_data (VDict [("posts", VList [VDict [("sub", VStr "hello")]])])
    = Raise (Exn KeyError "'no'") /\
  images_info sample_fetcher
    (VDict [("posts", VList [VDict [("tim", VInt 1); ("ext", VStr ".jpg")]])])
    = Raise (Exn KeyError "'no'").
Proof. split; reflexivity. Qed.

Lemma extraction_returns_on_numbered_posts_witness :
  exists starters images,
    thread_starter_data sample_thread = Ok starters /\
    images_info sample_fetcher sample_thread = Ok images /\
    (length starters <= 2)%nat.
Proof.
  destruct (extraction_returns_on_numbered_posts sample_fetcher sample_thread
              [VDict [("no", VInt 111); ("sub", VStr "hello");
                      ("tim", VInt 1700000000123); ("ext", VStr ".jpg")];
               VDict [("no", VInt 112); ("com", VStr "reply")]])
    as (starters & images & Hs & Hi & _ & _ & Hlen & _).
  - reflexivity.
  - repeat constructor.
  - repeat constructor.
  - exists starters, images. split; [exact Hs|]. split; [exact Hi|exact Hlen].
Defined.

Lemma image_posts_are_selected_and_have_url_witness :
  let info :=
    [VDict [("no", VInt 111); ("now", VStr ""); ("name", VStr "");
            ("com", VStr ""); ("filename", VStr ""); ("ext", VStr ".jpg");
            ("w", VInt 0); ("h", VInt 0); ("time", VInt 0); ("md5", VStr "");
            ("fsize", VInt 0); ("resto", VInt 0);
            ("url", VStr "https://i.4cdn.org/g/1700000000123.jpg")]] in
  images_info sample_fetcher sample_thread = Ok info /\
  exists posts,
    posts_of sample_thread = Ok posts /\
    Forall2
      (fun post entry =>
         exists tim ext,
           py_getitem post "tim" = Ok tim /\
           py_getitem post "ext" = Ok ext /\
           py_getitem entry "no" = py_getitem post "no" /\
           py_getitem entry "url"
           = Ok (VStr (IMAGE_URL +:+ "/" +:+ board sample_fetcher +:+ "/"
                         +:+ py_str tim +:+ py_str ext)))
      (List.filter (fun post => carries "tim" post && carries "ext" post) posts)
      info.
Proof.
  intros info. split; [reflexivity|].
  apply (image_posts_are_selected_and_have_url sample_fetcher sample_thread info).
  reflexivity.
Defined.

Lemma board_is_validated_before_any_io_witness :
  let invalid := Exn ValueError "The board 'x' is not a valid 4chan board." in
  validate_board_name "x" = Raise invalid /\
  __init__ "x" "." None None None empty_world = (Raise invalid, empty_world).
Proof.
  apply (proj1 (proj2 (board_is_validated_before_any_io "x" "." None None None
                         empty_world))).
  unfold valid_boards. intros H.
  repeat (destruct H as [H|H]; [discriminate H|]). exact H.
Defined.

Lemma refetch_overwrites_images_and_appends_starters_witness :
  exists w1 w2,
    fetch_and_save_thread sample_fetcher (VInt 111)
      (mkTaskEnv (Ok sample_thread) NoFault NoFault) empty_world = (Ok tt, w1) /\
    fetch_and_save_thread sample_fetcher (VInt 111)
      (mkTaskEnv (Ok sample_text_thread) NoFault NoFault) w1 = (Ok tt, w2) /\
    files w2 !! image_filename sample_fetcher (VInt 111) = Some "" /\
    lines (default "" (files w2 !! thread_list_filename sample_fetcher))
    = map json_dumps
        [VDict [("no", VInt 111); ("now", VStr ""); ("name", VStr "");
                ("sub", VStr "hello"); ("time", VInt 0);
                ("semantic_url", VStr ""); ("replies", VInt 0);
                ("images", VInt 0)];
         VDict [("no", VInt 111); ("now", VStr ""); ("name", VStr "");
                ("sub", VStr "hello"); ("time", VInt 0);
                ("semantic_url", VStr ""); ("replies", VInt 0);
                ("images", VInt 0)]].
Proof.
  destruct (refetch_overwrites_images_and_appends_starters sample_fetcher
              (mkLogger "fetch_4chan") (VInt 111) sample_thread sample_text_thread
              (value_of_list (thread_starter_data sample_thread))
              (value_of_list (thread_starter_data sample_text_thread))
              (value_of_list (images_info sample_fetcher sample_thread))
              [] empty_world)
    as (w1 & w2 & H1 & H2 & _ & _ & Himg & _ & _ & Hlist & Hlines).
  - reflexivity.
  - reflexivity.
  - reflexivity.
  - reflexivity.
  - reflexivity.
  - exists w1, w2. split; [exact H1|]. split; [exact H2|]. split; [exact Himg|].
    rewrite Hlist. exact Hlines.
Defined.

(** A run that selects thread 111, starts its task, and sees the request
    of the task fail. *)
Lemma sample_execution :
  exec sample_fetcher 1 0 (Idle, empty_world)
    [LSelect (Ok sample_catalog); LStart (VInt 111); LFinish (VInt 111) failing_env]
    (Fetching None (mkPool [] [] [(VInt 111, Ok tt)]), sample_failed).
Proof.
  apply (exec_snoc sample_fetcher 1 0 _
           [LSelect (Ok sample_catalog); LStart (VInt 111)]
           (Fetching None (mkPool [] [VInt 111] []), sample_selected)).
  - apply (exec_snoc sample_fetcher 1 0 _ [LSelect (Ok sample_catalog)]
             (Fetching None (mkPool [VInt 111] [] []), sample_selected)).
    + apply (exec_snoc sample_fetcher 1 0 _ [] (Idle, empty_world)).
      * apply exec_nil.
      * apply step_select. reflexivity.
    + apply (step_start sample_fetcher 1 0 None (VInt 111) [] [] []).
      unfold max_workers. simpl. lia.
  - apply (step_finish sample_fetcher 1 0 None (VInt 111) failing_env [] [] [] []
             sample_selected (Ok tt) sample_failed).
    reflexivity.
Defined.

Lemma task_failures_do_not_abort_the_run_witness :
  log sample_failed
  = [(INFO, "Selected threads: [111]");
     (ERROR, "Error fetching thread 111: Connection refused");
     (ERROR, "Failed to process thread 111: Connection refused")] /\
  (exists tr' w',
      exec sample_fetcher 1 0
        (Fetching None (mkPool [] [] [(VInt 111, Ok tt)]), sample_failed) tr'
        (Done, w') /\
      finishes_under (fun _ => failing_env) tr') /\
  exists e v',
    exec sample_fetcher 1 0 (Idle, empty_world)
      [LSelect (Raise (Exn ConnectionError "Connection refused"))]
      (Aborted e, v').
Proof.
  split; [reflexivity|].
  destruct (task_failures_do_not_abort_the_run sample_fetcher 1 0 empty_world _ _ _
              sample_execution) as (_ & _ & Habort & Hpool & _).
  split.
  - destruct (Hpool None _ eq_refl) as (_ & _ & _ & _ & Hdone & _).
    exact (Hdone (fun _ => failing_env)).
  - apply (proj1 (Habort (Raise (Exn ConnectionError "Connection refused"))
                    empty_world)).
    exact I.
Defined.

Lemma at_most_five_tasks_in_flight_after_selection_witness :
  (length (started_tasks
             [LSelect (Ok sample_catalog); LStart (VInt 111);
              LFinish (VInt 111) failing_env])
   - length (finished_tasks
               [LSelect (Ok sample_catalog); LStart (VInt 111);
                LFinish (VInt 111) failing_env]) <= 5)%nat /\
  exists resp pre' selected w1,
    [LSelect (Ok sample_catalog)] = LSelect resp :: pre' /\
    select sample_fetcher resp 1 0 empty_world = (Ok selected, w1).
Proof.
  destruct (at_most_five_tasks_in_flight_after_selection sample_fetcher 1 0
              empty_world _ _ _ sample_execution) as (_ & _ & Hflight & _ & Horder).
  split; [exact Hflight|].
  apply (Horder [LSelect (Ok sample_catalog)] (LStart (VInt 111))
           [LFinish (VInt 111) failing_env]); reflexivity.
Defined.

(** Without a logger a failed write is raised to the caller and nothing is
    logged: the device takes nothing, the buffer of 4096 characters is
    flushed at the close, and the error of that flush is raised. *)
Lemma write_failure_without_logger_is_not_logged :
  exists w',
    save_to_json [VDict [("no", VInt 111)]] "./g/thread_list.json" true None
      (FlushFails 4096 0 (Exn OSError "[Errno 28] No space left on device"))
      empty_world
    = (Raise (Exn OSError "[Errno 28] No space left on device"), w') /\
    log w' = [].
Proof. eexists. split; reflexivity. Qed.

(** Two records of ten characters each on a device that takes fifteen: both
    writes return, the flush at the close fails, and the file holds the
    line of the first record and the first five characters of the line of
    the second. *)
Lemma save_to_json_write_failure_witness :
  exists w',
    save_to_json sample_records "out.json" false (Some (mkLogger "fetch_4chan"))
      (FlushFails 4096 15 no_space) empty_world
    = (Raise no_space, w') /\
    files w' !! "out.json"
    = Some (json_dumps (VDict [("no", VInt 1)]) +:+ newline
              +:+ str_take 5 (json_dumps (VDict [("no", VInt 2)]))) /\
    trace w'
    = [EvOpen "out.json" ModeW] ++ map (EvWrite "out.json") (json_lines sample_records)
        ++ [EvClose "out.json"] /\
    log w'
    = [(INFO, "Saving data to out.json");
       (ERROR, "Error saving data to out.json: [Errno 28] No space left on device")].
Proof.
  destruct (save_to_json_write_failure sample_records "out.json" false
              (Some (mkLogger "fetch_4chan")) 4096 15 no_space empty_world)
    as (w' & n & j & entry & torn & rest & Hrun & Hf & _ & _ & _ & _ & _ & _ & _ & Hl).
  - vm_compute. lia.
  - exists w'. split; [exact Hrun|]. split; [exact Hf|]. split; [|exact Hl].
    assert (Hw : w' = snd (save_to_json sample_records "out.json" false
                             (Some (mkLogger "fetch_4chan"))
                             (FlushFails 4096 15 no_space) empty_world)).
    { rewrite Hrun. reflexivity. }
    rewrite Hw. reflexivity.
Defined.

Lemma empty_sequence_still_opens_the_file_witness :
  exists w',
    fetch_and_save_thread sample_fetcher (VInt 111)
      (mkTaskEnv (Ok sample_text_thread) NoFault NoFault) empty_world
    = (Ok tt, w') /\
    files w' !! image_filename sample_fetcher (VInt 111) = Some "".
Proof.
  destruct (proj2 (empty_sequence_still_opens_the_file "" true None empty_world)
              sample_fetcher (mkLogger "fetch_4chan") (VInt 111)
              sample_text_thread
              (value_of_list (thread_starter_data sample_text_thread)))
    as (w' & Hrun & _ & Hfile & _).
  - reflexivity.
  - reflexivity.
  - reflexivity.
  - exists w'. split; [exact Hrun|exact Hfile].
Defined.

(** * Further properties of the code *)

(** ** Relations kept by every run of a computation *)

Section Respects.

Variable R : World -> World -> Prop.
Hypothesis R_refl : forall w, R w w.
Hypothesis R_trans : forall w1 w2 w3, R w1 w2 -> R w2 w3 -> R w1 w3.

Lemma respects_ret {A} (a : A) : respects R (ret a).
Proof. intros w r w' H. inversion H. apply R_refl. Qed.

Lemma respects_raise {A} (e : exn) : respects R (@raise A e).
Proof. intros w r w' H. inversion H. apply R_refl. Qed.

Lemma respects_lift {A} (x : result A) : respects R (lift x).
Proof. intros w r w' H. inversion H. apply R_refl. Qed.

Lemma respects_bind {A B} (m : M A) (k : A -> M B) :
  respects R m -> (forall a, respects R (k a)) -> respects R (bind m k).
Proof.
  intros Hm Hk w r w' H. unfold bind in H.
  destruct (m w) as [[a|e] w1] eqn:E.
  - eapply R_trans; [eapply Hm; exact E|eapply Hk; exact H].
  - inversion H; subst. eapply Hm. exact E.
Qed.

Lemma respects_try_except {A} (m : M A) (h : exn -> M A) :
  respects R m -> (forall e, respects R (h e)) -> respects R (try_except m h).
Proof.
  intros Hm Hh w r w' H. unfold try_except in H.
  destruct (m w) as [[a|e] w1] eqn:E.
  - inversion H; subst. eapply Hm. exact E.
  - eapply R_trans; [eapply Hm; exact E|eapply Hh; exact H].
Qed.

Lemma respects_finally {A} (m : M A) (fin : M unit) :
  respects R m -> respects R fin -> respects R (finally m fin).
Proof.
  intros Hm Hf w r w' H. unfold finally in H.
  destruct (m w) as [r1 w1] eqn:E. destruct (fin w1) as [[u|e] w2] eqn:E2;
    inversion H; subst; (eapply R_trans; [eapply Hm; exact E|eapply Hf; exact E2]).
Qed.

(** A relation that does not look at the log is kept by the logger. *)
Hypothesis R_log : forall lv msg w, R w (add_log lv msg w).

Lemma respects_log_call lg meth lv msg : respects R (log_call lg meth lv msg).
Proof.
  intros w r w' H. unfold log_call, emit, raise in H.
  destruct lg; inversion H; subst; [apply R_log|apply R_refl].
Qed.

Lemma respects_log_if lg lv msg : respects R (log_if lg lv msg).
Proof.
  intros w r w' H. unfold log_if, emit, ret in H.
  destruct lg; inversion H; subst; [apply R_log|apply R_refl].
Qed.

End Respects.

(** ** What file writes may change *)

Section WritesOnly.

Lemma requests_of_app tr1 tr2 :
  requests_of (tr1 ++ tr2) = requests_of tr1 ++ requests_of tr2.
Proof.
  induction tr1 as [|[] tr1 IH]; simpl; rewrite ?IH; reflexivity.
Qed.

Lemma open_handles_app tr1 tr2 :
  open_handles (tr1 ++ tr2) = open_handles tr1 + open_handles tr2.
Proof.
  induction tr1 as [|[] tr1 IH]; simpl; rewrite ?IH; lia.
Qed.

Lemma requests_of_writes f ls : requests_of (map (EvWrite f) ls) = [].
Proof. induction ls; simpl; auto. Qed.

Lemma open_handles_writes f ls : open_handles (map (EvWrite f) ls) = 0.
Proof. induction ls; simpl; auto. Qed.

Lemma extends_refl o : extends o o.
Proof. intros a H. exists "". rewrite app_empty_r. exact H. Qed.

Lemma extends_trans o1 o2 o3 : extends o1 o2 -> extends o2 o3 -> extends o1 o3.
Proof.
  intros H12 H23 a Ha. destruct (H12 a Ha) as [s Hs].
  destruct (H23 _ Hs) as [s' Hs']. exists (s +:+ s').
  rewrite Hs', app_assoc_str. reflexivity.
Qed.

Variable P : string -> Prop.
Variable grow : string.

Lemma writes_only_refl w : writes_only P grow w w.
Proof. repeat split; auto. apply extends_refl. Qed.

Lemma writes_only_trans w1 w2 w3 :
  writes_only P grow w1 w2 -> writes_only P grow w2 w3 -> writes_only P grow w1 w3.
Proof.
  intros (Hd & Hf & He & Hr & Hh) (Hd' & Hf' & He' & Hr' & Hh').
  repeat split; try congruence.
  - intros p Hp. rewrite Hf', Hf by exact Hp. reflexivity.
  - eapply extends_trans; eassumption.
Qed.

Lemma writes_only_log lv msg w : writes_only P grow w (add_log lv msg w).
Proof. repeat split; auto. apply extends_refl. Qed.

(** What one call of [save_to_json] may do, from what it leaves: the file
    [f] with [text] after what it had at the open, the other files as they
    were, and a trace of one open, writes, and one close. *)
Lemma writes_only_file f (append : bool) text ls w w' :
  P f -> (append = true \/ f <> grow) ->
  files w' !! f
  = Some ((if append then default "" (files w !! f) else "") +:+ text) ->
  (forall p, p <> f -> files w' !! p = files w !! p) ->
  dirs w' = dirs w ->
  trace w' = trace w ++ [EvOpen f (if append then ModeA else ModeW)]
               ++ map (EvWrite f) ls ++ [EvClose f] ->
  writes_only P grow w w'.
Proof.
  intros HP Hmode Hf Hother Hd Ht. split; [exact Hd|]. split; [|split; [|split]].
  - intros p Hp. apply Hother. congruence.
  - destruct (String.string_dec f grow) as [->|Hne].
    + destruct Hmode as [->|Hm]; [|contradiction].
      intros a Ha. exists text. rewrite Hf, Ha. reflexivity.
    + rewrite Hother by congruence. apply extends_refl.
  - rewrite Ht, !requests_of_app, requests_of_writes. simpl.
    rewrite !app_nil_r. reflexivity.
  - rewrite Ht, !open_handles_app, open_handles_writes. simpl. lia.
Qed.

Lemma writes_only_logged lg lv msg w w' :
  writes_only P grow w w' -> writes_only P grow w (logged lg lv msg w').
Proof.
  intros H. eapply writes_only_trans; [exact H|].
  destruct lg; [apply writes_only_log|apply writes_only_refl].
Qed.

(** [save_to_json] under any fault. *)
Lemma save_to_json_writes_only data f (append : bool) lg flt :
  P f -> (append = true \/ f <> grow) ->
  respects (writes_only P grow) (save_to_json data f append lg flt).
Proof.
  intros HP Hmode w r w' H.
  destruct flt as [|e|buf limit e].
  - rewrite save_to_json_ok in H. inversion H; subst.
    apply (writes_only_file f append (str_concat (json_lines data))
             (json_lines data)); try assumption.
    + apply saved_files.
    + intros p Hp. apply saved_files_other. exact Hp.
    + rewrite closed_dirs, written_dirs, opened_dirs. apply logged_dirs.
    + apply saved_trace.
  - rewrite save_to_json_open_fails in H. inversion H; subst.
    apply writes_only_logged.
    destruct lg; [apply writes_only_log|apply writes_only_refl].
  - destruct (save_to_json_flush_run f data append lg buf limit e w)
      as (w2 & n & Hrun & Hf & Hother & Hd & Ht & _).
    rewrite Hrun in H. inversion H; subst w2.
    eapply (writes_only_file f append); eassumption.
Qed.

End WritesOnly.

(** ** The two requests *)

Section Requests.

Variable self : FourChanFetcher.

Local Ltac solve_get_with entries :=
  eexists _, _, entries;
  repeat match goal with
         | |- _ /\ _ => split
         | |- _ -> _ => intro
         end;
  try reflexivity; try congruence;
  try (simpl in *; congruence);
  try (simpl; lia);
  try (simpl; symmetry; apply app_nil_r);
  try (repeat constructor).

Local Ltac solve_get :=
  first [ solve [solve_get_with (@nil (level * string))]
        | match goal with
          | |- context [add_log ERROR ?msg _] =>
              solve [solve_get_with [(ERROR, msg)]]
          end ].

Lemma fetch_catalog_effects resp w :
  exists r w' entries,
    fetch_catalog self resp w = (r, w') /\
    files w' = files w /\ dirs w' = dirs w /\
    trace w' = trace w ++ [EvGet (catalog_url self)] /\
    (logger self <> None -> r = resp) /\
    (is_ok resp = true -> r = resp /\ entries = []) /\
    log w' = log w ++ entries /\
    (length entries <= 1)%nat /\
    Forall (fun x => fst x = ERROR) entries.
Proof.
  unfold fetch_catalog, try_except, get_json, bind, logger_error, log_call, raise, emit.
  destruct resp as [a|[cls msg]]; [|destruct cls]; destruct (logger self);
    cbn [exn_cls exn_msg]; solve_get.
Qed.

Lemma fetch_thread_effects thread_no resp w :
  exists r w' entries,
    fetch_thread self thread_no resp w = (r, w') /\
    files w' = files w /\ dirs w' = dirs w /\
    trace w' = trace w ++ [EvGet (thread_url self thread_no)] /\
    (logger self <> None -> r = resp) /\
    (is_ok resp = true -> r = resp /\ entries = []) /\
    log w' = log w ++ entries /\
    (length entries <= 1)%nat /\
    Forall (fun x => fst x = ERROR) entries.
Proof.
  unfold fetch_thread, try_except, get_json, bind, logger_error, log_call, raise, emit.
  destruct resp as [a|[cls msg]]; [|destruct cls]; destruct (logger self);
    cbn [exn_cls exn_msg]; solve_get.
Qed.

End Requests.

(** ** What one task may change *)

Section TaskEffects.

Variable self : FourChanFetcher.
Variable thread_no : value.

Let own (p : string) : Prop :=
  p = thread_list_filename self \/ p = image_filename self thread_no.

Lemma try_bind_effects {A} (m : M A) (k : A -> M unit) (h : exn -> M unit)
    (Q R : World -> World -> Prop) :
  (forall w, R w w) -> (forall w1 w2 w3, R w1 w2 -> R w2 w3 -> R w1 w3) ->
  (forall w r w1, m w = (r, w1) -> Q w w1) ->
  (forall a, respects R (k a)) -> (forall e, respects R (h e)) ->
  forall w r w', try_except (bind m k) h w = (r, w') ->
  exists w1, Q w w1 /\ R w1 w'.
Proof.
  intros Hrefl Htrans Hm Hk Hh w r w' H. unfold try_except, bind in H.
  destruct (m w) as [[a|e] w1] eqn:E.
  - exists w1. split; [eapply Hm; exact E|].
    destruct (k a w1) as [[u|e] w2] eqn:E2.
    + inversion H; subst. eapply Hk. exact E2.
    + eapply Htrans; [eapply Hk; exact E2|eapply Hh; exact H].
  - exists w1. split; [eapply Hm; exact E|]. eapply Hh. exact H.
Qed.

Lemma save_thread_starter_writes_only thread_data flt :
  respects (writes_only own (thread_list_filename self))
    (save_thread_starter self thread_data flt).
Proof.
  unfold save_thread_starter.
  apply respects_bind;
    [apply writes_only_trans|apply respects_lift, writes_only_refl|].
  intros data. apply save_to_json_writes_only; [left; reflexivity|left; reflexivity].
Qed.

Lemma save_image_posts_writes_only thread_data flt :
  respects (writes_only own (thread_list_filename self))
    (save_image_posts self thread_data thread_no flt).
Proof.
  unfold save_image_posts.
  apply respects_bind;
    [apply writes_only_trans|apply respects_lift, writes_only_refl|].
  intros data. apply save_to_json_writes_only; [right; reflexivity|].
  right. intros H. symmetry in H. revert H. apply thread_list_not_image_file.
Qed.

(** Every run of a task, whatever the outside does and with or without a
    logger. *)
Lemma task_effects env w r w' :
  fetch_and_save_thread self thread_no env w = (r, w') ->
  dirs w' = dirs w /\
  (forall p, p <> thread_list_filename self ->
             p <> image_filename self thread_no ->
             files w' !! p = files w !! p) /\
  extends (files w !! thread_list_filename self)
          (files w' !! thread_list_filename self) /\
  requests_of (trace w') = requests_of (trace w) ++ [thread_url self thread_no] /\
  open_handles (trace w') = open_handles (trace w).
Proof.
  intros H. unfold fetch_and_save_thread, task_body in H.
  apply (try_bind_effects _ _ _
           (fun w w1 => files w1 = files w /\ dirs w1 = dirs w /\
                        trace w1 = trace w ++ [EvGet (thread_url self thread_no)])
           (writes_only own (thread_list_filename self))) in H.
  - destruct H as (w1 & (Hf & Hd & Ht) & (Hd' & Hf' & He & Hr & Hh)).
    rewrite Hf in *. rewrite Ht in *. rewrite Hd in *.
    split; [exact Hd'|]. split; [|split; [exact He|split]].
    + intros p H1 H2. apply Hf'. intros [H3|H3]; contradiction.
    + rewrite Hr, requests_of_app. reflexivity.
    + rewrite Hh, open_handles_app. simpl. lia.
  - apply writes_only_refl.
  - apply writes_only_trans.
  - intros w2 r2 w3 Hget.
    destruct (fetch_thread_effects self thread_no (te_resp env) w2)
      as (r3 & w4 & entries & Hrun & Hf & Hd & Ht & _).
    rewrite Hrun in Hget. inversion Hget; subst. auto.
  - intros thread_data.
    assert (Hlog : forall meth lv msg,
               respects (writes_only own (thread_list_filename self))
                 (log_call (logger self) meth lv msg)).
    { intros. apply respects_log_call;
        [apply writes_only_refl|apply writes_only_log]. }
    apply respects_bind; [apply writes_only_trans|apply Hlog|intros _].
    apply respects_bind;
      [apply writes_only_trans|apply save_thread_starter_writes_only|intros _].
    apply respects_bind; [apply writes_only_trans|apply Hlog|intros _].
    apply respects_bind;
      [apply writes_only_trans|apply save_image_posts_writes_only|intros _].
    apply Hlog.
  - intros e. apply respects_log_call;
      [apply writes_only_refl|apply writes_only_log].
Qed.

End TaskEffects.

(** ** What a run may change *)

Section RunEffects.

Variable self : FourChanFetcher.
Variables threads offset : Z.

Local Abbreviation step := (step self threads offset).
Local Abbreviation exec := (exec self threads offset).

Lemma only_logs_refl w : only_logs w w.
Proof. repeat split. Qed.

Lemma only_logs_trans w1 w2 w3 :
  only_logs w1 w2 -> only_logs w2 w3 -> only_logs w1 w3.
Proof. intros (?&?&?) (?&?&?). repeat split; congruence. Qed.

Lemma only_logs_log lv msg w : only_logs w (add_log lv msg w).
Proof. repeat split. Qed.

Lemma bind_effects {A B} (m : M A) (k : A -> M B) (Q R : World -> World -> Prop) :
  (forall w, R w w) ->
  (forall w r w1, m w = (r, w1) -> Q w w1) ->
  (forall a, respects R (k a)) ->
  forall w r w', bind m k w = (r, w') -> exists w1, Q w w1 /\ R w1 w'.
Proof.
  intros Hrefl Hm Hk w r w' H. unfold bind in H.
  destruct (m w) as [[a|e] w1] eqn:E.
  - exists w1. split; [eapply Hm; exact E|eapply Hk; exact H].
  - inversion H; subst. exists w'. split; [eapply Hm; exact E|apply Hrefl].
Qed.

Lemma select_effects resp w r w' :
  select self resp threads offset w = (r, w') ->
  files w' = files w /\ dirs w' = dirs w /\
  trace w' = trace w ++ [EvGet (catalog_url self)].
Proof.
  intros H. unfold select in H.
  apply (bind_effects _ _
           (fun w w1 => files w1 = files w /\ dirs w1 = dirs w /\
                        trace w1 = trace w ++ [EvGet (catalog_url self)])
           only_logs) in H.
  - destruct H as (w1 & (Hf & Hd & Ht) & (Hf' & Hd' & Ht')).
    repeat split; congruence.
  - apply only_logs_refl.
  - intros w2 r2 w3 Hget.
    destruct (fetch_catalog_effects self resp w2)
      as (r3 & w4 & entries & Hrun & Hf & Hd & Ht & _).
    rewrite Hrun in Hget. inversion Hget; subst. auto.
  - intros catalog.
    apply respects_bind;
      [apply only_logs_trans|apply respects_lift, only_logs_refl|intros sel].
    apply respects_bind; [apply only_logs_trans| |intros _].
    + apply respects_log_call; [apply only_logs_refl|apply only_logs_log].
    + apply respects_ret, only_logs_refl.
Qed.

Lemma outer_handler_only_logs e : respects only_logs (outer_handler self e).
Proof.
  unfold outer_handler.
  apply respects_bind; [apply only_logs_trans| |intros _].
  - apply respects_log_call; [apply only_logs_refl|apply only_logs_log].
  - apply respects_raise, only_logs_refl.
Qed.

Lemma observe_only_logs t res : respects only_logs (observe self t res).
Proof.
  unfold observe.
  apply respects_try_except;
    [apply only_logs_trans|apply respects_lift, only_logs_refl|intros e].
  apply respects_log_call; [apply only_logs_refl|apply only_logs_log].
Qed.

(** In an execution, every step after the first finds the run in the pool. *)
Lemma exec_after_select w0 resp tr' s :
  exec (Idle, w0) (LSelect resp :: tr') s -> fst s <> Idle.
Proof.
  intros H Hidle. apply run_inv_holds in H. unfold run_inv in H.
  rewrite Hidle in H. destruct H as [H _]. discriminate H.
Qed.

(** The worlds of the step relation, in which a task takes effect when it
    ends: the catalog was requested once, then one thread per task that
    ended; no directory was made; [thread_list.json] has its old text at
    its start; only it and the image files of the threads whose task ended
    may differ; and the opens and the closes are as many. *)
Lemma run_effects w0 tr s :
  exec (Idle, w0) tr s ->
  (tr = [] -> snd s = w0) /\
  forall resp tr', tr = LSelect resp :: tr' ->
    dirs (snd s) = dirs w0 /\
    requests_of (trace (snd s))
    = requests_of (trace w0)
        ++ catalog_url self :: map (thread_url self) (finished_tasks tr') /\
    extends (files w0 !! thread_list_filename self)
            (files (snd s) !! thread_list_filename self) /\
    (forall p, p <> thread_list_filename self ->
               (forall t, In t (finished_tasks tr') -> p <> image_filename self t) ->
               files (snd s) !! p = files w0 !! p) /\
    open_handles (trace (snd s)) = open_handles (trace w0).
Proof.
  remember (Idle, w0) as s0 eqn:Hs0.
  induction 1 as [s|s tr s' l s'' Hexec IH Hstep]; subst.
  - split; [reflexivity|]. intros resp tr' H. discriminate H.
  - specialize (IH eq_refl). destruct IH as [IH0 IH].
    split; [intros H; destruct tr; discriminate H|].
    intros resp tr' Htr.
    destruct tr as [|l0 tr].
    + (* the first step *)
      simpl in Htr. inversion Htr; subst. specialize (IH0 eq_refl).
      apply exec_nil_inv in Hexec. subst s'.
      assert (Hw : files (snd s'') = files w0 /\ dirs (snd s'') = dirs w0 /\
                   trace (snd s'') = trace w0 ++ [EvGet (catalog_url self)]).
      { inversion Hstep as
          [ ? ? sel w' Hsel | ? ? e1 w1' e' w'' Hsel Hout | | | | | | ]; subst;
          cbn [snd].
        - apply (select_effects _ _ _ _ Hsel).
        - destruct (select_effects _ _ _ _ Hsel) as (Hf & Hd & Ht).
          destruct (outer_handler_only_logs _ _ _ _ Hout) as (Hf' & Hd' & Ht').
          repeat split; congruence. }
      destruct Hw as (Hf & Hd & Ht). rewrite Hf, Hd, Ht.
      cbn [finished_tasks map].
      split; [reflexivity|]. split; [apply requests_of_app|].
      split; [apply extends_refl|]. split; [reflexivity|].
      rewrite open_handles_app. simpl. lia.
    + (* a later step *)
      simpl in Htr. inversion Htr; subst l0 tr'. clear Htr.
      specialize (IH resp tr eq_refl).
      destruct IH as (Hd & Hr & He & Hf & Hh).
      pose proof (exec_after_select _ _ _ _ Hexec) as Hph.
      rewrite finished_tasks_app.
      inversion Hstep as
        [ ? ? sel w' Hsel
        | ? ? e1 w1' e' w'' Hsel Hout
        | exc t q r fin w Hlen
        | exc t env q r1 r2 fin w res w' Hrun
        | t res q r fin1 fin2 w w' Hobs
        | t res q r fin1 fin2 w e w' Hobs
        | w
        | e fin w e' w' Hout ]; subst; cbn [fst snd] in *;
        try (exfalso; apply Hph; reflexivity);
        cbn [finished_tasks]; rewrite ?app_nil_r.
      * repeat split; assumption.
      * destruct (task_effects self t env w res w' Hrun)
          as (Hd' & Hf' & He' & Hr' & Hh').
        split; [congruence|]. split; [|split; [|split]].
        -- rewrite Hr', Hr, map_app. cbn [map].
           rewrite <- app_assoc. reflexivity.
        -- eapply extends_trans; eassumption.
        -- intros p Hp Hfin. rewrite Hf'.
           ++ apply Hf; [exact Hp|]. intros t' Hin. apply Hfin.
              apply in_or_app. left. exact Hin.
           ++ exact Hp.
           ++ apply Hfin. apply in_or_app. right. left. reflexivity.
        -- congruence.
      * destruct (observe_only_logs _ _ _ _ _ Hobs) as (Hf' & Hd' & Ht').
        rewrite Hf', Hd', Ht'. repeat split; assumption.
      * destruct (observe_only_logs _ _ _ _ _ Hobs) as (Hf' & Hd' & Ht').
        rewrite Hf', Hd', Ht'. repeat split; assumption.
      * repeat split; assumption.
      * destruct (outer_handler_only_logs _ _ _ _ Hout) as (Hf' & Hd' & Ht').
        rewrite Hf', Hd', Ht'. repeat split; assumption.
Qed.

End RunEffects.

(** ** Extra properties of the run *)

Section RunExtras.

Variable self : FourChanFetcher.
Variables threads offset : Z.

Local Abbreviation step := (step self threads offset).
Local Abbreviation exec := (exec self threads offset).

(** A task that ended belongs to a selected thread. *)
Lemma finished_task_selected w0 resp tr' s selected w1 t :
  exec (Idle, w0) (LSelect resp :: tr') s ->
  select self resp threads offset w0 = (Ok selected, w1) ->
  In t (finished_tasks tr') -> In t selected.
Proof.
  intros Hexec Hsel Hin. apply run_inv_holds in Hexec.
  unfold run_inv in Hexec. destruct s as [[|exc p| |e] w]; cbn [fst snd] in Hexec.
  - destruct Hexec as [H _]. discriminate H.
  - destruct Hexec as (resp' & sel & w1' & tr2 & Htr & Hsel' & _ & Hq & Hr & _).
    inversion Htr; subst. rewrite Hsel in Hsel'. inversion Hsel'; subst.
    eapply Permutation_in; [symmetry; exact Hq|]. apply in_or_app. right.
    eapply Permutation_in; [symmetry; exact Hr|]. apply in_or_app. right. exact Hin.
  - destruct Hexec as (resp' & sel & w1' & tr2 & Htr & Hsel' & Hq & Hr & _).
    inversion Htr; subst. rewrite Hsel in Hsel'. inversion Hsel'; subst.
    eapply Permutation_in; [symmetry; exact Hq|].
    eapply Permutation_in; [symmetry; exact Hr|]. exact Hin.
  - destruct Hexec as (resp' & e0 & w1' & Htr & Hsel' & _).
    inversion Htr; subst. destruct Hin.
Qed.

(** X1. A run that has ended requested the catalog once, before anything
    else. When it is done, its other requests are the thread URLs of the
    selected threads, one request for each selected thread: none is
    requested twice, none is left out, and nothing else is requested. When
    it was aborted the catalog request is its only request. In which order
    the thread requests go out depends on how the tasks run beside each
    other, and is not stated. *)
Theorem run_requests_catalog_then_each_thread_once
    (w0 : World) (resp : result value) (tr' : list label) (ph : phase) (w : World) :
  exec (Idle, w0) (LSelect resp :: tr') (ph, w) ->
  (ph = Done ->
   exists selected w1 urls,
     select self resp threads offset w0 = (Ok selected, w1) /\
     requests_of (trace w) = requests_of (trace w0) ++ catalog_url self :: urls /\
     Permutation urls (map (thread_url self) selected)) /\
  (forall e,
      ph = Aborted e ->
      requests_of (trace w) = requests_of (trace w0) ++ [catalog_url self]).
Proof.
  intros Hexec.
  destruct (run_effects self threads offset w0 _ _ Hexec) as [_ H].
  destruct (H resp tr' eq_refl) as (_ & Hreq & _). cbn [snd] in Hreq.
  apply run_inv_holds in Hexec. unfold run_inv in Hexec. cbn [fst snd] in Hexec.
  split.
  - intros ->.
    destruct Hexec as (resp' & sel & w1 & tr2 & Htr & Hsel & Hq & Hr & _).
    inversion Htr; subst.
    exists sel, w1, (map (thread_url self) (finished_tasks tr2)).
    split; [exact Hsel|]. split; [exact Hreq|].
    apply Permutation_map. rewrite Hq. symmetry. exact Hr.
  - intros e ->. destruct Hexec as (resp' & e0 & w1 & Htr & _).
    inversion Htr; subst. exact Hreq.
Qed.

(** X2. At every point of a run no directory was made, [thread_list.json]
    still begins with the text it had before the run, and every file other
    than [thread_list.json] and the image files of the selected threads is
    as it was; and when the run has ended, done or aborted, every file it
    opened is closed. The files are those of the file system the fetcher
    writes to; what the handlers of the logger do is not part of it. *)
Theorem run_changes_only_its_output_files
    (w0 : World) (tr : list label) (ph : phase) (w : World) :
  exec (Idle, w0) tr (ph, w) ->
  dirs w = dirs w0 /\
  extends (files w0 !! thread_list_filename self)
          (files w !! thread_list_filename self) /\
  (forall p,
      p <> thread_list_filename self ->
      (forall resp tr' selected w1 t,
          tr = LSelect resp :: tr' ->
          select self resp threads offset w0 = (Ok selected, w1) ->
          In t selected -> p <> image_filename self t) ->
      files w !! p = files w0 !! p) /\
  (ph = Done \/ (exists e, ph = Aborted e) ->
   open_handles (trace w) = open_handles (trace w0)).
Proof.
  intros Hexec.
  destruct (run_effects self threads offset w0 _ _ Hexec) as [H0 H].
  cbn [snd] in *. destruct tr as [|l tr'].
  - rewrite (H0 eq_refl). repeat split; auto. apply extends_refl.
  - assert (exists resp, l = LSelect resp) as [resp ->].
    { pose proof (run_inv_holds self threads offset w0 _ _ Hexec) as Hinv.
      unfold run_inv in Hinv. cbn [fst snd] in Hinv.
      destruct ph as [|exc p| |e].
      - destruct Hinv as [Hnil _]. discriminate Hnil.
      - destruct Hinv as (resp & ? & ? & ? & Htr & _). inversion Htr. eauto.
      - destruct Hinv as (resp & ? & ? & ? & Htr & _). inversion Htr. eauto.
      - destruct Hinv as (resp & ? & ? & Htr & _). inversion Htr. eauto. }
    destruct (H resp tr' eq_refl) as (Hd & Hr & He & Hf & Hh).
    split; [exact Hd|]. split; [exact He|]. split; [|intros _; exact Hh].
    intros p Hp Himg. apply Hf; [exact Hp|].
    intros t Hin.
    pose proof (run_inv_holds self threads offset w0 _ _ Hexec) as Hinv.
    unfold run_inv in Hinv. cbn [fst snd] in Hinv.
    destruct ph as [|exc pl| |e].
    + destruct Hinv as [Hnil _]. discriminate Hnil.
    + destruct Hinv as (resp' & sel & w1 & tr2 & Htr & Hsel & _).
      inversion Htr; subst.
      apply (Himg resp' tr2 sel w1 t eq_refl Hsel).
      eapply finished_task_selected; eassumption.
    + destruct Hinv as (resp' & sel & w1 & tr2 & Htr & Hsel & _).
      inversion Htr; subst.
      apply (Himg resp' tr2 sel w1 t eq_refl Hsel).
      eapply finished_task_selected; eassumption.
    + destruct Hinv as (resp' & e0 & w1 & Htr & _).
      inversion Htr; subst. destruct Hin.
Qed.

End RunExtras.

(** ** Extra properties of one task *)

Section TaskExtras.

Variable self : FourChanFetcher.

(** X4. Whatever the outside does, and with or without a logger, one call
    of [fetch_and_save_thread] issues exactly one request, for its own
    thread; makes no directory; leaves no file open; changes no file other
    than [thread_list.json] and the image file of its thread; and leaves
    [thread_list.json] beginning with the text it had. *)
Theorem task_touches_only_its_two_files
    (thread_no : value) (env : task_env) (w : World) (r : result unit) (w' : World) :
  fetch_and_save_thread self thread_no env w = (r, w') ->
  requests_of (trace w') = requests_of (trace w) ++ [thread_url self thread_no] /\
  dirs w' = dirs w /\
  open_handles (trace w') = open_handles (trace w) /\
  (forall p, p <> thread_list_filename self ->
             p <> image_filename self thread_no ->
             files w' !! p = files w !! p) /\
  extends (files w !! thread_list_filename self)
          (files w' !! thread_list_filename self).
Proof.
  intros H. destruct (task_effects self thread_no env w r w' H)
    as (Hd & Hf & He & Hr & Hh).
  repeat split; assumption.
Qed.

(** X5. With a logger, a task whose request fails writes nothing: no file
    is opened or changed, the only operation is the one request, the task
    returns normally, and the log ends with the failure and the thread
    number, after at most one entry of [fetch_thread] itself. *)
Theorem failed_request_writes_nothing
    (lg : Logger) (thread_no : value) (e : exn) (flt1 flt2 : fault) (w : World) :
  logger self = Some lg ->
  exists w' entries,
    fetch_and_save_thread self thread_no (mkTaskEnv (Raise e) flt1 flt2) w
    = (Ok tt, w') /\
    files w' = files w /\ dirs w' = dirs w /\
    trace w' = trace w ++ [EvGet (thread_url self thread_no)] /\
    log w' = log w ++ entries
               ++ [(ERROR, "Failed to process thread " +:+ py_str thread_no
                             +:+ ": " +:+ exn_msg e)] /\
    (length entries <= 1)%nat.
Proof.
  intros Hlg.
  destruct (fetch_thread_effects self thread_no (Raise e) w)
    as (r & w1 & entries & Hrun & Hf & Hd & Ht & Hr & _ & Hl & Hlen & _).
  assert (r = Raise e) as -> by (apply Hr; congruence).
  unfold fetch_and_save_thread, task_body, try_except, bind. cbn [te_resp].
  rewrite Hrun. unfold logger_error, log_call. rewrite Hlg. cbn [emit].
  exists (add_log ERROR ("Failed to process thread " +:+ py_str thread_no
                           +:+ ": " +:+ exn_msg e) w1), entries.
  split; [reflexivity|]. cbn [add_log files dirs trace log].
  rewrite Hl, <- app_assoc. auto.
Qed.

(** X6. The two writes of a task are not one unit. With a logger, when the
    thread is fetched and its thread-starter records are written, and then
    the image extraction raises, the task still returns normally: the new
    lines stay in [thread_list.json], while the image file of the thread is
    neither opened nor changed, and the failure is the last log entry. *)
Theorem starters_stay_when_images_fail
    (lg : Logger) (thread_no thread_data : value) (data : list value)
    (e : exn) (flt : fault) (w : World) :
  logger self = Some lg ->
  thread_starter_data thread_data = Ok data ->
  images_info self thread_data = Raise e ->
  exists w',
    fetch_and_save_thread self thread_no
      (mkTaskEnv (Ok thread_data) NoFault flt) w = (Ok tt, w') /\
    files w' !! thread_list_filename self
    = Some (default "" (files w !! thread_list_filename self)
              +:+ str_concat (json_lines data)) /\
    files w' !! image_filename self thread_no
    = files w !! image_filename self thread_no /\
    trace w' = trace w ++ [EvGet (thread_url self thread_no)]
                 ++ [EvOpen (thread_list_filename self) ModeA]
                 ++ map (EvWrite (thread_list_filename self)) (json_lines data)
                 ++ [EvClose (thread_list_filename self)] /\
    exists before,
      log w' = before ++ [(ERROR, "Failed to process thread " +:+ py_str thread_no
                                    +:+ ": " +:+ exn_msg e)].
Proof.
  intros Hlg Hdata Hinfo.
  unfold fetch_and_save_thread, task_body, try_except, bind.
  unfold fetch_thread, try_except, get_json. cbn [te_resp te_starter te_images].
  unfold logger_info, logger_error, log_call. rewrite Hlg. cbn [emit].
  rewrite (save_thread_starter_ok self _ _ _ Hdata).
  unfold save_image_posts, bind, lift. rewrite Hinfo.
  eexists. split; [reflexivity|].
  assert (Hne : image_filename self thread_no <> thread_list_filename self).
  { intros H. symmetry in H. revert H. apply thread_list_not_image_file. }
  split; [|split; [|split]].
  - rewrite !add_log_files, saved_at. reflexivity.
  - rewrite !add_log_files, saved_other by exact Hne. reflexivity.
  - rewrite !add_log_trace, saved_eq, saved_trace, add_log_trace.
    cbn [add_event trace]. rewrite <- !app_assoc. reflexivity.
  - eexists. reflexivity.
Qed.

(** X7. With a logger, when [thread_list.json] cannot be opened the task
    stops there: no file is changed, the image file of the thread is never
    opened although the thread was fetched, and the task returns normally
    after logging the failure. *)
Theorem failed_first_write_skips_the_second
    (lg : Logger) (thread_no thread_data : value) (data : list value)
    (e : exn) (flt : fault) (w : World) :
  logger self = Some lg ->
  thread_starter_data thread_data = Ok data ->
  exists w',
    fetch_and_save_thread self thread_no
      (mkTaskEnv (Ok thread_data) (OpenFails e) flt) w = (Ok tt, w') /\
    files w' = files w /\
    trace w' = trace w ++ [EvGet (thread_url self thread_no)] /\
    log w' = log w
      ++ [(INFO, "Fetched thread number " +:+ py_str thread_no);
          (INFO, "Saving data to " +:+ thread_list_filename self);
          (ERROR, "Error saving data to " +:+ thread_list_filename self
                    +:+ ": " +:+ exn_msg e);
          (ERROR, "Failed to process thread " +:+ py_str thread_no
                    +:+ ": " +:+ exn_msg e)].
Proof.
  intros Hlg Hdata.
  unfold fetch_and_save_thread, task_body, try_except, bind.
  unfold fetch_thread, try_except, get_json. cbn [te_resp te_starter te_images].
  unfold logger_info, logger_error, log_call. rewrite Hlg. cbn [emit].
  unfold save_thread_starter, bind, lift. rewrite Hdata.
  rewrite save_to_json_open_fails. rewrite Hlg.
  unfold save_error_msg. cbn [logged log_if emit snd].
  eexists. split; [reflexivity|]. cbn [add_log add_event files trace log].
  rewrite <- !app_assoc. auto.
Qed.

(** X8. A fetcher without a logger cannot save anything: every call of
    [fetch_and_save_thread] raises [AttributeError] and leaves every file
    and the log as they were; and every run of [fetch_top_threads] is
    aborted with [AttributeError] at its first step, before any task, with
    every file as it was; from every world and for every answer to the
    catalog request that first step exists. *)
Theorem without_logger_nothing_is_saved
    (threads offset : Z) :
  logger self = None ->
  let err := Exn AttributeError "'NoneType' object has no attribute 'error'" in
  (forall thread_no env w,
      exists w',
        fetch_and_save_thread self thread_no env w = (Raise err, w') /\
        files w' = files w /\ log w' = log w) /\
  (forall w0 tr ph w,
      exec self threads offset (Idle, w0) tr (ph, w) ->
      files w = files w0 /\ log w = log w0 /\
      started_tasks tr = [] /\
      (tr = [] \/ ph = Aborted err)) /\
  (forall w0 resp,
      exists w, exec self threads offset (Idle, w0) [LSelect resp] (Aborted err, w)).
Proof.
  intros Hlg err. split; [|split]; cycle 2.
  { intros w0 resp.
    assert (Hfail : head_fails self resp threads offset).
    { destruct resp as [catalog|e0]; [right; exact Hlg|exact I]. }
    apply (select_raise_iff self threads offset resp w0) in Hfail
      as (e0 & w1 & Hsel).
    exists w1. apply exec_one.
    apply (step_select_raise self threads offset resp w0 e0 w1 err w1 Hsel).
    unfold outer_handler, bind, logger_error, log_call, raise. rewrite Hlg.
    reflexivity. }
  - intros thread_no env w.
    destruct (fetch_thread_effects self thread_no (te_resp env) w)
      as (r & w1 & entries & Hrun & Hf & Hd & Ht & _ & _ & Hl & Hlen & Hent).
    assert (entries = []) as ->.
    { destruct entries as [|x entries]; [reflexivity|]. exfalso.
      revert Hrun Hl. unfold fetch_thread, try_except, get_json, logger_error,
        log_call, bind, raise. rewrite Hlg.
      destruct (te_resp env) as [a|[[] msg]]; cbn [exn_cls];
        intros Hrun Hl; inversion Hrun; subst w1; cbn [add_event log] in Hl;
        apply (f_equal (@length _)) in Hl; rewrite length_app in Hl;
        simpl in Hl; lia. }
    rewrite app_nil_r in Hl.
    unfold fetch_and_save_thread, task_body, try_except, bind. rewrite Hrun.
    unfold logger_info, logger_error, log_call, raise. rewrite Hlg.
    destruct r as [a|e]; exists w1; repeat split; assumption.
  - intros w0 tr ph w Hexec.
    pose proof (run_inv_holds self threads offset w0 _ _ Hexec) as Hinv.
    unfold run_inv in Hinv. cbn [fst snd] in Hinv.
    destruct ph as [|exc p| |e].
    + destruct Hinv as [-> ->]. auto.
    + destruct Hinv as (resp & sel & w1 & tr' & _ & Hsel & _).
      destruct (select_ok_logger self threads offset _ _ _ _ Hsel) as [lg Hlg'].
      congruence.
    + destruct Hinv as (resp & sel & w1 & tr' & _ & Hsel & _).
      destruct (select_ok_logger self threads offset _ _ _ _ Hsel) as [lg Hlg'].
      congruence.
    + destruct Hinv as (resp & e0 & w1 & -> & Hsel & Hout).
      destruct (select_effects self threads offset _ _ _ _ Hsel) as (Hf & _).
      revert Hout. unfold outer_handler, bind, logger_error, log_call, raise.
      rewrite Hlg. intros Hout. inversion Hout; subst.
      split; [exact Hf|]. split; [|split; [reflexivity|right; reflexivity]].
      revert Hsel. unfold select, bind, lift, logger_info, log_call, raise.
      destruct (fetch_catalog_effects self resp w0)
        as (r & w2 & entries & Hrun & _ & _ & _ & _ & _ & Hl & Hlen & _).
      rewrite Hrun, Hlg.
      assert (entries = []) as ->.
      { destruct entries as [|x entries]; [reflexivity|]. exfalso.
        revert Hrun Hl. unfold fetch_catalog, try_except, get_json, logger_error,
          log_call, bind, raise. rewrite Hlg.
        destruct resp as [a|[[] msg]]; cbn [exn_cls];
          intros Hrun Hl; inversion Hrun; subst w2; cbn [add_event log] in Hl;
          apply (f_equal (@length _)) in Hl; rewrite length_app in Hl;
          simpl in Hl; lia. }
      rewrite app_nil_r in Hl.
      destruct r as [catalog|e1].
      * destruct (selected_threads catalog threads offset);
          intros H; inversion H; subst; exact Hl.
      * intros H; inversion H; subst; exact Hl.
Qed.

End TaskExtras.

(** ** Extra properties of names, construction and selection *)

Section Names.

Lemma str_of_int_inj (n1 n2 : Z) : str_of_int n1 = str_of_int n2 -> n1 = n2.
Proof.
  unfold str_of_int. intros H.
  apply (f_equal NilEmpty.int_of_string) in H. rewrite !NilEmpty.isi in H.
  inversion H as [H']. apply (f_equal Z.of_int) in H'.
  rewrite !DecimalZ.of_to in H'. exact H'.
Qed.

Lemma str_app_cancel_r (a b s : string) : a +:+ s = b +:+ s -> a = b.
Proof.
  intros H. apply (f_equal list_ascii_of_string) in H.
  rewrite !list_ascii_app in H. apply app_inv_tail in H.
  apply (f_equal string_of_list_ascii) in H.
  rewrite !string_of_list_ascii_of_string in H. exact H.
Qed.

Lemma str_app_cancel_l (s a b : string) : s +:+ a = s +:+ b -> a = b.
Proof.
  induction s as [|c s IH]; intros H; [exact H|].
  rewrite !app_cons in H. inversion H. auto.
Qed.

Lemma prefix_slash_app (b x y : string) :
  String.prefix "/" (b +:+ "-" +:+ x) = String.prefix "/" (b +:+ "-" +:+ y).
Proof.
  assert (Hempty : forall s, String.prefix "" s = true)
    by (intros [|? ?]; reflexivity).
  destruct b as [|c b]; [reflexivity|].
  rewrite !app_cons. cbn [String.prefix].
  destruct (ascii_dec "/" c); [|reflexivity]. rewrite !Hempty. reflexivity.
Qed.

Lemma path_join_cancel (d b x y : string) :
  path_join d (b +:+ "-" +:+ x) = path_join d (b +:+ "-" +:+ y) -> x = y.
Proof.
  unfold path_join. rewrite (prefix_slash_app b x y).
  destruct (String.prefix "/" (b +:+ "-" +:+ y)).
  - intros H. apply str_app_cancel_l in H. apply str_app_cancel_l in H. exact H.
  - destruct (String.eqb d "" || ends_with_slash d); intros H;
      repeat apply str_app_cancel_l in H; exact H.
Qed.

(** X9. Two threads with different numbers have different image files and
    different URLs, so a task never changes the image file of another
    thread, whatever the outside does. *)
Theorem tasks_do_not_share_image_files
    (self : FourChanFetcher) (n1 n2 : Z) (env : task_env) (w : World)
    (r : result unit) (w' : World) :
  n1 <> n2 ->
  fetch_and_save_thread self (VInt n1) env w = (r, w') ->
  image_filename self (VInt n1) <> image_filename self (VInt n2) /\
  thread_url self (VInt n1) <> thread_url self (VInt n2) /\
  files w' !! image_filename self (VInt n2) = files w !! image_filename self (VInt n2).
Proof.
  intros Hne Hrun.
  assert (Himg : image_filename self (VInt n1) <> image_filename self (VInt n2)).
  { unfold image_filename. intros H. apply path_join_cancel in H.
    cbn [py_str py_repr] in H. apply str_app_cancel_r in H.
    apply Hne, str_of_int_inj, H. }
  split; [exact Himg|]. split.
  - unfold thread_url. intros H. repeat apply str_app_cancel_l in H.
    cbn [py_str py_repr] in H. apply str_app_cancel_r in H.
    apply Hne, str_of_int_inj, H.
  - destruct (task_effects self (VInt n1) env w r w' Hrun) as (_ & Hf & _).
    apply Hf.
    + intros H. symmetry in H. revert H. apply thread_list_not_image_file.
    + intros H. apply Himg. symmetry. exact H.
Qed.

End Names.

Section Construction.








End Construction.

Section Flatten.

Lemma extend_pages_flat (pages acc : list value) :
  Forall (fun page => well_formed_page page = true) pages ->
  extend_pages pages acc = Ok (acc ++ concat (map threads_of_page pages)).
Proof.
  intros H. revert acc. induction H as [|page pages Hp Hps IH]; intros acc.
  - simpl. rewrite app_nil_r. reflexivity.
  - destruct page as [ | | | | | d]; try discriminate Hp.
    cbn [extend_pages py_get rbind]. unfold well_formed_page in Hp.
    unfold threads_of_page at 1. cbn [map concat].
    destruct (dict_lookup "threads" d) as [[ | | | | ts | ]|]; try discriminate Hp;
      cbn [py_iter rbind]; rewrite IH, <- app_assoc; reflexivity.
Qed.

(** X11. For a catalog that is a list of page objects, each with a list of
    thread summaries under [threads] or with no such field, the flattened
    sequence of [fetch_top_threads] is the thread lists of the pages one
    after the other, in the order of the pages; so it has as many summaries
    as the pages have together, and a page without the field adds none. *)
Theorem all_threads_concatenates_pages (pages : list value) :
  Forall (fun page => well_formed_page page = true) pages ->
  all_threads (VList pages) = Ok (concat (map threads_of_page pages)) /\
  forall all,
    all_threads (VList pages) = Ok all ->
    length all = list_sum (map (fun page => length (threads_of_page page)) pages).
Proof.
  intros H.
  assert (Hall : all_threads (VList pages) = Ok (concat (map threads_of_page pages))).
  { unfold all_threads. simpl. rewrite (extend_pages_flat pages [] H). reflexivity. }
  split; [exact Hall|]. intros all Heq. rewrite Hall in Heq. inversion Heq; subst.
  clear. induction pages as [|page pages IH]; [reflexivity|].
  simpl. rewrite length_app, IH. reflexivity.
Qed.

End Flatten.

Section Windows.

Lemma rmap_app {A B} (f : A -> result B) (l1 l2 : list A) :
  rmap f (l1 ++ l2)
  = rbind (rmap f l1) (fun a => rbind (rmap f l2) (fun b => Ok (a ++ b))).
Proof.
  induction l1 as [|x l1 IH]; simpl.
  - destruct (rmap f l2); reflexivity.
  - destruct (f x) as [y|e]; simpl; [|reflexivity].
    rewrite IH. destruct (rmap f l1) as [ys|e]; simpl; [|reflexivity].
    destruct (rmap f l2); reflexivity.
Qed.

Lemma firstn_add {A} (a b : nat) (l : list A) :
  firstn (a + b) l = firstn a l ++ firstn b (skipn a l).
Proof.
  revert l. induction a as [|a IH]; intros l; [reflexivity|].
  destruct l as [|x l]; simpl.
  - rewrite firstn_nil. reflexivity.
  - rewrite IH. reflexivity.
Qed.

(** X12. Successive windows tile the catalog: for counts and an offset that
    are not negative, selecting [c1 + c2] threads at [offset] gives the
    [c1] threads selected at [offset] followed by the [c2] threads selected
    at [offset + c1], with nothing lost and nothing twice; and it raises
    exactly when one of the two selections raises, the first in order. *)
Theorem selection_windows_tile (catalog : value) (c1 c2 offset : Z) :
  0 <= c1 -> 0 <= c2 -> 0 <= offset ->
  selected_threads catalog (c1 + c2) offset
  = rbind (selected_threads catalog c1 offset) (fun first =>
    rbind (selected_threads catalog c2 (offset + c1)) (fun second =>
    Ok (first ++ second))).
Proof.
  intros H1 H2 Ho. unfold selected_threads.
  destruct (all_threads catalog) as [all|e]; [|reflexivity].
  cbn [rbind]. rewrite !py_slice_window by lia.
  rewrite Z2Nat.inj_add by lia. rewrite firstn_add, skipn_skipn.
  rewrite rmap_app.
  replace (Z.to_nat (offset + c1)) with (Z.to_nat c1 + Z.to_nat offset)%nat by lia.
  reflexivity.
Qed.

End Windows.

(** ** Extra properties of the command *)

Section Main.

Variable args : Args.
Variable mk_err : option (nat * exn).
Variable w : World.

Let started : World :=
  add_log INFO ("Starting fetching process for board: " +:+ args_board args) w.

Lemma init_logger b dir client lg mk w0 self w1 :
  __init__ b dir client lg mk w0 = (Ok self, w1) ->
  logger self = lg /\ In b valid_boards.
Proof.
  intros H. destruct (init_run _ _ _ _ _ _ _ _ H) as (_ & _ & _ & _ & Hr & _).
  destruct Hr as (Hin & -> & _). split; [reflexivity|exact Hin].
Qed.

Lemma select_with_logger self lg resp threads offset w0 r w1 :
  logger self = Some lg ->
  select self resp threads offset w0 = (r, w1) ->
  match resp with
  | Raise e => r = Raise e
  | Ok catalog =>
      match selected_threads catalog threads offset with
      | Ok selected => r = Ok selected
      | Raise e => r = Raise e
      end
  end.
Proof.
  intros Hlg. unfold select, bind, lift.
  destruct (fetch_catalog_effects self resp w0)
    as (r0 & w2 & entries & Hrun & _ & _ & _ & Hr & _).
  rewrite Hrun. rewrite (Hr ltac:(congruence)).
  destruct resp as [catalog|e].
  - destruct (selected_threads catalog threads offset) as [sel|e].
    + unfold logger_info, log_call. rewrite Hlg. cbn [emit ret].
      intros H. inversion H. reflexivity.
    + intros H. inversion H. reflexivity.
  - intros H. inversion H. reflexivity.
Qed.

Lemma outer_handler_with_logger self lg e w0 e' w1 :
  logger self = Some lg ->
  outer_handler self e w0 = (Raise e', w1) -> e' = e.
Proof.
  intros Hlg. unfold outer_handler, bind, logger_error, log_call, raise.
  rewrite Hlg. cbn [emit]. intros H. inversion H. reflexivity.
Qed.

(** X13. For a board outside the allow-list, [main], once it has its
    arguments and its logger, has one outcome: it exits with status 1 after
    printing the validation message that quotes the board, having logged
    the start and the validation error; the fetcher was not constructed,
    so nothing was requested, no directory was made and no output file was
    opened. *)
Theorem main_rejects_an_invalid_board :
  ~ In (args_board args) valid_boards ->
  let msg := "The board '" +:+ args_board args +:+ "' is not a valid 4chan board." in
  let printed := "Error: " +:+ msg +:+ ". Please check the board name and try again." in
  let w1 := add_log ERROR ("Validation error: " +:+ msg) started in
  main args mk_err w [] 1 [printed] w1 /\
  trace w1 = trace w /\ dirs w1 = dirs w /\
  log w1 = log w
    ++ [(INFO, "Starting fetching process for board: " +:+ args_board args);
        (ERROR, "Validation error: " +:+ msg)] /\
  forall tr code out w',
    main args mk_err w tr code out w' ->
    tr = [] /\ code = 1 /\ out = [printed] /\ w' = w1.
Proof.
  intros Hn msg printed w1.
  assert (Hinit : __init__ (args_board args) (args_directory args) None
                    (Some (mkLogger "fetch_4chan")) mk_err started
                  = (Raise (Exn ValueError msg), started)).
  { unfold __init__, bind, lift.
    rewrite (proj2 (validate_board_name_spec (args_board args)) Hn). reflexivity. }
  split; [|split; [reflexivity|split; [reflexivity|split]]].
  - apply (main_not_constructed args mk_err w _ _ Hinit).
  - unfold w1, started. cbn [add_log log]. rewrite <- app_assoc. reflexivity.
  - intros tr code out w' Hmain.
    destruct Hmain as [self w2 tr w3 Hi _ | e w2 Hi | self w2 tr e w3 Hi _];
      fold started in Hi; rewrite Hinit in Hi; inversion Hi; subst.
    repeat split; reflexivity.
Qed.

(** X15. When the catalog request raises, [main] reports that very
    exception and exits with status 1 without starting any task. A response
    that is not JSON raises [JSONDecodeError], a [ValueError], so it is
    reported by the handler meant for an invalid board name, with the
    advice to check the board name; a transport error of another class is
    reported as unexpected. *)
Theorem main_reports_the_catalog_failure
    (e : exn) (tr' : list label) (code : Z) (out : list string) (w' : World) :
  main args mk_err w (LSelect (Raise e) :: tr') code out w' ->
  tr' = [] /\ code = 1 /\ In (args_board args) valid_boards /\
  (exn_cls e = JSONDecodeError ->
   out = ["Error: " +:+ exn_msg e
            +:+ ". Please check the board name and try again."]) /\
  (is_ValueError (exn_cls e) = false ->
   out = ["An unexpected error occurred: " +:+ exn_msg e
            +:+ ". Please check the logs for more details."]) /\
  exists before,
    log w' = before
      ++ [(ERROR, "An error occurred while fetching top threads: " +:+ exn_msg e);
          (ERROR, main_log e)].
Proof.
  intros Hmain. remember (LSelect (Raise e) :: tr') as tr eqn:Htr.
  destruct Hmain as [self w1 tr w2 Hi Hexec | e1 w1 Hi | self w1 tr e1 w2 Hi Hexec];
    fold started in Hi.
  - destruct (init_logger _ _ _ _ _ _ _ _ Hi) as (Hlg & Hin).
    apply run_inv_holds in Hexec. unfold run_inv in Hexec. cbn [fst snd] in Hexec.
    destruct Hexec as (resp & sel & w3 & tr2 & Heq & Hsel & _).
    rewrite Heq in Htr. inversion Htr; subst.
    pose proof (select_with_logger _ _ _ _ _ _ _ _ Hlg Hsel) as Hr.
    discriminate Hr.
  - discriminate Htr.
  - destruct (init_logger _ _ _ _ _ _ _ _ Hi) as (Hlg & Hin).
    apply run_inv_holds in Hexec. unfold run_inv in Hexec. cbn [fst snd] in Hexec.
    destruct Hexec as (resp & e0 & w3 & Heq & Hsel & Hout).
    rewrite Heq in Htr. inversion Htr; subst.
    pose proof (select_with_logger _ _ _ _ _ _ _ _ Hlg Hsel) as Hr.
    inversion Hr; subst e0.
    pose proof (outer_handler_with_logger _ _ _ _ _ _ Hlg Hout) as ->.
    split; [reflexivity|]. split; [reflexivity|]. split; [exact Hin|].
    split; [|split].
    + intros Hcls. unfold main_print. rewrite Hcls. reflexivity.
    + intros Hcls. unfold main_print. rewrite Hcls. reflexivity.
    + revert Hout. unfold outer_handler, bind, logger_error, log_call, raise.
      rewrite Hlg. cbn [emit]. intros Hout. inversion Hout; subst.
      exists (log w3). cbn [add_log log]. rewrite <- app_assoc. reflexivity.
Qed.

End Main.

(** ** Extra properties of the writer and of the two requests *)

Section WriterAndRequests.

Lemma string_not_cons c (s : string) : s <> String c s.
Proof.
  induction s as [|c' s IH]; [discriminate|].
  intros H. inversion H; subst. apply IH. assumption.
Qed.

(** X16. Under every fault, one call of [save_to_json] makes no directory,
    requests nothing, leaves no file open and changes no file but its
    target; in append mode the target keeps its old text at its start; and
    when the file cannot be opened the target is unchanged too, so in
    overwrite mode it is not truncated. *)
Theorem save_to_json_changes_only_its_file
    (data : list value) (filename : string) (append : bool)
    (lg : option Logger) (flt : fault) (w : World) (r : result unit) (w' : World) :
  save_to_json data filename append lg flt w = (r, w') ->
  dirs w' = dirs w /\
  requests_of (trace w') = requests_of (trace w) /\
  open_handles (trace w') = open_handles (trace w) /\
  (forall p, p <> filename -> files w' !! p = files w !! p) /\
  (append = true -> extends (files w !! filename) (files w' !! filename)) /\
  (forall e, flt = OpenFails e -> r = Raise e /\ files w' = files w).
Proof.
  intros H.
  assert (Hother : filename <> String "x" filename) by apply string_not_cons.
  pose proof (save_to_json_writes_only (fun p => p = filename) (String "x" filename)
                data filename append lg flt eq_refl (or_intror Hother) w r w' H)
    as (Hd & Hf & _ & Hr & Hh).
  split; [exact Hd|]. split; [exact Hr|]. split; [exact Hh|]. split; [exact Hf|].
  split.
  - intros ->.
    apply (save_to_json_writes_only (fun p => p = filename) filename
             data filename true lg flt eq_refl (or_introl eq_refl) w r w' H).
  - intros e ->. rewrite save_to_json_open_fails in H. inversion H; subst.
    split; [reflexivity|]. rewrite !logged_files. reflexivity.
Qed.

(** X17. [fetch_catalog] and [fetch_thread] issue exactly one request each,
    to the catalog URL and to the URL of the thread, and never a second
    one; they change no file and make no directory; with a logger they
    return what the request returned and raise what it raised, for every
    class of exception; they log nothing on success and at most one error
    entry on failure. *)
Theorem each_fetch_requests_once_and_hides_nothing
    (self : FourChanFetcher) (thread_no : value) (resp : result value) (w : World) :
  (exists r w' entries,
      fetch_catalog self resp w = (r, w') /\
      files w' = files w /\ dirs w' = dirs w /\
      trace w' = trace w ++ [EvGet (catalog_url self)] /\
      (logger self <> None -> r = resp) /\
      (is_ok resp = true -> r = resp /\ entries = []) /\
      log w' = log w ++ entries /\
      (length entries <= 1)%nat /\
      Forall (fun x => fst x = ERROR) entries) /\
  (exists r w' entries,
      fetch_thread self thread_no resp w = (r, w') /\
      files w' = files w /\ dirs w' = dirs w /\
      trace w' = trace w ++ [EvGet (thread_url self thread_no)] /\
      (logger self <> None -> r = resp) /\
      (is_ok resp = true -> r = resp /\ entries = []) /\
      log w' = log w ++ entries /\
      (length entries <= 1)%nat /\
      Forall (fun x => fst x = ERROR) entries).
Proof.
  split; [apply fetch_catalog_effects|apply fetch_thread_effects].
Qed.

End WriterAndRequests.

(** ** The thread-starter records *)

Section StarterRecords.

Lemma comprehension_id_inv (p : value -> result bool) (l out : list value) :
  comprehension p Ok l = Ok out ->
  out = List.filter (fun x => match p x with Ok b => b | Raise _ => false end) l.
Proof.
  intros H. apply comprehension_inv in H.
  induction H as [|x y xs ys Hxy _ IH].
  - reflexivity.
  - inversion Hxy. rewrite IH. reflexivity.
Qed.

Lemma thread_starter_entry_inv post entry :
  carries "sub" post = true ->
  thread_starter_entry post = Ok entry ->
  exists d no sub,
    post = VDict d /\ dict_lookup "no" d = Some no /\
    dict_lookup "sub" d = Some sub.
Proof.
  intros Hsub H. destruct post as [ | b | n | s | l | d];
    try (unfold thread_starter_entry in H; simpl in H; discriminate H).
  destruct (carries_dict "sub" d Hsub) as [sub Hs].
  unfold thread_starter_entry in H. simpl in H.
  destruct (dict_lookup "no" d) as [no|] eqn:Hno; [|discriminate H].
  exists d, no, sub. repeat split; reflexivity || assumption.
Qed.

(** X18. Whenever the thread-starter extraction returns, its records are, in
    post order, one for each post in which ['sub' in post] holds and none
    for any other post; each such post is a JSON object, and its record has
    exactly the eight fields [no], [now], [name], [sub], [time],
    [semantic_url], [replies], [images] in this order: [no] and [sub] are
    the post's own values, so the default of [sub] is never taken, and each
    other field is the post's value, or the empty string or zero when the
    post lacks it. Every other field of the post is dropped. *)
Theorem thread_starter_records_copy_number_and_subject
    (thread_data : value) (data : list value) :
  thread_starter_data thread_data = Ok data ->
  exists posts,
    posts_of thread_data = Ok posts /\
    Forall2
      (fun post entry =>
         exists d no sub,
           post = VDict d /\
           dict_lookup "no" d = Some no /\
           dict_lookup "sub" d = Some sub /\
           entry
           = VDict [("no", no);
                    ("now", default (VStr "") (dict_lookup "now" d));
                    ("name", default (VStr "") (dict_lookup "name" d));
                    ("sub", sub);
                    ("time", default (VInt 0) (dict_lookup "time" d));
                    ("semantic_url",
                     default (VStr "") (dict_lookup "semantic_url" d));
                    ("replies", default (VInt 0) (dict_lookup "replies" d));
                    ("images", default (VInt 0) (dict_lookup "images" d))])
      (List.filter (carries "sub") posts)
      data.
Proof.
  intros H. unfold thread_starter_data, thread_starter_posts in H.
  destruct (posts_of thread_data) as [posts|e]; [|discriminate H].
  simpl in H. exists posts. split; [reflexivity|].
  destruct (comprehension (py_contains "sub") Ok posts) as [sel|e] eqn:Hsel;
    [|discriminate H].
  simpl in H. apply comprehension_id_inv in Hsel.
  change (sel = List.filter (carries "sub") posts) in Hsel. subst sel.
  apply rmap_inv in H.
  assert (Hin : Forall (fun post => carries "sub" post = true)
                  (List.filter (carries "sub") posts)).
  { apply List.Forall_forall. intros post Hp.
    apply filter_In in Hp. exact (proj2 Hp). }
  revert Hin. induction H as [|post entry ps es Hentry _ IH]; intros Hin.
  - constructor.
  - inversion Hin as [|? ? Hsub Hrest]; subst.
    constructor; [|exact (IH Hrest)].
    destruct (thread_starter_entry_inv post entry Hsub Hentry)
      as (d & no & sub & -> & Hno & Hs).
    exists d, no, sub. split; [reflexivity|]. split; [exact Hno|].
    split; [exact Hs|].
    unfold thread_starter_entry in Hentry. simpl in Hentry.
    rewrite Hno in Hentry. simpl in Hentry. rewrite Hs in Hentry.
    inversion Hentry. reflexivity.
Qed.

End StarterRecords.

(** ** The extra properties on concrete inputs *)

(** The run of [sample_execution] brought to its end. *)
Lemma sample_done_execution :
  exec sample_fetcher 1 0 (Idle, empty_world)
    [LSelect (Ok sample_catalog); LStart (VInt 111); LFinish (VInt 111) failing_env;
     LYield (VInt 111); LExit]
    (Done, sample_failed).
Proof.
  apply (exec_snoc sample_fetcher 1 0 _
           [LSelect (Ok sample_catalog); LStart (VInt 111);
            LFinish (VInt 111) failing_env; LYield (VInt 111)]
           (Fetching None (mkPool [] [] []), sample_failed)).
  - apply (exec_snoc sample_fetcher 1 0 _
             [LSelect (Ok sample_catalog); LStart (VInt 111);
              LFinish (VInt 111) failing_env]
             (Fetching None (mkPool [] [] [(VInt 111, Ok tt)]), sample_failed)).
    + exact sample_execution.
    + apply (step_yield sample_fetcher 1 0 (VInt 111) (Ok tt) [] [] [] []
               sample_failed sample_failed).
      reflexivity.
  - apply step_exit.
Defined.

Lemma run_requests_catalog_then_each_thread_once_witness :
  exists urls,
    requests_of (trace sample_failed)
    = requests_of (trace empty_world) ++ "https://a.4cdn.org/g/catalog.json" :: urls /\
    Permutation urls ["https://a.4cdn.org/g/thread/111.json"].
Proof.
  destruct (proj1 (run_requests_catalog_then_each_thread_once sample_fetcher 1 0
                     empty_world _ _ _ _ sample_done_execution) eq_refl)
    as (selected & w1 & urls & Hsel & Hreq & Hperm).
  assert (Hs : select sample_fetcher (Ok sample_catalog) 1 0 empty_world
               = (Ok [VInt 111], sample_selected)) by reflexivity.
  rewrite Hs in Hsel. inversion Hsel; subst selected w1.
  exists urls. split; [exact Hreq|exact Hperm].
Defined.

Lemma run_changes_only_its_output_files_witness :
  dirs sample_failed = dirs empty_world /\
  open_handles (trace sample_failed) = open_handles (trace empty_world).
Proof.
  destruct (run_changes_only_its_output_files sample_fetcher 1 0
              empty_world _ _ _ sample_done_execution) as (Hd & _ & _ & Hh).
  split; [exact Hd|]. apply Hh. left. reflexivity.
Defined.

Lemma task_touches_only_its_two_files_witness :
  requests_of (trace sample_failed)
  = requests_of (trace sample_selected) ++ [thread_url sample_fetcher (VInt 111)] /\
  dirs sample_failed = dirs sample_selected.
Proof.
  destruct (task_touches_only_its_two_files sample_fetcher (VInt 111) failing_env
              sample_selected (Ok tt) sample_failed) as (Hr & Hd & _).
  - reflexivity.
  - split; [exact Hr|exact Hd].
Defined.

Lemma failed_request_writes_nothing_witness :
  exists w' entries,
    fetch_and_save_thread sample_fetcher (VInt 111) failing_env empty_world
    = (Ok tt, w') /\
    files w' = files empty_world /\
    log w' = log empty_world ++ entries
               ++ [(ERROR, "Failed to process thread 111: Connection refused")].
Proof.
  destruct (failed_request_writes_nothing sample_fetcher (mkLogger "fetch_4chan")
              (VInt 111) (Exn ConnectionError "Connection refused") NoFault NoFault
              empty_world)
    as (w' & entries & Hrun & Hf & _ & _ & Hl & _).
  - reflexivity.
  - exists w', entries. split; [exact Hrun|]. split; [exact Hf|exact Hl].
Defined.

Lemma starters_stay_when_images_fail_witness :
  exists w',
    fetch_and_save_thread sample_fetcher (VInt 111)
      (mkTaskEnv (Ok sample_broken_thread) NoFault NoFault) empty_world
    = (Ok tt, w') /\
    lines (default "" (files w' !! thread_list_filename sample_fetcher))
    = map json_dumps (value_of_list (thread_starter_data sample_broken_thread)) /\
    files w' !! image_filename sample_fetcher (VInt 111) = None.
Proof.
  destruct (starters_stay_when_images_fail sample_fetcher (mkLogger "fetch_4chan")
              (VInt 111) sample_broken_thread
              (value_of_list (thread_starter_data sample_broken_thread))
              (Exn KeyError "'no'") NoFault empty_world)
    as (w' & Hrun & Hlist & Himg & _).
  - reflexivity.
  - reflexivity.
  - reflexivity.
  - exists w'. split; [exact Hrun|]. split; [|exact Himg].
    rewrite Hlist. apply lines_json_lines.
Defined.

Lemma failed_first_write_skips_the_second_witness :
  exists w',
    fetch_and_save_thread sample_fetcher (VInt 111)
      (mkTaskEnv (Ok sample_thread)
         (OpenFails (Exn OSError "[Errno 13] Permission denied")) NoFault)
      empty_world
    = (Ok tt, w') /\
    files w' = files empty_world /\
    trace w' = trace empty_world ++ [EvGet (thread_url sample_fetcher (VInt 111))].
Proof.
  destruct (failed_first_write_skips_the_second sample_fetcher
              (mkLogger "fetch_4chan") (VInt 111) sample_thread
              (value_of_list (thread_starter_data sample_thread))
              (Exn OSError "[Errno 13] Permission denied") NoFault empty_world)
    as (w' & Hrun & Hf & Ht & _).
  - reflexivity.
  - reflexivity.
  - exists w'. split; [exact Hrun|]. split; [exact Hf|exact Ht].
Defined.

Lemma without_logger_nothing_is_saved_witness :
  (exists w',
      fetch_and_save_thread sample_fetcher_without_logger (VInt 111)
        (mkTaskEnv (Ok sample_thread) NoFault NoFault) empty_world
      = (Raise (Exn AttributeError "'NoneType' object has no attribute 'error'"), w')
      /\ files w' = files empty_world /\ log w' = log empty_world) /\
  exists w,
    exec sample_fetcher_without_logger 1 0 (Idle, empty_world)
      [LSelect (Ok sample_catalog)]
      (Aborted (Exn AttributeError "'NoneType' object has no attribute 'error'"), w).
Proof.
  destruct (without_logger_nothing_is_saved sample_fetcher_without_logger
              1 0 eq_refl) as (Htask & _ & Hrun).
  split; [apply Htask|apply Hrun].
Defined.

Lemma tasks_do_not_share_image_files_witness :
  image_filename sample_fetcher (VInt 111) <> image_filename sample_fetcher (VInt 222)
  /\ files sample_failed !! image_filename sample_fetcher (VInt 222)
     = files sample_selected !! image_filename sample_fetcher (VInt 222).
Proof.
  destruct (tasks_do_not_share_image_files sample_fetcher 111 222 failing_env
              sample_selected (Ok tt) sample_failed) as (Hne & _ & Hf).
  - lia.
  - reflexivity.
  - split; [exact Hne|exact Hf].
Defined.


Lemma all_threads_concatenates_pages_witness :
  all_threads sample_catalog
  = Ok [VDict [("no", VInt 111)]; VDict [("no", VInt 222)];
        VDict [("no", VInt 333)]].
Proof.
  apply (proj1 (all_threads_concatenates_pages
                  [VDict [("page", VInt 1);
                          ("threads", VList [VDict [("no", VInt 111)];
                                             VDict [("no", VInt 222)]])];
                   VDict [("page", VInt 2);
                          ("threads", VList [VDict [("no", VInt 333)]])]]
                  ltac:(repeat constructor))).
Defined.

Lemma selection_windows_tile_witness :
  selected_threads sample_catalog (1 + 2) 0
  = rbind (selected_threads sample_catalog 1 0) (fun first =>
    rbind (selected_threads sample_catalog 2 (0 + 1)) (fun second =>
    Ok (first ++ second))).
Proof. apply (selection_windows_tile sample_catalog 1 2 0); lia. Defined.

Lemma main_rejects_an_invalid_board_witness :
  ~ In "x" valid_boards /\
  main (mkArgs "x" 5 0 ".") None empty_world [] 1
    ["Error: The board 'x' is not a valid 4chan board.. Please check the board name and try again."]
    (add_log ERROR "Validation error: The board 'x' is not a valid 4chan board."
       (add_log INFO "Starting fetching process for board: x" empty_world)).
Proof.
  assert (Hn : ~ In "x" valid_boards).
  { unfold valid_boards. intros H.
    repeat (destruct H as [H|H]; [discriminate H|]). exact H. }
  split; [exact Hn|].
  exact (proj1 (main_rejects_an_invalid_board (mkArgs "x" 5 0 ".") None
                  empty_world Hn)).
Defined.


(** A command line whose catalog request is answered by something that is
    not JSON. *)
Lemma sample_main_refusal :
  main sample_args None empty_world [LSelect (Raise not_json)] 1
    [main_print not_json] (add_log ERROR (main_log not_json) sample_main_refused).
Proof.
  apply (main_aborted sample_args None empty_world sample_fetcher
           sample_main_constructed).
  - reflexivity.
  - apply (exec_snoc sample_fetcher 0 0 _ [] (Idle, sample_main_constructed)).
    + apply exec_nil.
    + apply (step_select_raise sample_fetcher 0 0 (Raise not_json)
               sample_main_constructed not_json
               (snd (select sample_fetcher (Raise not_json) 0 0
                       sample_main_constructed))); reflexivity.
Defined.


Lemma main_reports_the_catalog_failure_witness :
  [main_print not_json]
  = ["Error: Expecting value: line 1 column 1 (char 0). Please check the board name and try again."].
Proof.
  destruct (main_reports_the_catalog_failure sample_args None empty_world _ _ _ _ _
              sample_main_refusal) as (_ & _ & _ & Hjson & _).
  exact (Hjson eq_refl).
Defined.

Lemma save_to_json_changes_only_its_file_witness :
  exists w',
    save_to_json [VDict [("no", VInt 111)]] "./g/images/g-111_ImageURLs.json" false
      None (OpenFails (Exn OSError "[Errno 13] Permission denied")) sample_failed
    = (Raise (Exn OSError "[Errno 13] Permission denied"), w') /\
    files w' = files sample_failed.
Proof.
  eexists.
  assert (Hrun : save_to_json [VDict [("no", VInt 111)]]
                   "./g/images/g-111_ImageURLs.json" false None
                   (OpenFails (Exn OSError "[Errno 13] Permission denied"))
                   sample_failed
                 = (Raise (Exn OSError "[Errno 13] Permission denied"),
                    sample_failed)) by reflexivity.
  split; [exact Hrun|].
  destruct (save_to_json_changes_only_its_file _ _ _ _ _ _ _ _ Hrun)
    as (_ & _ & _ & _ & _ & Hopen).
  apply (Hopen _ eq_refl).
Defined.

Lemma each_fetch_requests_once_and_hides_nothing_witness :
  exists r w' entries,
    fetch_thread sample_fetcher (VInt 111)
      (Raise (Exn ConnectionError "Connection refused")) empty_world = (r, w') /\
    trace w' = trace empty_world ++ [EvGet (thread_url sample_fetcher (VInt 111))] /\
    r = Raise (Exn ConnectionError "Connection refused") /\
    log w' = log empty_world ++ entries.
Proof.
  destruct (each_fetch_requests_once_and_hides_nothing sample_fetcher (VInt 111)
              (Raise (Exn ConnectionError "Connection refused")) empty_world)
    as (_ & r & w' & entries & Hrun & _ & _ & Ht & Hr & _ & Hl & _).
  exists r, w', entries. split; [exact Hrun|]. split; [exact Ht|].
  split; [|exact Hl]. apply Hr. discriminate.
Defined.

Lemma thread_starter_records_copy_number_and_subject_witness :
  thread_starter_data sample_thread
  = Ok [VDict [("no", VInt 111); ("now", VStr ""); ("name", VStr "");
               ("sub", VStr "hello"); ("time", VInt 0);
               ("semantic_url", VStr ""); ("replies", VInt 0);
               ("images", VInt 0)]] /\
  exists posts,
    posts_of sample_thread = Ok posts /\
    length (List.filter (carries "sub") posts) = 1%nat.
Proof.
  assert (Hrun : thread_starter_data sample_thread
                 = Ok [VDict [("no", VInt 111); ("now", VStr ""); ("name", VStr "");
                              ("sub", VStr "hello"); ("time", VInt 0);
                              ("semantic_url", VStr ""); ("replies", VInt 0);
                              ("images", VInt 0)]]) by reflexivity.
  split; [exact Hrun|].
  destruct (thread_starter_records_copy_number_and_subject sample_thread _ Hrun)
    as (posts & Hposts & Hall).
  exists posts. split; [exact Hposts|].
  apply Forall2_length in Hall. exact Hall.
Defined.
